(** * The model importer: a shallow embedding of [scripts/importer.py]

    The importer scans a download directory for zip archives, unpacks each
    one into a scratch directory, reads the side-car metadata text, picks
    the geometry and the preview file, moves everything into a fresh model
    directory and inserts one row into the [Model] table
    ([app/database_manager.py]).

    Conventions of the embedding.
    - A Python [str] is a list of characters ([list ascii]); a character is
      a code point below 256, and the character classes used by the
      builtins ([str.isspace], [str.isdigit], [str.lower], the boundaries of
      [str.splitlines]) follow CPython's tables on that range.
    - A raised exception is a value of [exn]; a function that can raise
      returns a [result].
    - The file system is a tree of directories and files; its operations
      follow [pathlib], [shutil] and [os.walk] on a POSIX system without
      symbolic links, and fail only when their arguments call for it.
    - The scratch directory of one archive is new and private to it, so it
      is kept apart from the tree: an archive carries the listing of its
      extracted files.
    - The calls of [logging] are left out; they change neither the tree
      nor the store nor the flow of control.
    - The database server and [str.upper] are parameters. *)

From Stdlib Require Import ZArith Ascii String List Bool Lia.
From stdpp Require Import base option list strings gmap pretty.

Local Open Scope list_scope.
Local Open Scope bool_scope.
Set Warnings "-register-all".

(** ** Python strings *)

Module PyStr.

Definition str := list ascii.

Definition lit (s : string) : str := list_ascii_of_string s.

Definition code (c : ascii) : N := N_of_ascii c.

Definition between (lo hi n : N) : bool := (lo <=? n)%N && (n <=? hi)%N.

(** [str.isspace] on one character: TAB..CR, FS..US, space, NEL, NBSP. *)
Definition isspace (c : ascii) : bool :=
  let n := code c in
  between 9 13 n || between 28 32 n || (n =? 133)%N || (n =? 160)%N.

(** The line boundaries of [str.splitlines]. *)
Definition is_linebreak (c : ascii) : bool :=
  let n := code c in
  between 10 13 n || between 28 30 n || (n =? 133)%N.

(** [str.isdigit] on one character: 0-9 and the superscripts 1, 2, 3. *)
Definition isdigit_char (c : ascii) : bool :=
  let n := code c in
  between 48 57 n || (n =? 178)%N || (n =? 179)%N || (n =? 185)%N.

Definition is_ascii_digit (c : ascii) : bool := between 48 57 (code c).

(** The regular expression class [[a-zA-Z0-9]]. *)
Definition is_alnum (c : ascii) : bool :=
  let n := code c in
  between 48 57 n || between 65 90 n || between 97 122 n.

(** [str.lower] on one character. *)
Definition lower_char (c : ascii) : ascii :=
  let n := code c in
  if between 65 90 n || (between 192 222 n && negb (n =? 215)%N)
  then ascii_of_N (n + 32) else c.

Definition lower (s : str) : str := map lower_char s.

Fixpoint takewhile (p : ascii -> bool) (s : str) : str :=
  match s with
  | c :: s' => if p c then c :: takewhile p s' else []
  | [] => []
  end.

Fixpoint dropwhile (p : ascii -> bool) (s : str) : str :=
  match s with
  | c :: s' => if p c then dropwhile p s' else s
  | [] => []
  end.

Definition lstrip (s : str) : str := dropwhile isspace s.
Definition rstrip (s : str) : str := rev (dropwhile isspace (rev s)).

(** [s.strip()] *)
Definition strip (s : str) : str := lstrip (rstrip s).

Definition eqc (a b : ascii) : bool := Ascii.eqb a b.

(** [ch in s] for a one-character needle. *)
Definition contains (ch : ascii) (s : str) : bool := existsb (eqc ch) s.

(** [s.startswith(ch)] for a one-character prefix. *)
Definition startswith (ch : ascii) (s : str) : bool :=
  match s with
  | c :: _ => eqc ch c
  | [] => false
  end.

Fixpoint str_eqb (a b : str) : bool :=
  match a, b with
  | [], [] => true
  | x :: a', y :: b' => eqc x y && str_eqb a' b'
  | _, _ => false
  end.

(** [s.endswith(suffix)] *)
Definition endswith (suffix s : str) : bool :=
  str_eqb (skipn (length s - length suffix) s) suffix
  && (length suffix <=? length s)%nat.

(** [s.split(ch, 1)]: the text before the first [ch] and the text after
    it, or the whole string alone when [ch] does not occur. *)
Fixpoint split1 (ch : ascii) (s : str) : str * option str :=
  match s with
  | [] => ([], None)
  | c :: s' =>
      if eqc ch c then ([], Some s')
      else let '(a, b) := split1 ch s' in (c :: a, b)
  end.

(** [s.rsplit(ch, 1)[0]]: the text before the last [ch], or all of [s]. *)
Definition rsplit1_head (ch : ascii) (s : str) : str :=
  match split1 ch (rev s) with
  | (_, Some before) => rev before
  | (_, None) => s
  end.

(** [s.replace(a, b)] for one-character [a] and [b]. *)
Definition replace_char (a b : ascii) (s : str) : str :=
  map (fun c => if eqc a c then b else c) s.

(** [s.splitlines()]; [cur] holds the current line, reversed.  CR LF is
    one boundary, and a final boundary opens no further line. *)
Fixpoint splitlines_from (cur : str) (s : str) : list str :=
  match s with
  | [] => match cur with [] => [] | _ => [rev cur] end
  | c :: s' =>
      if is_linebreak c then
        rev cur ::
          match s' with
          | d :: s'' =>
              if (code c =? 13)%N && (code d =? 10)%N
              then splitlines_from [] s''
              else splitlines_from [] s'
          | [] => splitlines_from [] s'
          end
      else splitlines_from (c :: cur) s'
  end.

Definition splitlines (s : str) : list str := splitlines_from [] s.

Arguments eqc : simpl never.
Arguments code : simpl never.
Arguments between : simpl never.
Arguments isspace : simpl never.
Arguments is_linebreak : simpl never.
Arguments isdigit_char : simpl never.
Arguments is_ascii_digit : simpl never.
Arguments is_alnum : simpl never.
Arguments lower_char : simpl never.

End PyStr.
Export PyStr.

(** ** Exceptions *)

(** The messages of the [RuntimeError]s that [process_one_zip] raises,
    and the one that [zipfile] raises through it. *)
Inductive failure :=
  | BadZipFile          (* "Bad zip file: ..." *)
  | NoFilesFound        (* "No files found in zip ..." *)
  | NoMetadata          (* "No metadata .txt found in ..." *)
  | NoGeometry          (* "No geometry file found for ..." *)
  | NoPreview           (* "No preview image found (jpg/png) in ..." *)
  | PreviewLost         (* "Failed to detect preview file after moving files." *)
  | EncryptedFile.      (* zipfile: "File ... is encrypted, password required for extraction" *)

(** The exceptions by their classes.  [NotImplementedError] is a
    [RuntimeError] and [UnicodeDecodeError] a [ValueError] for Python;
    [OtherError] stands for the classes that only [zipfile] and its
    codecs raise ([zlib.error], [lzma.LZMAError], [OSError], [EOFError],
    [IndexError], ...), by their names. *)
Inductive exn :=
  | RuntimeError (why : failure)
  | TypeError
  | ValueError
  | OverflowError
  | FileExistsError
  | FileNotFoundError
  | NotADirectoryError
  | IsADirectoryError
  | ShutilError
  | DatabaseError (detail : str)
  | NotImplementedError
  | UnicodeDecodeError
  | OtherError (class : str).

(** What [zipfile.ZipFile] and [extractall] raise for the bytes of a file
    apart from [BadZipFile], which alone is caught at line 155. *)
Inductive zip_exn :=
  | BadMemberName       (* UnicodeDecodeError: a name flagged UTF-8 that is none *)
  | EncryptedMember     (* RuntimeError: an encrypted entry, no password given *)
  | UnsupportedMethod   (* NotImplementedError: a compression method or flag *)
  | DirectoryOverFile   (* FileExistsError: a directory entry called like a file entry *)
  | FileOverDirectory   (* IsADirectoryError: a file entry called like a directory *)
  | MemberBelowFile     (* NotADirectoryError: an entry below a file entry *)
  | Unreadable (class : str).
                        (* zlib.error, lzma.LZMAError, OSError, EOFError, IndexError, ... *)

Definition exn_of_zip (z : zip_exn) : exn :=
  match z with
  | BadMemberName => UnicodeDecodeError
  | EncryptedMember => RuntimeError EncryptedFile
  | UnsupportedMethod => NotImplementedError
  | DirectoryOverFile => FileExistsError
  | FileOverDirectory => IsADirectoryError
  | MemberBelowFile => NotADirectoryError
  | Unreadable class => OtherError class
  end.

Inductive result (A : Type) :=
  | Ok (a : A)
  | Raise (e : exn).
Arguments Ok {A} a.
Arguments Raise {A} e.

Notation "'do' x <- e ; k" :=
  (match e with Ok x => k | Raise err => Raise err end)
  (at level 10, x pattern, e at level 100, k at level 200,
   format "'[v' 'do'  x  <-  e ; '/' k ']'").

(** ** slugify *)

Module Slug.

(** One match of [\.[a-zA-Z0-9]{1,5}] that ends where the reversed text
    [r] starts: the extension is the run of class characters at the end,
    one to five of them, right after a dot. The text before the dot is
    returned, still reversed. *)
Definition match_ext_rev (r : str) : option str :=
  let e := takewhile is_alnum r in
  match dropwhile is_alnum r with
  | dot :: p =>
      if eqc "."%char dot && (1 <=? length e)%nat && (length e <=? 5)%nat
      then Some p else None
  | [] => None
  end.

(** [re.sub(r"\.[a-zA-Z0-9]{1,5}$", "", s)]: [$] matches at the end of the
    text and also just before a newline that ends it. *)
Definition strip_ext (s : str) : str :=
  match match_ext_rev (rev s) with
  | Some p => rev p
  | None =>
      match rev s with
      | nl :: r' =>
          if (code nl =? 10)%N then
            match match_ext_rev r' with
            | Some p => rev p ++ [nl]
            | None => s
            end
          else s
      | [] => s
      end
  end.

(** The class [[A-Za-z0-9_\-]]. *)
Definition is_slug_char (c : ascii) : bool :=
  is_alnum c || eqc "_"%char c || eqc "-"%char c.
Arguments is_slug_char : simpl never.

(** [slugify(name)]; the result [None] is Python's [None]. *)
Definition slugify (name : str) : option str :=
  match name with
  | [] => None
  | _ =>
      let s := strip name in
      let s := strip_ext s in
      let s := replace_char " "%char "_"%char s in
      let s := List.filter is_slug_char s in
      let s := match s with [] => lit "model" | _ => s end in
      Some (firstn 150 s)
  end.

End Slug.
Export Slug.

(** ** Paths *)

Module PyPath.

(** A path is the list of its segments, from the root of the tree. *)
Definition path := list str.

(** [Path(base) / name] for a [name] that is one segment: the slug of
    [slugify], a file name, ["_processed"], ["_failed"]. *)
Definition joinpath (base : path) (name : str) : path := base ++ [name].

(** [p.name] *)
Definition name (p : path) : str := List.last p [].

(** The index that [name.rfind(".")] returns, when there is a dot. *)
Definition rfind_dot (s : str) : option nat :=
  match split1 "."%char (rev s) with
  | (after, Some _) => Some (length s - 1 - length after)%nat
  | (_, None) => None
  end.

(** The index at which [PurePath.suffix] cuts the name: the last dot,
    unless it is the first or the last character. *)
Definition suffix_at (s : str) : option nat :=
  match rfind_dot s with
  | Some i => if (0 <? i)%nat && (i <? length s - 1)%nat then Some i else None
  | None => None
  end.

(** [p.suffix] *)
Definition suffix (p : path) : str :=
  match suffix_at (name p) with
  | Some i => skipn i (name p)
  | None => []
  end.

(** [p.stem] *)
Definition stem (p : path) : str :=
  match suffix_at (name p) with
  | Some i => firstn i (name p)
  | None => name p
  end.

End PyPath.
Export PyPath.

(** ** Metadata text *)

Module Metadata.

(** The body of the loop of [parse_metadata_from_text].  Unpacking
    [key, val = line[1:].split(":", 1)] raises [ValueError] when the split
    yields one element. *)
Definition parse_line (data : gmap str str) (raw_line : str)
  : result (gmap str str) :=
  let line := strip raw_line in
  match line with
  | [] => Ok data
  | _ =>
      if negb (startswith "#"%char line) then Ok data
      else if negb (contains ":"%char line) then Ok data
      else
        match split1 ":"%char (tl line) with
        | (key, Some val) => Ok (<[strip key := strip val]> data)
        | (_, None) => Raise ValueError
        end
  end.

Fixpoint parse_lines (data : gmap str str) (lines : list str)
  : result (gmap str str) :=
  match lines with
  | [] => Ok data
  | raw_line :: rest =>
      do data' <- parse_line data raw_line;
      parse_lines data' rest
  end.

Definition parse_metadata_from_text (text : str) : result (gmap str str) :=
  parse_lines ∅ (splitlines text).

End Metadata.
Export Metadata.

(** ** Numbers: [str.isdigit], [int], [float] *)

Module Numeric.

Definition digit_val (c : ascii) : Z := Z.of_N (code c) - 48.

(** The value of a run of ASCII digits, most significant first. *)
Definition digits_val (ds : str) : Z :=
  fold_left (fun acc c => 10 * acc + digit_val c)%Z ds 0%Z.

(** [s.isdigit()]: at least one character, all of them digits. *)
Definition isdigit (s : str) : bool :=
  match s with
  | [] => false
  | _ => forallb isdigit_char s
  end.

(** [int(s)] for an [s] made of [isdigit] characters.  The superscript
    digits are no decimal digits, and CPython refuses more than 4300
    digits. *)
Definition int_of_str (s : str) : result Z :=
  if forallb is_ascii_digit s && (length s <=? 4300)%nat
  then Ok (digits_val s)
  else Raise ValueError.

(** What [float(s)] reads: an infinity, a NaN, or the decimal
    [mantissa * 10 ^ exp10] with its sign. *)
Inductive float_lit :=
  | FInf (neg : bool)
  | FNan
  | FNum (neg : bool) (mantissa exp10 : Z).

(** The rest of a [digitpart] after a digit: digits, each one optionally
    preceded by one underscore. *)
Fixpoint after_digit (s : str) : str * str :=
  match s with
  | c :: s' =>
      if is_ascii_digit c then
        let '(ds, r) := after_digit s' in (c :: ds, r)
      else if eqc "_"%char c then
        match s' with
        | d :: s'' =>
            if is_ascii_digit d then
              let '(ds, r) := after_digit s'' in (d :: ds, r)
            else ([], s)
        | [] => ([], s)
        end
      else ([], s)
  | [] => ([], [])
  end.

Definition digitpart (s : str) : option (str * str) :=
  match s with
  | c :: s' =>
      if is_ascii_digit c then
        let '(ds, r) := after_digit s' in Some (c :: ds, r)
      else None
  | [] => None
  end.

Definition sign (s : str) : bool * str :=
  match s with
  | c :: r =>
      if eqc "+"%char c then (false, r)
      else if eqc "-"%char c then (true, r)
      else (false, s)
  | [] => (false, s)
  end.

(** The optional exponent, which must end the text. *)
Definition exponent (s : str) : option Z :=
  match s with
  | [] => Some 0%Z
  | c :: r =>
      if eqc "e"%char c || eqc "E"%char c then
        let '(neg, r') := sign r in
        match digitpart r' with
        | Some (ds, []) =>
            Some (if neg then - digits_val ds else digits_val ds)%Z
        | _ => None
        end
      else None
  end.

Definition decimal (ip fp : str) (rest : str) : option (Z * Z) :=
  match exponent rest with
  | Some e => Some (digits_val (ip ++ fp), e - Z.of_nat (length fp))%Z
  | None => None
  end.

Definition floatnumber (s : str) : option (Z * Z) :=
  match digitpart s with
  | Some (ip, r) =>
      match r with
      | c :: r' =>
          if eqc "."%char c then
            match digitpart r' with
            | Some (fp, r'') => decimal ip fp r''
            | None => decimal ip [] r'
            end
          else decimal ip [] r
      | [] => decimal ip [] r
      end
  | None =>
      match s with
      | c :: r' =>
          if eqc "."%char c then
            match digitpart r' with
            | Some (fp, r'') => decimal [] fp r''
            | None => None
            end
          else None
      | [] => None
      end
  end.

(** The blanks that [float] skips at both ends: those of [str.strip]
    without the separators FS, GS, RS and US. *)
Definition float_blank (c : ascii) : bool :=
  isspace c && negb (between 28 31 (code c)).

Definition float_strip (s : str) : str :=
  dropwhile float_blank (rev (dropwhile float_blank (rev s))).

(** [float(s)]: surrounding blanks are dropped; the words are matched
    without regard to case. *)
Definition float_of_str (s : str) : result float_lit :=
  let '(neg, r) := sign (float_strip s) in
  let w := lower r in
  if str_eqb w (lit "inf") || str_eqb w (lit "infinity") then Ok (FInf neg)
  else if str_eqb w (lit "nan") then Ok FNan
  else
    match floatnumber r with
    | Some (m, e) => Ok (FNum neg m e)
    | None => Raise ValueError
    end.

Definition round_half_even (n d : Z) : Z :=
  let q := (n / d)%Z in
  let r := (n mod d)%Z in
  if (2 * r <? d)%Z then q
  else if (d <? 2 * r)%Z then (q + 1)%Z
  else if Z.even q then q else (q + 1)%Z.

(** [int(x)] for the binary64 number [x] nearest to [m * 10 ^ e], [m >= 0]
    (ties to even): with [E] the binary exponent of the decimal, [x] is
    [k * 2 ^ (E - 52)]. *)
Definition trunc_double (m e : Z) : result Z :=
  if (m =? 0)%Z then Ok 0%Z
  else
    let num := (if 0 <=? e then m * 10 ^ e else m)%Z in
    let den := (if 0 <=? e then 1 else 10 ^ (- e))%Z in
    let e0 := (Z.log2 num - Z.log2 den)%Z in
    let reaches :=
      (if 0 <=? e0 then den * 2 ^ e0 <=? num else den <=? num * 2 ^ (- e0))%Z in
    let E := (if reaches then e0 else e0 - 1)%Z in
    if (E <? -1)%Z then Ok 0%Z
    else
      let k := (if E <=? 52 then round_half_even (num * 2 ^ (52 - E)) den
                else round_half_even num (den * 2 ^ (E - 52)))%Z in
      if (1024 <=? E)%Z || ((E =? 1023)%Z && (k =? 2 ^ 53)%Z)
      then Raise OverflowError
      else Ok (if E <=? 52 then k / 2 ^ (52 - E) else k * 2 ^ (E - 52))%Z.

(** [int(x)] for a float [x]. *)
Definition int_of_float (x : float_lit) : result Z :=
  match x with
  | FInf _ => Raise OverflowError
  | FNan => Raise ValueError
  | FNum neg m e =>
      do t <- trunc_double m e;
      Ok (if neg then - t else t)%Z
  end.

(** [int(num_polys) if num_polys and num_polys.isdigit()
     else (int(float(num_polys)) if num_polys else None)] *)
Definition to_polygon_count (num_polys : option str) : result (option Z) :=
  match num_polys with
  | Some ((_ :: _) as s) =>
      if isdigit s then
        do n <- int_of_str s; Ok (Some n)
      else
        do x <- float_of_str s;
        do n <- int_of_float x;
        Ok (Some n)
  | _ => Ok None
  end.

End Numeric.
Export Numeric.

(** ** parse_date *)

Module Dates.

Record date := mk_date { year : Z; month : Z; day : Z }.

Definition two_digits (a b : ascii) : Z := (10 * digit_val a + digit_val b)%Z.

Definition alt2 (pa pb : ascii -> bool) (s : str) : list (Z * str) :=
  match s with
  | a :: b :: r => if pa a && pb b then [(two_digits a b, r)] else []
  | _ => []
  end.

Definition alt1 (pa : ascii -> bool) (s : str) : list (Z * str) :=
  match s with
  | a :: r => if pa a then [(digit_val a, r)] else []
  | _ => []
  end.

Definition is_char (n : N) (c : ascii) : bool := (code c =? n)%N.
Definition in_range (lo hi : N) (c : ascii) : bool := between lo hi (code c).

(** The ways [%d] can match at the start of [s], in the order of its
    pattern [3[0-1]|[1-2]\d|0[1-9]|[1-9]| [1-9]]. *)
Definition day_alts (s : str) : list (Z * str) :=
  alt2 (is_char 51) (in_range 48 49) s
  ++ alt2 (in_range 49 50) is_ascii_digit s
  ++ alt2 (is_char 48) (in_range 49 57) s
  ++ alt1 (in_range 49 57) s
  ++ match s with
     | sp :: r => if is_char 32 sp then alt1 (in_range 49 57) r else []
     | [] => []
     end.

(** [%m]: [1[0-2]|0[1-9]|[1-9]]. *)
Definition month_alts (s : str) : list (Z * str) :=
  alt2 (is_char 49) (in_range 48 50) s
  ++ alt2 (is_char 48) (in_range 49 57) s
  ++ alt1 (in_range 49 57) s.

(** [%Y]: [\d\d\d\d]. *)
Definition year4 (s : str) : option (Z * str) :=
  match s with
  | a :: b :: c :: d :: r =>
      if forallb is_ascii_digit [a; b; c; d]
      then Some (digits_val [a; b; c; d], r) else None
  | _ => None
  end.

Definition expect (sep : ascii) (s : str) : option str :=
  match s with
  | c :: r => if eqc sep c then Some r else None
  | [] => None
  end.

(** The first alternative, in order, for which the rest of the pattern
    matches. *)
Fixpoint first_match {A B : Type} (f : A -> option B) (l : list A) : option B :=
  match l with
  | [] => None
  | a :: l' => match f a with Some b => Some b | None => first_match f l' end
  end.

(** The match of the pattern of ["%d<sep>%m<sep>%Y"] at the start of [s]:
    day, month, year and the text left over. *)
Definition match_format (sep : ascii) (s : str) : option (Z * Z * Z * str) :=
  first_match (fun '(d, r1) =>
    match expect sep r1 with
    | Some r2 =>
        first_match (fun '(m, r3) =>
          match expect sep r3 with
          | Some r4 =>
              match year4 r4 with
              | Some (y, r5) => Some (d, m, y, r5)
              | None => None
              end
          | None => None
          end) (month_alts r2)
    | None => None
    end) (day_alts s).

Definition is_leap (y : Z) : bool :=
  ((y mod 4 =? 0) && (negb (y mod 100 =? 0) || (y mod 400 =? 0)))%Z.

Definition days_in_month (y m : Z) : Z :=
  (if m =? 2 then (if is_leap y then 29 else 28)
   else if (m =? 4) || (m =? 6) || (m =? 9) || (m =? 11) then 30
   else 31)%Z.

(** [datetime.strptime(s, "%d<sep>%m<sep>%Y").date()]: text left over and
    a day or a year out of range are [ValueError]s. *)
Definition strptime (sep : ascii) (s : str) : result date :=
  match match_format sep s with
  | Some (d, m, y, []) =>
      if (1 <=? y)%Z && (d <=? days_in_month y m)%Z
      then Ok (mk_date y m d) else Raise ValueError
  | _ => Raise ValueError
  end.

Fixpoint try_formats (seps : list ascii) (s : str) : option date :=
  match seps with
  | [] => None
  | sep :: rest =>
      match strptime sep s with
      | Ok dt => Some dt
      | Raise _ => try_formats rest s
      end
  end.

Definition parse_date (date_str : str) : option date :=
  match date_str with
  | [] => None
  | _ => try_formats ["."%char; "/"%char; "-"%char] (strip date_str)
  end.

End Dates.
Export Dates.

(** ** The file system *)

Module FS.

(** What [zipfile] makes of the bytes of a file: the files found in the
    scratch directory after [extractall], or [BadZipFile], or another
    exception. *)
Inductive unzipped (A : Type) :=
  | Members (files : A)
  | NotAZip
  | Refused (z : zip_exn).
Arguments Members {A} files.
Arguments NotAZip {A}.
Arguments Refused {A} z.

(** A file, by what the importer can observe of its bytes: the text they
    decode to as UTF-8, when they do, and what [zipfile] makes of them:
    for a readable zip archive the files found in the scratch directory
    after [extractall], with their paths below it, in the order in which
    [rglob] yields them (a directory listing: no path occurs twice). *)
Inductive file :=
  | mk_file (text : option str) (unzip : unzipped (list (path * file))).

Definition text (f : file) : option str :=
  match f with mk_file t _ => t end.

Definition unzip (f : file) : unzipped (list (path * file)) :=
  match f with mk_file _ z => z end.

(** The extracted files of a readable archive. *)
Definition zip (f : file) : option (list (path * file)) :=
  match unzip f with
  | Members files => Some files
  | _ => None
  end.

Inductive node :=
  | File (f : file)
  | Dir (entries : list (str * node)).

Fixpoint lookup_entry (c : str) (es : list (str * node)) : option node :=
  match es with
  | [] => None
  | (k, v) :: es' => if str_eqb c k then Some v else lookup_entry c es'
  end.

(** The outcome of resolving a path: what is there, [ENOENT] or
    [ENOTDIR]. *)
Inductive stat_result :=
  | Found (n : node)
  | Missing
  | NotDir.

Fixpoint stat (p : path) (n : node) : stat_result :=
  match p with
  | [] => Found n
  | c :: p' =>
      match n with
      | Dir es =>
          match lookup_entry c es with
          | Some n' => stat p' n'
          | None => Missing
          end
      | File _ => NotDir
      end
  end.

(** [p.exists()] *)
Definition exists_ (p : path) (fs : node) : bool :=
  match stat p fs with Found _ => true | _ => false end.

(** [p.is_dir()] *)
Definition is_dir (p : path) (fs : node) : bool :=
  match stat p fs with Found (Dir _) => true | _ => false end.

(** [p.is_file()] *)
Definition is_file (p : path) (fs : node) : bool :=
  match stat p fs with Found (File _) => true | _ => false end.

(** The number of entries of the directory [d]. *)
Definition nentries (d : path) (fs : node) : nat :=
  match stat d fs with Found (Dir es) => length es | _ => 0 end.

(** Rewrite the entries of the directory at [d]. *)
Fixpoint update_dir (d : path) (g : list (str * node) -> list (str * node))
    (n : node) : node :=
  match n with
  | File _ => n
  | Dir es =>
      match d with
      | [] => Dir (g es)
      | c :: d' =>
          Dir (map (fun e => if str_eqb c (fst e)
                             then (fst e, update_dir d' g (snd e)) else e) es)
      end
  end.

Definition del_entry (c : str) (es : list (str * node)) : list (str * node) :=
  List.filter (fun e => negb (str_eqb c (fst e))) es.

Definition set_entry (c : str) (v : node) (es : list (str * node))
  : list (str * node) :=
  del_entry c es ++ [(c, v)].

Definition parent (p : path) : path := removelast p.

(** [os.mkdir(p)] *)
Definition os_mkdir (p : path) (fs : node) : result node :=
  match stat p fs with
  | Found _ => Raise FileExistsError
  | NotDir => Raise NotADirectoryError
  | Missing =>
      match stat (parent p) fs with
      | Found (Dir _) => Ok (update_dir (parent p) (set_entry (name p) (Dir [])) fs)
      | Found (File _) | NotDir => Raise NotADirectoryError
      | Missing => Raise FileNotFoundError
      end
  end.

(** [shutil.rmtree(p)] for a [p] other than the root. *)
Definition rmtree (p : path) (fs : node) : result node :=
  match p with
  | [] => Raise ShutilError
  | _ =>
      match stat p fs with
      | Found (Dir _) => Ok (update_dir (parent p) (del_entry (name p)) fs)
      | Found (File _) | NotDir => Raise NotADirectoryError
      | Missing => Raise FileNotFoundError
      end
  end.

(** What [os.rename] asks of the new place [real_dst] of a file: it is no
    directory, and it is in a directory. *)
Definition rename_check (real_dst : path) (fs : node) : result unit :=
  match stat real_dst fs with
  | Found (Dir _) => Raise IsADirectoryError
  | NotDir => Raise NotADirectoryError
  | _ =>
      match stat (parent real_dst) fs with
      | Found (Dir _) => Ok tt
      | Found (File _) | NotDir => Raise NotADirectoryError
      | Missing => Raise FileNotFoundError
      end
  end.

(** The entry that [os.rename] makes at [real_dst] for the file [f]; a
    file that was there is replaced. *)
Definition enter_file (f : file) (real_dst : path) (fs : node) : node :=
  update_dir (parent real_dst) (set_entry (name real_dst) (File f)) fs.

(** [os.rename] of a file [f] that comes from outside the tree. *)
Definition rename_to (f : file) (real_dst : path) (fs : node) : result node :=
  do _ <- rename_check real_dst fs;
  Ok (enter_file f real_dst fs).

(** Where [shutil.move] puts a source called [src_name] when asked for
    [dst]: inside [dst] when that is a directory, and then the place must
    be free. *)
Definition real_dst (src_name : str) (dst : path) (fs : node) : result path :=
  if is_dir dst fs then
    if exists_ (joinpath dst src_name) fs then Raise ShutilError
    else Ok (joinpath dst src_name)
  else Ok dst.

(** [shutil.move(src, dst)] for a file [f] that comes from the scratch
    directory. *)
Definition move_in (f : file) (src_name : str) (dst : path) (fs : node)
  : result node :=
  do rd <- real_dst src_name dst fs;
  rename_to f rd fs.

Fixpoint path_eqb (a b : path) : bool :=
  match a, b with
  | [], [] => true
  | x :: a', y :: b' => str_eqb x y && path_eqb a' b'
  | _, _ => false
  end.

(** [shutil.move(src, dst)] for a file [src] of the tree.  The importer
    moves files only; a directory as source is refused here. *)
Definition shutil_move (src dst : path) (fs : node) : result node :=
  match stat src fs with
  | Found (File f) =>
      do rd <- real_dst (name src) dst fs;
      if path_eqb src rd then Ok fs
      else
        do _ <- rename_check rd fs;
        Ok (enter_file f rd (update_dir (parent src) (del_entry (name src)) fs))
  | Found (Dir _) => Raise ShutilError
  | Missing => Raise FileNotFoundError
  | NotDir => Raise NotADirectoryError
  end.

Definition file_names (es : list (str * node)) : list str :=
  flat_map (fun e => match snd e with File _ => [fst e] | Dir _ => [] end) es.

Definition dir_names (es : list (str * node)) : list str :=
  flat_map (fun e => match snd e with Dir _ => [fst e] | File _ => [] end) es.

(** [os.walk]: the triples (root, dirs, files) of the directory [n] found
    at [root], top down. *)
Fixpoint walk (root : path) (n : node) : list (path * list str * list str) :=
  match n with
  | File _ => []
  | Dir es =>
      (root, dir_names es, file_names es) ::
      (fix below (l : list (str * node)) :=
         match l with
         | [] => []
         | e :: l' => walk (joinpath root (fst e)) (snd e) ++ below l'
         end) es
  end.

(** [os.walk(top)]; nothing when [top] is no directory. *)
Definition os_walk (top : path) (fs : node) : list (path * list str * list str) :=
  match stat top fs with
  | Found n => walk top n
  | _ => []
  end.

End FS.
Export FS.

(** ** State and exceptions *)

Module Run.

(** A computation on a state [S] that returns or raises. *)
Definition M (S A : Type) : Type := S -> result A * S.

Definition ret {S A} (a : A) : M S A := fun s => (Ok a, s).
Definition raise {S A} (e : exn) : M S A := fun s => (Raise e, s).

Definition bind {S A B} (m : M S A) (k : A -> M S B) : M S B :=
  fun s =>
    match m s with
    | (Ok a, s') => k a s'
    | (Raise e, s') => (Raise e, s')
    end.

(** [try: m  except Exception as e: h e] *)
Definition try_except {S A} (m : M S A) (h : exn -> M S A) : M S A :=
  fun s =>
    match m s with
    | (Ok a, s') => (Ok a, s')
    | (Raise e, s') => h e s'
    end.

(** A step that changes the state or raises and leaves it as it was. *)
Definition step {S} (f : S -> result S) : M S unit :=
  fun s =>
    match f s with
    | Ok s' => (Ok tt, s')
    | Raise e => (Raise e, s)
    end.

Definition read {S A} (f : S -> A) : M S A := fun s => (Ok (f s), s).

Definition lift {S A} (r : result A) : M S A := fun s => (r, s).

End Run.
Export Run.

Notation "'let!' x ':=' m 'in' k" := (bind m (fun x => k))
  (at level 10, x name, m at level 100, k at level 200, only parsing).

(** ** The importer *)

Module Importer.

(** Allowed geometry extensions. *)
Definition GEOM_EXTS : list str :=
  [lit ".obj"; lit ".fbx"; lit ".gltf"; lit ".3ds"].

Definition mem (s : str) (l : list str) : bool := existsb (str_eqb s) l.

(** A Python value used as a condition: [None] and [""] are false. *)
Definition truthy (o : option str) : bool :=
  match o with
  | Some (_ :: _) => true
  | _ => false
  end.

(** [f"{i}"] *)
Definition str_of_nat (i : nat) : str := lit (pretty i).

(** [Path(s)] for a string: the segments between slashes, without the
    empty ones and the dots. *)
Fixpoint split_slash (cur : str) (s : str) : list str :=
  match s with
  | [] => [rev cur]
  | c :: s' =>
      if eqc "/"%char c then rev cur :: split_slash [] s'
      else split_slash (c :: cur) s'
  end.

Definition path_of_str (s : str) : path :=
  List.filter (fun seg => negb (str_eqb seg []) && negb (str_eqb seg (lit ".")))
    (split_slash [] s).

(** [try_open(path)]: every failure to open, read or decode is swallowed
    by [except Exception: pass]; then [UnicodeDecodeError] is called with
    two arguments instead of its five, which is a [TypeError]. *)
Definition try_open (f : file) : result str :=
  match text f with
  | Some content => Ok content
  | None => Raise TypeError
  end.

Definition find_preview_file (files : list path) : option path :=
  let lower := map (fun f => (f, lower (suffix f))) files in
  match List.find (fun fe => mem (snd fe) [lit ".jpg"; lit ".jpeg"]) lower with
  | Some fe => Some (fst fe)
  | None =>
      match List.find (fun fe => str_eqb (snd fe) (lit ".png")) lower with
      | Some fe => Some (fst fe)
      | None => None
      end
  end.

Definition find_geometry_file (files : list path) : option path :=
  List.find (fun f => mem (lower (suffix f)) GEOM_EXTS) files.

(** [while candidate.exists(): candidate = next(i); i += 1], for
    candidates that are entries of one directory.  Each round finds one
    more entry of that directory, so [fuel], its number of entries, is
    never used up. *)
Fixpoint first_free (fuel : nat) (fs : node) (candidate : path)
    (next : nat -> path) (i : nat) : path :=
  if exists_ candidate fs then
    match fuel with
    | O => candidate
    | S fuel' => first_free fuel' fs (next i) next (S i)
    end
  else candidate.

Definition ensure_unique_dir (base_out_dir : path) (desired_name : str)
    (fs : node) : path :=
  first_free (nentries base_out_dir fs) fs
    (joinpath base_out_dir desired_name)
    (fun i => joinpath base_out_dir (desired_name ++ lit "_" ++ str_of_nat i))
    1.

(** [os.mkdir] as [Path.mkdir] wraps it, without [parents]. *)
Definition mkdir_here (p : path) (exist_ok : bool) : M node unit :=
  fun fs =>
    match os_mkdir p fs with
    | Ok fs' => (Ok tt, fs')
    | Raise FileNotFoundError => (Raise FileNotFoundError, fs)
    | Raise e => if exist_ok && is_dir p fs then (Ok tt, fs) else (Raise e, fs)
    end.

(** [Path.mkdir(parents=True, exist_ok)]; [rp] is the path, reversed. *)
Fixpoint mkdir_parents (rp : list str) (exist_ok : bool) : M node unit :=
  fun fs =>
    match os_mkdir (rev rp) fs with
    | Ok fs' => (Ok tt, fs')
    | Raise FileNotFoundError =>
        match rp with
        | [] => (Raise FileNotFoundError, fs)
        | _ :: rparent =>
            (let! _ := mkdir_parents rparent true in mkdir_here (rev rp) exist_ok) fs
        end
    | Raise e =>
        if exist_ok && is_dir (rev rp) fs then (Ok tt, fs) else (Raise e, fs)
    end.

(** [p.mkdir(parents=..., exist_ok=...)] *)
Definition mkdir (p : path) (parents exist_ok : bool) : M node unit :=
  if parents then mkdir_parents (rev p) exist_ok else mkdir_here p exist_ok.

(** [tempfile.TemporaryDirectory(dir=tmp_base)]: the scratch directory is
    new, private to one call and removed when the [with] block is left, so
    only its need for a directory [tmp_base] shows in the tree. *)
Definition temporary_directory (tmp_base : path) : M node unit :=
  fun fs =>
    match stat tmp_base fs with
    | Found (Dir _) => (Ok tt, fs)
    | Found (File _) | NotDir => (Raise NotADirectoryError, fs)
    | Missing => (Raise FileNotFoundError, fs)
    end.

(** [zipfile.ZipFile(zip_path).extractall(tmpdir)] and the listing of the
    extracted files (lines 152-159); [BadZipFile] becomes a
    [RuntimeError], every other exception of [zipfile] is not caught. *)
Definition extract (zip_path : path) : M node (list (path * file)) :=
  fun fs =>
    match stat zip_path fs with
    | Found (File f) =>
        match unzip f with
        | Members files => (Ok files, fs)
        | NotAZip => (Raise (RuntimeError BadZipFile), fs)
        | Refused z => (Raise (exn_of_zip z), fs)
        end
    | Found (Dir _) => (Raise IsADirectoryError, fs)
    | Missing => (Raise FileNotFoundError, fs)
    | NotDir => (Raise NotADirectoryError, fs)
    end.

Definition is_txt (p : path) : bool := str_eqb (lower (suffix p)) (lit ".txt").

(** The metadata file: the [.txt] file named like the archive, else the
    first [.txt] file. *)
Definition select_metadata (zip_path : path) (extracted_files : list (path * file))
  : option (path * file) :=
  let txt_files := List.filter (fun pf => is_txt (fst pf)) extracted_files in
  match txt_files with
  | [] => None
  | first :: _ =>
      match List.find (fun pf => str_eqb (lower (stem (fst pf)))
                                         (lower (stem zip_path))) txt_files with
      | Some pf => Some pf
      | None => Some first
      end
  end.

Definition find_named (file_name : str) (files : list path) : option path :=
  List.find (fun p => str_eqb (name p) file_name) files.

(** The geometry file: the file called as the hint says, else the first
    file with a geometry extension. *)
Definition resolve_geometry (geom_file_name : option str) (files : list path)
  : option path :=
  match (if truthy geom_file_name
         then find_named (default [] geom_file_name) files else None) with
  | Some p => Some p
  | None => find_geometry_file files
  end.

(** The preview file: the file called as the hint says, else what
    [find_preview_file] picks. *)
Definition resolve_preview (preview_hint : option str) (files : list path)
  : option path :=
  match (if truthy preview_hint
         then find_named (default [] preview_hint) files else None) with
  | Some p => Some p
  | None => find_preview_file files
  end.

(** The name the model directory is derived from. *)
Definition model_base (geom_file_name description : option str) (zip_path : path)
  : str :=
  let base := if truthy geom_file_name
              then stem (path_of_str (default [] geom_file_name))
              else stem zip_path in
  match strip base with
  | [] => if truthy description then default [] description else stem zip_path
  | _ => base
  end.

(** The destination name of one file; [None + str] is a [TypeError]. *)
Definition dest_name_of (src : path) : result str :=
  match slugify (stem src) with
  | Some s => Ok (s ++ lower (suffix src))
  | None => Raise TypeError
  end.

(** One round of the loop that moves the extracted files. *)
Definition move_one (target_dir preview_path : path)
    (moved_preview_name : option str) (sf : path * file) : M node (option str) :=
  let src := fst sf in
  let! dest_name := lift (dest_name_of src) in
  let! dest_path := read (fun fs =>
    first_free (nentries target_dir fs) fs
      (joinpath target_dir dest_name)
      (fun k => joinpath target_dir
                  (rsplit1_head "."%char dest_name ++ lit "_" ++ str_of_nat k
                   ++ lower (suffix src)))
      1) in
  let! _ := step (move_in (snd sf) (name src) dest_path) in
  ret (if path_eqb src preview_path || str_eqb (name src) (name preview_path)
       then Some (name dest_path) else moved_preview_name).

Fixpoint move_all (target_dir preview_path : path)
    (moved_preview_name : option str) (files : list (path * file))
  : M node (option str) :=
  match files with
  | [] => ret moved_preview_name
  | sf :: rest =>
      let! moved := move_one target_dir preview_path moved_preview_name sf in
      move_all target_dir preview_path moved rest
  end.

(** [try: if target_dir.exists(): shutil.rmtree(target_dir)
     except Exception: ...] *)
Definition remove_partial (target_dir : path) : M node unit :=
  fun fs =>
    if exists_ target_dir fs then
      match rmtree target_dir fs with
      | Ok fs' => (Ok tt, fs')
      | Raise _ => (Ok tt, fs)
      end
    else (Ok tt, fs).

Record model_data := {
  model_name : str;
  format : str;
  source_url : option str;
  download_date : option date;
  created_by : option str;
  created_in : option str;
  uploaded_by : option str;
  model_description : option str;
  polygon_count : option Z;
  preview_file : str
}.

Section Engine.

(** [str.upper], whose results leave the range of the characters of the
    model. *)
Variable upper : str -> str.

(** The PostgreSQL server behind [database_manager]: its state, the
    schema script of [init_database] and the [INSERT ... RETURNING
    model_id] of [insert_model], each run in a transaction of its own. *)
Variable db : Type.
Variable run_schema : M db unit.
Variable run_insert : model_data -> M db Z.

Definition field (parsed : gmap str str) (key : string) : option str :=
  parsed !! lit key.

(** The record for the store (lines 270-282). *)
Definition build_model_data (parsed : gmap str str) (target_dir geometry_path : path)
    (moved_preview_name : str) : result model_data :=
  let download_format := field parsed "DownloadModelFormat" in
  let date_of_download := field parsed "DateOfDownload" in
  do polys <- to_polygon_count (field parsed "NumberOfPolygons");
  Ok {| model_name := name target_dir;
        format := upper (if truthy download_format
                         then default [] download_format
                         else dropwhile (eqc "."%char) (suffix geometry_path));
        source_url := field parsed "DownloadedFromURL";
        download_date := if truthy date_of_download
                         then parse_date (default [] date_of_download)
                         else None;
        created_by := field parsed "CreatedBy";
        created_in := field parsed "CreatedIn";
        uploaded_by := field parsed "UploadedBy";
        model_description := field parsed "Description";
        polygon_count := polys;
        preview_file := moved_preview_name |}.

(** Relocation (lines 245-293): move every extracted file into
    [target_dir], check that the preview was among them, build the
    record; on any exception remove [target_dir] and raise again. *)
Definition relocate (parsed : gmap str str) (target_dir geometry_path preview_path : path)
    (extracted_files : list (path * file)) : M node (path * model_data) :=
  try_except
    (let! moved := move_all target_dir preview_path None extracted_files in
     match moved with
     | Some ((_ :: _) as moved_preview_name) =>
         let! md := lift (build_model_data parsed target_dir geometry_path
                       moved_preview_name) in
         ret (target_dir, md)
     | _ => raise (RuntimeError PreviewLost)
     end)
    (fun e => let! _ := remove_partial target_dir in raise e).

(** Lines 150-181: unpack the archive and read its metadata.  Leaving the
    [with] block removes the scratch directory on every way out. *)
Definition unpack (zip_path tmp_base : path)
  : M node (list (path * file) * gmap str str) :=
  let! _ := temporary_directory tmp_base in
  let! extracted_files := extract zip_path in
  match extracted_files with
  | [] => raise (RuntimeError NoFilesFound)
  | _ =>
      match select_metadata zip_path extracted_files with
      | None => raise (RuntimeError NoMetadata)
      | Some metadata_file =>
          let! text := lift (try_open (snd metadata_file)) in
          let! parsed := lift (parse_metadata_from_text text) in
          ret (extracted_files, parsed)
      end
  end.

(** Lines 183-293: pick the geometry and the preview, name and create
    the model directory, relocate the files. *)
Definition settle (zip_path final_base_dir : path)
    (extracted_files : list (path * file)) (parsed : gmap str str)
  : M node (path * model_data) :=
  let geom_file_name := field parsed "GeometryFile" in
  let preview_hint := field parsed "PreviewFile" in
  let description := field parsed "Description" in
  let files := map fst extracted_files in
  match resolve_geometry geom_file_name files with
  | None => raise (RuntimeError NoGeometry)
  | Some geometry_path =>
      match resolve_preview preview_hint files with
      | None => raise (RuntimeError NoPreview)
      | Some preview_path =>
          match slugify (model_base geom_file_name description zip_path) with
          | None => raise TypeError
          | Some model_name_safe =>
              let! target_dir := read (ensure_unique_dir final_base_dir
                                         model_name_safe) in
              let! _ := mkdir target_dir true false in
              relocate parsed target_dir geometry_path preview_path
                extracted_files
          end
      end
  end.

Definition process_one_zip (zip_path final_base_dir tmp_base : path)
  : M node (path * model_data) :=
  let! unpacked := unpack zip_path tmp_base in
  settle zip_path final_base_dir (fst unpacked) (snd unpacked).

(** [init_database()] *)
Definition init_database : M db unit := run_schema.

(** [insert_model(model_data)] *)
Definition insert_model (md : model_data) : M db Z :=
  match model_name md, preview_file md with
  | _ :: _, _ :: _ => run_insert md
  | _, _ => raise ValueError
  end.

Record world := { fs : node; store : db }.

Definition on_fs {A} (m : M node A) : M world A :=
  fun w => let '(r, fs') := m (fs w) in (r, {| fs := fs'; store := store w |}).

Definition on_store {A} (m : M db A) : M world A :=
  fun w => let '(r, db') := m (store w) in (r, {| fs := fs w; store := db' |}).

(** The archives of the batch (lines 308-312). *)
Definition discover (input_dir : path) (fs : node) : list path :=
  flat_map (fun t : path * list str * list str =>
              map (joinpath (fst (fst t)))
                  (List.filter (fun f => endswith (lit ".zip") (lower f)) (snd t)))
           (os_walk input_dir fs).

(** The [except Exception] branch of the loop (lines 340-350). *)
Definition route_failed (input_dir zp : path) : M world unit :=
  let failed_dir := joinpath input_dir (lit "_failed") in
  let! _ := on_fs (mkdir failed_dir false true) in
  try_except (on_fs (step (shutil_move zp (joinpath failed_dir (name zp)))))
             (fun mv_exc => ret tt).

(** The body of the loop (lines 317-350); [continue] is the [false] of
    the inner handler. *)
Definition process_zip (input_dir final_base_dir tmp_base zp : path) : M world unit :=
  try_except
    (let! tm := on_fs (process_one_zip zp final_base_dir tmp_base) in
     let! inserted := try_except
                   (let! _ := on_store (insert_model (snd tm)) in ret true)
                   (fun db_exc => let! _ := on_fs (remove_partial (fst tm)) in
                                  ret false) in
     if inserted : bool then
       let processed_dir := joinpath input_dir (lit "_processed") in
       let! _ := on_fs (mkdir processed_dir false true) in
       on_fs (step (shutil_move zp (joinpath processed_dir (name zp))))
     else ret tt)
    (fun exc => route_failed input_dir zp).

Fixpoint for_each {S A} (body : A -> M S unit) (l : list A) : M S unit :=
  match l with
  | [] => ret tt
  | a :: l' => let! _ := body a in for_each body l'
  end.

Definition process_all_zips (input_dir final_base_dir tmp_base : path)
  : M world unit :=
  let! _ := on_store init_database in
  let! _ := on_fs (mkdir final_base_dir true true) in
  let! _ := on_fs (mkdir tmp_base true true) in
  let! zip_paths := read (fun w => discover input_dir (fs w)) in
  for_each (process_zip input_dir final_base_dir tmp_base) zip_paths.

End Engine.

Arguments fs {db} w.
Arguments store {db} w.
Arguments Build_world {db} fs store.

End Importer.
Export Importer.

(** * Properties *)

(** ** Strings *)

Section StringFacts.

Lemma eqc_eq (a b : ascii) : eqc a b = true <-> a = b.
Proof. unfold eqc. apply Ascii.eqb_eq. Qed.

Lemma eqc_refl (a : ascii) : eqc a a = true.
Proof. apply eqc_eq. reflexivity. Qed.

Lemma eqc_neq (a b : ascii) : eqc a b = false <-> a <> b.
Proof. unfold eqc. apply Ascii.eqb_neq. Qed.

Lemma str_eqb_eq (a b : str) : str_eqb a b = true <-> a = b.
Proof.
  revert b. induction a as [|x a IH]; intros [|y b]; simpl; split;
    try congruence; try reflexivity.
  - intros H. apply andb_true_iff in H as [H1 H2].
    apply eqc_eq in H1. apply IH in H2. congruence.
  - intros H. injection H as -> ->. rewrite eqc_refl. simpl. now apply IH.
Qed.

Lemma str_eqb_refl (a : str) : str_eqb a a = true.
Proof. now apply str_eqb_eq. Qed.

Lemma str_eqb_neq (a b : str) : str_eqb a b = false <-> a <> b.
Proof.
  split.
  - intros H E. apply str_eqb_eq in E. congruence.
  - intros H. destruct (str_eqb a b) eqn:E; [|reflexivity].
    apply str_eqb_eq in E. contradiction.
Qed.

Lemma path_eqb_eq (a b : path) : path_eqb a b = true <-> a = b.
Proof.
  revert b. induction a as [|x a IH]; intros [|y b]; simpl; split;
    try congruence; try reflexivity.
  - intros H. apply andb_true_iff in H as [H1 H2].
    apply str_eqb_eq in H1. apply IH in H2. congruence.
  - intros H. injection H as -> ->. rewrite str_eqb_refl. simpl. now apply IH.
Qed.

Lemma In_dropwhile p (s : str) c : In c (dropwhile p s) -> In c s.
Proof.
  induction s as [|x s IH]; simpl; [tauto|].
  destruct (p x); simpl; tauto.
Qed.

Lemma In_takewhile p (s : str) c : In c (takewhile p s) -> In c s.
Proof.
  induction s as [|x s IH]; simpl; [tauto|].
  destruct (p x); simpl; tauto.
Qed.

Lemma takewhile_dropwhile p (s : str) : takewhile p s ++ dropwhile p s = s.
Proof.
  induction s as [|x s IH]; simpl; [reflexivity|].
  destruct (p x); simpl; congruence.
Qed.

Lemma In_strip (s : str) c : In c (strip s) -> In c s.
Proof.
  unfold strip, lstrip, rstrip. intros H.
  apply In_dropwhile in H. apply in_rev in H.
  apply In_dropwhile in H. now apply in_rev.
Qed.

End StringFacts.

(** ** slugify *)

Section SlugFacts.

Lemma In_match_ext_rev (r p : str) c :
  match_ext_rev r = Some p -> In c p -> In c r.
Proof.
  unfold match_ext_rev. intros H Hc.
  destruct (dropwhile is_alnum r) as [|dot q] eqn:E; [discriminate|].
  destruct (_ && _); [|discriminate]. injection H as ->.
  apply (In_dropwhile is_alnum). rewrite E. now right.
Qed.

Lemma In_strip_ext (s : str) c : In c (strip_ext s) -> In c s.
Proof.
  unfold strip_ext.
  destruct (match_ext_rev (rev s)) as [p|] eqn:E.
  - intros H. apply in_rev. apply (In_match_ext_rev _ _ _ E). now apply in_rev.
  - destruct (rev s) as [|nl r'] eqn:Er; [tauto|].
    destruct (code nl =? 10)%N; [|tauto].
    destruct (match_ext_rev r') as [p|] eqn:E'; [|tauto].
    intros H. apply in_rev. rewrite Er. apply in_app_or in H as [H|H].
    + right. apply (In_match_ext_rev _ _ _ E'). now apply in_rev.
    + left. destruct H as [H|[]]. exact H.
Qed.

(** A character that is neither of the class nor a space. *)
Definition rejected (c : ascii) : Prop :=
  is_slug_char c = false /\ c <> " "%char.

Lemma filter_rejected (s : str) :
  Forall rejected s ->
  List.filter is_slug_char (replace_char " "%char "_"%char (strip_ext (strip s))) = [].
Proof.
  intros H.
  assert (Hall : forall c, In c (strip_ext (strip s)) -> rejected c).
  { intros c Hc. apply In_strip_ext, In_strip in Hc.
    rewrite List.Forall_forall in H. now apply H. }
  unfold replace_char.
  induction (strip_ext (strip s)) as [|x t IH]; simpl; [reflexivity|].
  destruct (Hall x (or_introl eq_refl)) as [Hx Hsp].
  destruct (eqc " " x) eqn:E.
  - apply eqc_eq in E. congruence.
  - rewrite Hx. apply IH. intros c Hc. apply Hall. now right.
Qed.

Lemma firstn_nonempty {A} n (l : list A) : l <> [] -> firstn (S n) l <> [].
Proof. destruct l; simpl; congruence. Qed.

Lemma In_firstn {A} n (l : list A) x : In x (firstn n l) -> In x l.
Proof.
  intros H. rewrite <- (firstn_skipn n l). apply in_or_app. now left.
Qed.

Lemma Forall_slug_filter (s : str) :
  Forall (fun c => is_slug_char c = true) (List.filter is_slug_char s).
Proof.
  apply List.Forall_forall. intros c Hc. apply filter_In in Hc. tauto.
Qed.

Lemma slugify_chars (x s : str) :
  slugify x = Some s -> Forall (fun c => is_slug_char c = true) s.
Proof.
  destruct x as [|c0 x0]; [discriminate|]. unfold slugify.
  set (kept := List.filter is_slug_char _).
  assert (Hkept : Forall (fun c => is_slug_char c = true) kept)
    by apply Forall_slug_filter.
  intros [= <-]. destruct kept as [|k kept'].
  - repeat constructor.
  - apply List.Forall_forall. intros c Hc.
    rewrite List.Forall_forall in Hkept. apply Hkept.
    apply (In_firstn 150). exact Hc.
Qed.

(** C5, amended. [slugify] returns [None] for the empty string and for no
    other; for every other string it returns a string of characters of
    [[A-Za-z0-9_-]], at most 150 of them and at least one, which is
    ["model"] when no character of the input is of that class or a
    space. *)
Theorem slugify_spec (s : str) :
  match slugify s with
  | None => s = []
  | Some r =>
      s <> [] /\
      Forall (fun c => is_slug_char c = true) r /\
      (length r <= 150)%nat /\
      r <> [] /\
      (Forall rejected s -> r = lit "model")
  end.
Proof.
  destruct s as [|c0 s0]; [reflexivity|].
  unfold slugify. split; [discriminate|].
  set (s := c0 :: s0).
  set (kept := List.filter is_slug_char
                 (replace_char " "%char "_"%char (strip_ext (strip s)))).
  assert (Hkept : Forall (fun c => is_slug_char c = true) kept)
    by apply Forall_slug_filter.
  destruct kept as [|k kept'] eqn:Ek.
  - repeat split.
    + repeat constructor.
    + simpl. lia.
    + discriminate.
  - split; [|split; [|split]].
    + apply List.Forall_forall. intros c Hc.
      rewrite List.Forall_forall in Hkept. apply Hkept.
      apply (In_firstn 150). exact Hc.
    + apply firstn_le_length.
    + apply firstn_nonempty. discriminate.
    + intros Hrej. exfalso.
      pose proof (filter_rejected s Hrej) as Hnil.
      fold kept in Hnil. congruence.
Qed.

(** C5, as stated, fails at the empty string: [slugify("")] is [None],
    neither a non-empty string nor ["model"]. *)
Lemma slugify_empty_is_none :
  slugify (lit "") = None /\
  ~ (exists r, slugify (lit "") = Some r /\ r <> [] /\ r = lit "model").
Proof.
  split; [reflexivity|].
  intros [r [H _]]. discriminate H.
Qed.

Example slugify_examples :
  slugify (lit "My Model.obj") = Some (lit "My_Model") /\
  slugify (lit "   ") = Some (lit "model") /\
  slugify (lit "!!!") = Some (lit "model") /\
  slugify (lit "! !") = Some (lit "_") /\
  slugify (lit "a.b.c") = Some (lit "ab").
Proof. repeat split; reflexivity. Qed.

End SlugFacts.

(** ** The preview file *)

Section PreviewFacts.

(** [p] is the first element of [l] for which [f] holds. *)
Definition first_such {A} (f : A -> bool) (l : list A) (p : A) : Prop :=
  exists l1 l2,
    l = l1 ++ p :: l2 /\ f p = true /\ Forall (fun q => f q = false) l1.

Lemma find_first_such {A} (f : A -> bool) (l : list A) (p : A) :
  List.find f l = Some p -> first_such f l p.
Proof.
  induction l as [|x l IH]; simpl; [discriminate|].
  destruct (f x) eqn:E.
  - intros [= ->]. exists [], l. repeat split; auto.
  - intros H. destruct (IH H) as (l1 & l2 & -> & Hp & Hall).
    exists (x :: l1), l2. repeat split; auto.
Qed.

Lemma find_exists {A} (f : A -> bool) (l : list A) :
  Exists (fun q => f q = true) l -> exists p, List.find f l = Some p.
Proof.
  induction 1 as [x l Hx | x l _ IH]; simpl.
  - rewrite Hx. eauto.
  - destruct (f x); eauto.
Qed.

Lemma find_none_all {A} (f : A -> bool) (l : list A) :
  Forall (fun q => f q = false) l -> List.find f l = None.
Proof.
  induction 1 as [|x l Hx _ IH]; simpl; [reflexivity|]. now rewrite Hx.
Qed.

Lemma find_pairs {A B} (h : A -> B) (g : B -> bool) (l : list A) :
  List.find (fun fe => g (snd fe)) (map (fun f => (f, h f)) l)
  = option_map (fun f => (f, h f)) (List.find (fun f => g (h f)) l).
Proof.
  induction l as [|x l IH]; simpl; [reflexivity|].
  destruct (g (h x)); [reflexivity | exact IH].
Qed.

(** The file has a JPEG extension, in any case of letters. *)
Definition is_jpeg (p : path) : bool :=
  mem (lower (suffix p)) [lit ".jpg"; lit ".jpeg"].

Definition is_png (p : path) : bool := str_eqb (lower (suffix p)) (lit ".png").

Definition named (h : str) (p : path) : bool := str_eqb (name p) h.

Lemma find_preview_file_eq (files : list path) :
  find_preview_file files =
  match List.find is_jpeg files with
  | Some p => Some p
  | None => List.find is_png files
  end.
Proof.
  unfold find_preview_file.
  rewrite (find_pairs (fun f => lower (suffix f))
             (fun e => mem e [lit ".jpg"; lit ".jpeg"])).
  rewrite (find_pairs (fun f => lower (suffix f))
             (fun e => str_eqb e (lit ".png"))).
  fold is_jpeg.
  change (fun f : path => str_eqb (lower (suffix f)) (lit ".png")) with is_png.
  change (fun f : path => mem (lower (suffix f)) [lit ".jpg"; lit ".jpeg"])
    with is_jpeg.
  destruct (List.find is_jpeg files); simpl; [reflexivity|].
  destruct (List.find is_png files); reflexivity.
Qed.

(** The fallback prefers a JPEG file wherever it stands in the list. *)
Lemma find_preview_file_spec (files : list path) :
  (Exists (fun q => is_jpeg q = true) files ->
     exists p, find_preview_file files = Some p /\ first_such is_jpeg files p) /\
  (Forall (fun q => is_jpeg q = false) files ->
   Exists (fun q => is_png q = true) files ->
     exists p, find_preview_file files = Some p /\ first_such is_png files p) /\
  (Forall (fun q => is_jpeg q = false) files ->
   Forall (fun q => is_png q = false) files ->
     find_preview_file files = None).
Proof.
  rewrite find_preview_file_eq. repeat split.
  - intros H. destruct (find_exists _ _ H) as [p Hp]. rewrite Hp.
    exists p. split; [reflexivity | now apply find_first_such].
  - intros Hj H. rewrite (find_none_all _ _ Hj).
    destruct (find_exists _ _ H) as [p Hp]. rewrite Hp.
    exists p. split; [reflexivity | now apply find_first_such].
  - intros Hj Hp. now rewrite (find_none_all _ _ Hj), (find_none_all _ _ Hp).
Qed.

Variable upper : str -> str.

(** C6. With a hint that is the name of an extracted file, the preview is
    the first file of that name. Otherwise it is the first file with a
    JPEG extension if there is one, wherever PNG files stand in the list,
    else the first [.png] file; and when there is neither, an archive that
    got as far as a geometry file fails with "No preview image found". *)
Theorem preview_resolution (preview_hint : option str) (files : list path) :
  (forall h, preview_hint = Some h -> h <> [] ->
     Exists (fun q => named h q = true) files ->
     exists p, resolve_preview preview_hint files = Some p /\
               first_such (named h) files p) /\
  ((truthy preview_hint = false \/
    Forall (fun q => named (default [] preview_hint) q = false) files) ->
   resolve_preview preview_hint files = find_preview_file files /\
   (Exists (fun q => is_jpeg q = true) files ->
      exists p, resolve_preview preview_hint files = Some p /\
                first_such is_jpeg files p) /\
   (Forall (fun q => is_jpeg q = false) files ->
    Exists (fun q => is_png q = true) files ->
      exists p, resolve_preview preview_hint files = Some p /\
                first_such is_png files p) /\
   (Forall (fun q => is_jpeg q = false) files ->
    Forall (fun q => is_png q = false) files ->
      resolve_preview preview_hint files = None)) /\
  (forall zip_path final_base_dir extracted_files parsed geometry_path fs,
     files = map fst extracted_files ->
     preview_hint = field parsed "PreviewFile" ->
     resolve_geometry (field parsed "GeometryFile") files = Some geometry_path ->
     resolve_preview preview_hint files = None ->
     settle upper zip_path final_base_dir extracted_files parsed fs
     = (Raise (RuntimeError NoPreview), fs)).
Proof.
  split; [|split].
  - intros h -> Hh Hex. unfold resolve_preview.
    assert (Ht : truthy (Some h) = true) by (destruct h; [congruence | reflexivity]).
    rewrite Ht. simpl default. unfold find_named. fold (named h).
    destruct (find_exists _ _ Hex) as [p Hp]. rewrite Hp.
    exists p. split; [reflexivity | now apply find_first_such].
  - intros Hno.
    assert (E : resolve_preview preview_hint files = find_preview_file files).
    { unfold resolve_preview. destruct (truthy preview_hint) eqn:Ht; [|reflexivity].
      destruct Hno as [Hno|Hno]; [discriminate|].
      unfold find_named. fold (named (default [] preview_hint)).
      now rewrite (find_none_all _ _ Hno). }
    rewrite E. split; [reflexivity|]. apply find_preview_file_spec.
  - intros zip_path final_base_dir extracted_files parsed geometry_path fs
      -> -> Hg Hp.
    unfold settle. cbv zeta. rewrite Hg, Hp. reflexivity.
Qed.

(** A PNG file before a JPEG file, and no hint: the JPEG file is taken. *)
Example preview_prefers_jpeg :
  resolve_preview None [[lit "a.png"]; [lit "b.JPG"]; [lit "c.jpeg"]]
  = Some [lit "b.JPG"].
Proof. reflexivity. Qed.

End PreviewFacts.

(** ** The metadata parser *)

Section MetadataFacts.

Definition not_colon (c : ascii) : bool := negb (eqc ":"%char c).

Lemma split1_spec ch (s : str) :
  split1 ch s =
  (takewhile (fun c => negb (eqc ch c)) s,
   if contains ch s
   then Some (tl (dropwhile (fun c => negb (eqc ch c)) s)) else None).
Proof.
  induction s as [|x s IH]; simpl; [reflexivity|].
  unfold contains in *. simpl.
  destruct (eqc ch x) eqn:E; simpl; [reflexivity|].
  rewrite IH. reflexivity.
Qed.

(** What the spec says a metadata line is: after trimming it is not
    empty, begins with the marker and contains a colon. *)
Definition spec_qualifies (raw_line : str) : bool :=
  let line := strip raw_line in
  negb (str_eqb line []) && startswith "#"%char line && contains ":"%char line.

(** The pair of such a line: the text after the marker, cut at its first
    colon, both parts trimmed. *)
Definition spec_key_value (raw_line : str) : str * str :=
  let remainder := tl (strip raw_line) in
  (strip (takewhile not_colon remainder),
   strip (tl (dropwhile not_colon remainder))).

Definition spec_pairs (text : str) : list (str * str) :=
  map spec_key_value (List.filter spec_qualifies (splitlines text)).

Definition put (m : gmap str str) (kv : str * str) : gmap str str :=
  <[kv.1 := kv.2]> m.

(** The mapping of the spec: the pairs of the qualifying lines, entered
    in the order of the lines. *)
Definition spec_metadata_map (text : str) : gmap str str :=
  foldl put ∅ (spec_pairs text).

Lemma contains_tl_hash (line : str) :
  startswith "#"%char line = true ->
  contains ":"%char (tl line) = contains ":"%char line.
Proof.
  destruct line as [|c l]; simpl; [discriminate|].
  intros H. apply eqc_eq in H. subst c. reflexivity.
Qed.

Lemma parse_line_spec (data : gmap str str) (raw_line : str) :
  parse_line data raw_line =
  Ok (if spec_qualifies raw_line then put data (spec_key_value raw_line) else data).
Proof.
  unfold parse_line, spec_qualifies, spec_key_value. cbv zeta.
  destruct (strip raw_line) as [|c l] eqn:E; [reflexivity|].
  change (str_eqb (c :: l) []) with false. cbn [negb andb].
  destruct (startswith "#"%char (c :: l)) eqn:Hs; cbn [negb andb]; [|reflexivity].
  destruct (contains ":"%char (c :: l)) eqn:Hc; cbn [negb]; [|reflexivity].
  rewrite split1_spec.
  rewrite (contains_tl_hash _ Hs), Hc. reflexivity.
Qed.

Lemma parse_lines_spec (lines : list str) (data : gmap str str) :
  parse_lines data lines =
  Ok (foldl put data (map spec_key_value (List.filter spec_qualifies lines))).
Proof.
  revert data. induction lines as [|l lines IH]; intros data; [reflexivity|].
  cbn [parse_lines]. rewrite parse_line_spec.
  cbn [List.filter]. destruct (spec_qualifies l); cbn; apply IH.
Qed.

(** The value of the last pair with key [k]. *)
Definition last_value (k : str) (pairs : list (str * str)) : option str :=
  option_map snd (List.find (fun kv => str_eqb (fst kv) k) (rev pairs)).

Lemma foldl_put_app (m : gmap str str) (l1 l2 : list (str * str)) :
  foldl put m (l1 ++ l2) = foldl put (foldl put m l1) l2.
Proof. apply foldl_app. Qed.

Lemma foldl_put_last (pairs : list (str * str)) (k : str) :
  foldl put ∅ pairs !! k = last_value k pairs.
Proof.
  unfold last_value.
  induction pairs as [|[a b] pairs IH] using rev_ind; [reflexivity|].
  rewrite foldl_put_app, rev_app_distr. cbn [foldl rev app List.find fst].
  unfold put at 1. cbn [fst snd].
  destruct (str_eqb a k) eqn:E.
  - apply str_eqb_eq in E. subst a. cbn. apply lookup_insert_eq.
  - apply str_eqb_neq in E. rewrite lookup_insert_ne by exact E. exact IH.
Qed.

End MetadataFacts.

(** *** Writing the map out and reading it back *)

Section RoundTrip.

Definition head_ok (s : str) : Prop :=
  match s with
  | c :: _ => isspace c = false
  | [] => True
  end.

(** Nothing to trim at either end. *)
Definition trimmed (s : str) : Prop := head_ok s /\ head_ok (rev s).

Definition no_break (s : str) : Prop := Forall (fun c => is_linebreak c = false) s.

Lemma dropwhile_head (s : str) : head_ok (dropwhile isspace s).
Proof.
  induction s as [|c s IH]; simpl; [exact I|].
  destruct (isspace c) eqn:E; [exact IH | exact E].
Qed.

Lemma dropwhile_id (s : str) : head_ok s -> dropwhile isspace s = s.
Proof. destruct s as [|c s]; simpl; [reflexivity|]. now intros ->. Qed.

Lemma head_ok_app (a b : str) : a <> [] -> head_ok (a ++ b) <-> head_ok a.
Proof. destruct a; simpl; [congruence | tauto]. Qed.

Lemma strip_trimmed (s : str) : trimmed (strip s).
Proof.
  unfold trimmed, strip, lstrip, rstrip.
  set (t := rev (dropwhile isspace (rev s))).
  assert (Ht : head_ok (rev t)).
  { unfold t. rewrite rev_involutive. apply dropwhile_head. }
  split; [apply dropwhile_head|].
  destruct (dropwhile isspace t) as [|c u] eqn:E; [exact I|].
  pose proof (takewhile_dropwhile isspace t) as Hsplit.
  rewrite E in Hsplit. rewrite <- Hsplit, rev_app_distr in Ht.
  apply head_ok_app in Ht; [exact Ht|].
  intros Hnil. apply (f_equal (@length _)) in Hnil.
  rewrite length_rev in Hnil. discriminate.
Qed.

Lemma rstrip_id (s : str) : head_ok (rev s) -> rstrip s = s.
Proof.
  intros H. unfold rstrip. rewrite dropwhile_id by exact H.
  apply rev_involutive.
Qed.

Lemma trimmed_strip (s : str) : trimmed s -> strip s = s.
Proof.
  intros [H1 H2]. unfold strip, lstrip. rewrite rstrip_id by exact H2.
  now apply dropwhile_id.
Qed.

Lemma takewhile_app_stop p (a b : str) c :
  Forall (fun x => p x = true) a -> p c = false ->
  takewhile p (a ++ c :: b) = a.
Proof.
  induction 1 as [|x a Hx _ IH]; intros Hc; simpl.
  - now rewrite Hc.
  - rewrite Hx. f_equal. now apply IH.
Qed.

Lemma dropwhile_app_stop p (a b : str) c :
  Forall (fun x => p x = true) a -> p c = false ->
  dropwhile p (a ++ c :: b) = c :: b.
Proof.
  induction 1 as [|x a Hx _ IH]; intros Hc; simpl.
  - now rewrite Hc.
  - rewrite Hx. now apply IH.
Qed.

(** One line on its own: [#Key: Value]. *)
Definition line_of (kv : str * str) : str :=
  lit "#" ++ fst kv ++ lit ": " ++ snd kv.

(** The map written out, one [#Key: Value] line for each entry. *)
Definition render (pairs : list (str * str)) : str :=
  concat (map (fun kv => line_of kv ++ ["010"%char]) pairs).

Definition serialize (m : gmap str str) : str := render (map_to_list m).

(** A pair as the parser produces it. *)
Definition clean (kv : str * str) : Prop :=
  trimmed (fst kv) /\ trimmed (snd kv) /\
  no_break (fst kv) /\ no_break (snd kv) /\
  Forall (fun c => not_colon c = true) (fst kv).

Lemma splitlines_from_line (line rest cur : str) :
  no_break line ->
  splitlines_from cur (line ++ "010"%char :: rest)
  = (rev cur ++ line) :: splitlines_from [] rest.
Proof.
  intros H. revert cur. induction H as [|c line Hc _ IH]; intros cur.
  - cbn [app splitlines_from].
    change (is_linebreak "010"%char) with true. cbv iota.
    rewrite app_nil_r. f_equal.
    destruct rest as [|d rest']; reflexivity.
  - cbn [app splitlines_from]. rewrite Hc, IH. cbn [rev].
    now rewrite <- app_assoc.
Qed.

Lemma no_break_line_of (kv : str * str) : clean kv -> no_break (line_of kv).
Proof.
  intros (_ & _ & Hk & Hv & _). unfold line_of, no_break.
  repeat (apply Forall_app; split); auto; repeat constructor.
Qed.

Lemma splitlines_render (pairs : list (str * str)) :
  Forall clean pairs -> splitlines (render pairs) = map line_of pairs.
Proof.
  unfold splitlines, render.
  induction 1 as [|kv pairs Hkv _ IH]; [reflexivity|].
  cbn [map concat]. rewrite <- app_assoc. cbn [app].
  rewrite splitlines_from_line by now apply no_break_line_of.
  cbn [rev app]. now rewrite IH.
Qed.

Lemma strip_line_of (kv : str * str) :
  clean kv ->
  strip (line_of kv) =
  "#"%char :: fst kv ++ ":"%char ::
    match snd kv with [] => [] | _ => " "%char :: snd kv end.
Proof.
  destruct kv as [k v]. intros (_ & [_ Hv] & _). cbn [fst snd] in *.
  unfold line_of. cbn [fst snd lit list_ascii_of_string app].
  destruct v as [|c v'].
  - unfold strip, lstrip, rstrip.
    replace (rev ("#"%char :: k ++ [":"%char; " "%char]))
      with (" "%char :: ":"%char :: rev ("#"%char :: k)).
    2:{ cbn [rev]. rewrite rev_app_distr. reflexivity. }
    cbn [dropwhile]. change (isspace " "%char) with true.
    change (isspace ":"%char) with false. cbv iota.
    replace (":"%char :: rev ("#"%char :: k))
      with (rev (("#"%char :: k) ++ [":"%char]))
      by (rewrite rev_app_distr; reflexivity).
    rewrite rev_involutive. cbn [app].
    apply dropwhile_id. reflexivity.
  - apply trimmed_strip. split; [reflexivity|].
    replace ("#"%char :: k ++ ":"%char :: " "%char :: c :: v')
      with (("#"%char :: k ++ [":"%char; " "%char]) ++ (c :: v'))
      by (cbn [app]; now rewrite <- app_assoc).
    rewrite rev_app_distr. apply head_ok_app; [|exact Hv].
    intros Hnil. apply (f_equal (@length _)) in Hnil.
    rewrite length_rev in Hnil. discriminate.
Qed.

Lemma contains_app_colon (a b : str) : contains ":"%char (a ++ ":"%char :: b) = true.
Proof.
  unfold contains. rewrite existsb_app. cbn [existsb].
  rewrite eqc_refl. now rewrite orb_true_r.
Qed.

Lemma qualifies_line_of (kv : str * str) :
  clean kv -> spec_qualifies (line_of kv) = true.
Proof.
  intros H. unfold spec_qualifies. cbv zeta. rewrite (strip_line_of _ H).
  cbn [str_eqb negb startswith andb]. rewrite eqc_refl. cbn [andb].
  change ("#"%char :: ?x) with ([ "#"%char ] ++ x).
  unfold contains. cbn [existsb]. fold (contains ":"%char).
  change (eqc ":"%char "#"%char) with false. cbn [orb].
  apply contains_app_colon.
Qed.

Lemma strip_space_value (v : str) :
  trimmed v ->
  strip (match v with [] => [] | _ => " "%char :: v end) = v.
Proof.
  intros [H1 H2]. destruct v as [|c v']; [reflexivity|].
  unfold strip, lstrip. rewrite rstrip_id.
  - change (dropwhile isspace (" "%char :: c :: v'))
      with (dropwhile isspace (c :: v')).
    now apply dropwhile_id.
  - change (" "%char :: c :: v') with ([" "%char] ++ (c :: v')).
    rewrite rev_app_distr. apply head_ok_app; [|exact H2].
    intros Hnil. apply (f_equal (@length _)) in Hnil.
    rewrite length_rev in Hnil. discriminate.
Qed.

Lemma key_value_line_of (kv : str * str) :
  clean kv -> spec_key_value (line_of kv) = kv.
Proof.
  intros H. pose proof H as (Hk & Hv & _ & _ & Hc).
  unfold spec_key_value. cbv zeta. rewrite (strip_line_of _ H).
  destruct kv as [k v]. cbn [fst snd tl] in *.
  assert (Hstop : not_colon ":"%char = false) by reflexivity.
  rewrite (takewhile_app_stop not_colon _ _ _ Hc Hstop).
  rewrite (dropwhile_app_stop not_colon _ _ _ Hc Hstop). cbn [tl].
  f_equal; [now apply trimmed_strip | now apply strip_space_value].
Qed.

Lemma filter_all {A} (f : A -> bool) (l : list A) :
  Forall (fun x => f x = true) l -> List.filter f l = l.
Proof.
  induction 1 as [|x l Hx _ IH]; simpl; [reflexivity|]. now rewrite Hx, IH.
Qed.

(** Reading back what was written out enters the same pairs. *)
Lemma parse_render (pairs : list (str * str)) :
  Forall clean pairs ->
  parse_metadata_from_text (render pairs) = Ok (foldl put ∅ pairs).
Proof.
  intros H. unfold parse_metadata_from_text.
  rewrite parse_lines_spec, (splitlines_render _ H).
  rewrite filter_all.
  - rewrite map_map. f_equal. f_equal.
    induction H as [|kv pairs Hkv _ IH]; [reflexivity|].
    cbn [map]. now rewrite (key_value_line_of _ Hkv), IH.
  - apply List.Forall_map. eapply List.Forall_impl; [|exact H].
    intros kv Hkv. now apply qualifies_line_of.
Qed.

End RoundTrip.

Section ParsedPairs.

Lemma no_break_rev (s : str) : no_break s -> no_break (rev s).
Proof. unfold no_break. apply Forall_rev. Qed.

Lemma splitlines_from_no_break (n : nat) :
  forall s cur, (length s <= n)%nat -> no_break cur ->
    Forall no_break (splitlines_from cur s).
Proof.
  induction n as [|n IH]; intros s cur Hlen Hcur.
  - destruct s; [|simpl in Hlen; lia]. simpl.
    destruct cur; [constructor|].
    constructor; [now apply no_break_rev | constructor].
  - destruct s as [|c s']; simpl.
    + destruct cur; [constructor|].
      constructor; [now apply no_break_rev | constructor].
    + simpl in Hlen. destruct (is_linebreak c) eqn:E.
      * constructor; [now apply no_break_rev|].
        destruct s' as [|d s''].
        -- apply IH; [simpl; lia | constructor].
        -- destruct (_ && _).
           ++ apply IH; [simpl in Hlen; lia | constructor].
           ++ apply IH; [lia | constructor].
      * apply IH; [lia|]. constructor; assumption.
Qed.

Lemma splitlines_no_break (text : str) : Forall no_break (splitlines text).
Proof.
  apply (splitlines_from_no_break (length text)); [lia | constructor].
Qed.

Lemma no_break_sub (s t : str) :
  (forall c, In c t -> In c s) -> no_break s -> no_break t.
Proof.
  unfold no_break. rewrite !List.Forall_forall. intros Hsub H c Hc. auto.
Qed.

Lemma In_tl {A} (l : list A) x : In x (tl l) -> In x l.
Proof. destruct l; simpl; tauto. Qed.

Lemma takewhile_all p (s : str) : Forall (fun c => p c = true) (takewhile p s).
Proof.
  induction s as [|x s IH]; simpl; [constructor|].
  destruct (p x) eqn:E; constructor; assumption.
Qed.

Lemma key_value_clean (raw_line : str) :
  no_break raw_line -> clean (spec_key_value raw_line).
Proof.
  intros H. unfold clean, spec_key_value. cbn [fst snd].
  split; [apply strip_trimmed|]. split; [apply strip_trimmed|].
  split; [|split].
  - eapply no_break_sub; [|exact H]. intros c Hc.
    apply In_strip, In_takewhile, In_tl, In_strip in Hc. exact Hc.
  - eapply no_break_sub; [|exact H]. intros c Hc.
    apply In_strip, In_tl, In_dropwhile, In_tl, In_strip in Hc. exact Hc.
  - apply List.Forall_forall. intros c Hc. apply In_strip in Hc.
    pose proof (takewhile_all not_colon (tl (strip raw_line))) as Hall.
    rewrite List.Forall_forall in Hall. now apply Hall.
Qed.

Lemma spec_pairs_clean (text : str) : Forall clean (spec_pairs text).
Proof.
  unfold spec_pairs. apply List.Forall_map.
  apply List.Forall_forall. intros raw Hraw. apply filter_In in Hraw as [Hraw _].
  apply key_value_clean.
  pose proof (splitlines_no_break text) as Hall.
  rewrite List.Forall_forall in Hall. now apply Hall.
Qed.

Lemma foldl_put_clean (pairs : list (str * str)) (m : gmap str str) :
  map_Forall (fun k v => clean (k, v)) m -> Forall clean pairs ->
  map_Forall (fun k v => clean (k, v)) (foldl put m pairs).
Proof.
  intros Hm H. revert m Hm.
  induction H as [|[k v] pairs Hkv _ IH]; intros m Hm; [exact Hm|].
  cbn [foldl]. apply IH. unfold put. cbn [fst snd].
  now apply map_Forall_insert_2.
Qed.

Lemma map_to_list_clean (m : gmap str str) :
  map_Forall (fun k v => clean (k, v)) m -> Forall clean (map_to_list m).
Proof.
  intros H. apply List.Forall_forall. intros [k v] Hkv.
  apply list_elem_of_In, elem_of_map_to_list in Hkv. exact (H k v Hkv).
Qed.

Lemma foldl_put_map_to_list (m : gmap str str) :
  foldl put ∅ (map_to_list m) = m.
Proof.
  apply map_eq. intros k. rewrite foldl_put_last. unfold last_value.
  destruct (List.find _ _) as [[k' v']|] eqn:E.
  - apply find_some in E as [Hin Hk]. cbn [fst] in Hk.
    apply str_eqb_eq in Hk. subst k'.
    apply in_rev, list_elem_of_In, elem_of_map_to_list in Hin.
    now rewrite Hin.
  - destruct (m !! k) as [v|] eqn:Hm; [|reflexivity].
    apply elem_of_map_to_list, list_elem_of_In, in_rev in Hm.
    pose proof (find_none _ _ E _ Hm) as Hk. cbn [fst] in Hk.
    now rewrite str_eqb_refl in Hk.
Qed.

(** C7. The parser returns, without raising, the mapping that the spec
    describes: the pairs of the lines that, trimmed, are not empty, begin
    with [#] and contain a colon, cut at the first colon, both parts
    trimmed, a later pair replacing an earlier one with the same key.
    Writing that mapping out as [#Key: Value] lines and parsing the text
    again gives the same mapping. *)
Theorem parse_metadata_exact (text : str) :
  parse_metadata_from_text text = Ok (spec_metadata_map text) /\
  (forall k, spec_metadata_map text !! k = last_value k (spec_pairs text)) /\
  parse_metadata_from_text (serialize (spec_metadata_map text))
  = Ok (spec_metadata_map text).
Proof.
  split; [|split].
  - unfold parse_metadata_from_text. now rewrite parse_lines_spec.
  - intros k. apply foldl_put_last.
  - unfold serialize. rewrite parse_render.
    + now rewrite foldl_put_map_to_list.
    + apply map_to_list_clean. unfold spec_metadata_map.
      apply foldl_put_clean; [apply map_Forall_empty | apply spec_pairs_clean].
Qed.

Example parse_metadata_example :
  parse_metadata_from_text
    (lit "#GeometryFile: cube.obj" ++ ["010"%char] ++ lit "notes" ++ ["010"%char]
     ++ lit "  # Url : http://x/y " ++ ["013"%char; "010"%char]
     ++ lit "#GeometryFile: ball.obj")
  = Ok (<[lit "Url" := lit "http://x/y"]>
          (<[lit "GeometryFile" := lit "ball.obj"]> ∅)).
Proof. vm_compute. reflexivity. Qed.

End ParsedPairs.

(** ** The file system tree *)

Section TreeFacts.

Lemma stat_app (p q : path) (fs : node) :
  stat (p ++ q) fs =
  match stat p fs with
  | Found n => stat q n
  | Missing => Missing
  | NotDir => NotDir
  end.
Proof.
  revert fs. induction p as [|c p IH]; intros fs; [reflexivity|].
  cbn [app stat]. destruct fs as [f|es]; [reflexivity|].
  destruct (lookup_entry c es); [apply IH | reflexivity].
Qed.

Lemma lookup_entry_In (c : str) (es : list (str * node)) (n : node) :
  lookup_entry c es = Some n -> In c (map fst es).
Proof.
  induction es as [|[k v] es IH]; simpl; [discriminate|].
  destruct (str_eqb c k) eqn:E.
  - apply str_eqb_eq in E. auto.
  - auto.
Qed.

Lemma lookup_entry_None (c : str) (es : list (str * node)) :
  lookup_entry c es = None <-> ~ In c (map fst es).
Proof.
  induction es as [|[k v] es IH]; simpl; [tauto|].
  destruct (str_eqb c k) eqn:E.
  - apply str_eqb_eq in E. split; [discriminate | intros H; exfalso; auto].
  - apply str_eqb_neq in E. rewrite IH. split; [|tauto].
    intros H [H'|H']; [congruence | tauto].
Qed.

(** An entry of [d] exists only in a directory [d] that lists it. *)
Lemma exists_joinpath (d : path) (c : str) (fs : node) :
  exists_ (joinpath d c) fs = true ->
  exists es, stat d fs = Found (Dir es) /\ In c (map fst es).
Proof.
  unfold exists_, joinpath. rewrite stat_app.
  destruct (stat d fs) as [[f|es]| |]; try discriminate.
  cbn [stat]. destruct (lookup_entry c es) eqn:E; [|discriminate].
  intros _. exists es. split; [reflexivity|]. eapply lookup_entry_In; eauto.
Qed.

End TreeFacts.

(** ** Free names *)

Section FirstFree.

Variable fs : node.
Variable d : path.

(** The names tried: [nm 0] first, then [nm 1], [nm 2], ... *)
Variable nm : nat -> str.
Hypothesis nm_inj : forall j k, nm j = nm k -> j = k.

Variable next : nat -> path.
Hypothesis next_nm : forall i, (1 <= i)%nat -> next i = joinpath d (nm i).

Lemma first_free_run (fuel j : nat) :
  exists m, (m <= fuel)%nat /\
    first_free fuel fs (joinpath d (nm j)) next (S j) = joinpath d (nm (j + m)) /\
    (forall t, (t < m)%nat -> exists_ (joinpath d (nm (j + t))) fs = true) /\
    ((m < fuel)%nat -> exists_ (joinpath d (nm (j + m))) fs = false).
Proof.
  revert j. induction fuel as [|fuel IH]; intros j; cbn [first_free].
  - exists 0%nat. rewrite Nat.add_0_r.
    destruct (exists_ _ fs); repeat split; intros; lia.
  - destruct (exists_ (joinpath d (nm j)) fs) eqn:E.
    + rewrite next_nm by lia.
      destruct (IH (S j)) as (m & Hm & Hres & Hbusy & Hfree).
      exists (S m). replace (j + S m)%nat with (S j + m)%nat by lia.
      repeat split; [lia | exact Hres | | intros; apply Hfree; lia].
      intros t Ht. destruct t as [|t].
      * now rewrite Nat.add_0_r.
      * replace (j + S t)%nat with (S j + t)%nat by lia. apply Hbusy. lia.
    + exists 0%nat. rewrite Nat.add_0_r.
      repeat split; [lia | intros; lia | intros; exact E].
Qed.

Lemma nm_seq_NoDup (n : nat) : List.NoDup (map nm (seq 0 n)).
Proof.
  apply Finite.Injective_map_NoDup; [|apply seq_NoDup].
  intros j k. apply nm_inj.
Qed.

(** A directory cannot hold more names than it has entries. *)
Lemma busy_bound (n : nat) :
  (forall t, (t < n)%nat -> exists_ (joinpath d (nm t)) fs = true) ->
  (n <= nentries d fs)%nat.
Proof.
  intros H. destruct n as [|n]; [lia|].
  destruct (exists_joinpath _ _ _ (H 0%nat ltac:(lia))) as (es & Hd & _).
  unfold nentries. rewrite Hd.
  replace (S n) with (length (map nm (seq 0 (S n))))
    by (now rewrite List.length_map, List.length_seq).
  replace (length es) with (length (map fst es)) by apply List.length_map.
  apply NoDup_incl_length; [apply nm_seq_NoDup|].
  intros c Hc. apply in_map_iff in Hc as (t & <- & Ht). apply in_seq in Ht.
  destruct (exists_joinpath _ _ _ (H t ltac:(lia))) as (es' & Hd' & Hin).
  congruence.
Qed.

(** With the number of entries of [d] as fuel, the loop ends at the first
    free name. *)
Lemma first_free_spec :
  exists m,
    first_free (nentries d fs) fs (joinpath d (nm 0)) next 1 = joinpath d (nm m) /\
    exists_ (joinpath d (nm m)) fs = false /\
    forall t, (t < m)%nat -> exists_ (joinpath d (nm t)) fs = true.
Proof.
  destruct (first_free_run (nentries d fs) 0) as (m & Hm & Hres & Hbusy & Hfree).
  cbn [Nat.add] in *. exists m. repeat split; [exact Hres | | exact Hbusy].
  destruct (Nat.lt_ge_cases m (nentries d fs)) as [Hlt|Hge]; [now apply Hfree|].
  destruct (exists_ (joinpath d (nm m)) fs) eqn:E; [|reflexivity].
  exfalso. assert (Hb : (S m <= nentries d fs)%nat); [|lia].
  apply busy_bound. intros t Ht.
  destruct (Nat.eq_dec t m) as [->|Hne]; [exact E | apply Hbusy; lia].
Qed.

End FirstFree.

(** ** ensure_unique_dir *)

Section UniqueDir.

Lemma lit_inj (a b : string) : lit a = lit b -> a = b.
Proof.
  unfold lit. intros H. apply (f_equal string_of_list_ascii) in H.
  now rewrite !string_of_list_ascii_of_string in H.
Qed.

Lemma str_of_nat_inj (j k : nat) : str_of_nat j = str_of_nat k -> j = k.
Proof.
  unfold str_of_nat. intros H. apply lit_inj in H.
  now apply (inj pretty) in H.
Qed.

(** The names that [ensure_unique_dir] tries, in order. *)
Definition dir_name (desired : str) (k : nat) : str :=
  match k with
  | O => desired
  | S _ => desired ++ lit "_" ++ str_of_nat k
  end.

Lemma dir_name_inj (desired : str) (j k : nat) :
  dir_name desired j = dir_name desired k -> j = k.
Proof.
  destruct j as [|j], k as [|k]; cbn [dir_name]; intros H.
  - reflexivity.
  - apply (f_equal (@length _)) in H. rewrite !length_app in H.
    cbn in H. lia.
  - apply (f_equal (@length _)) in H. rewrite !length_app in H.
    cbn in H. lia.
  - apply app_inv_head in H. apply app_inv_head in H.
    now apply str_of_nat_inj.
Qed.

Lemma ensure_unique_dir_run (base : path) (desired : str) (fs : node) :
  exists m,
    ensure_unique_dir base desired fs = joinpath base (dir_name desired m) /\
    exists_ (joinpath base (dir_name desired m)) fs = false /\
    forall t, (t < m)%nat -> exists_ (joinpath base (dir_name desired t)) fs = true.
Proof.
  unfold ensure_unique_dir.
  apply (first_free_spec fs base (dir_name desired) (dir_name_inj desired)).
  intros i Hi. destruct i; [lia | reflexivity].
Qed.

(** C8. The allocator returns a path that does not exist: [base/name]
    when that is free, and otherwise [base/name_k] for the least [k >= 1]
    for which it is free, all of [name_1 .. name_(k-1)] being taken; with
    [name], [name_1] and [name_2] taken and [name_3] free it returns
    [base/name_3]. *)
Theorem ensure_unique_dir_free (base : path) (desired : str) (fs : node) :
  let suffixed k := joinpath base (desired ++ lit "_" ++ str_of_nat k) in
  let p := ensure_unique_dir base desired fs in
  exists_ p fs = false /\
  (exists_ (joinpath base desired) fs = false -> p = joinpath base desired) /\
  (exists_ (joinpath base desired) fs = true ->
     exists k, (1 <= k)%nat /\ p = suffixed k /\
       forall j, (1 <= j < k)%nat -> exists_ (suffixed j) fs = true) /\
  (exists_ (joinpath base desired) fs = true ->
   exists_ (suffixed 1%nat) fs = true ->
   exists_ (suffixed 2%nat) fs = true ->
   exists_ (suffixed 3%nat) fs = false ->
     p = suffixed 3%nat).
Proof.
  cbv zeta.
  destruct (ensure_unique_dir_run base desired fs) as (m & Hres & Hfree & Hbusy).
  rewrite Hres.
  assert (Hsuf : forall k, (1 <= k)%nat ->
            dir_name desired k = desired ++ lit "_" ++ str_of_nat k).
  { intros k Hk. destruct k; [lia | reflexivity]. }
  split; [exact Hfree|]. split; [|split].
  - intros H0. destruct m as [|m]; [reflexivity|].
    specialize (Hbusy 0%nat ltac:(lia)). cbn [dir_name] in Hbusy. congruence.
  - intros H0. destruct m as [|m]; [cbn [dir_name] in Hfree; congruence|].
    exists (S m). split; [lia|]. split; [reflexivity|].
    intros j Hj. rewrite <- Hsuf by lia. apply Hbusy. lia.
  - intros H0 H1 H2 H3.
    assert (Hm : m = 3%nat); [|subst m; reflexivity].
    destruct (Nat.lt_trichotomy m 3) as [Hlt|[Heq|Hgt]]; [|exact Heq|].
    + exfalso.
      destruct m as [|[|[|m]]]; cbn [dir_name] in Hfree; try congruence; lia.
    + specialize (Hbusy 3%nat Hgt). rewrite Hsuf in Hbusy by lia. congruence.
Qed.

End UniqueDir.

(** ** Archive discovery *)

Section Discovery.

Definition walk_entries (root : path) (es : list (str * node))
  : list (path * list str * list str) :=
  flat_map (fun e => walk (joinpath root (fst e)) (snd e)) es.

Lemma walk_dir (root : path) (es : list (str * node)) :
  walk root (Dir es) = (root, dir_names es, file_names es) :: walk_entries root es.
Proof.
  reflexivity.
Qed.

Lemma lookup_entry_file (c : str) (es : list (str * node)) (f : file) :
  lookup_entry c es = Some (File f) -> In c (file_names es).
Proof.
  unfold file_names.
  induction es as [|[k v] es IH]; simpl; [discriminate|].
  destruct (str_eqb c k) eqn:E.
  - apply str_eqb_eq in E. subst k. intros [= ->]. simpl. auto.
  - intros H. apply in_or_app. right. now apply IH.
Qed.

Lemma walk_entries_In (root : path) (c : str) (es : list (str * node)) (n : node) t :
  lookup_entry c es = Some n ->
  In t (walk (joinpath root c) n) -> In t (walk_entries root es).
Proof.
  unfold walk_entries.
  induction es as [|[k v] es IH]; simpl; [discriminate|].
  destruct (str_eqb c k) eqn:E.
  - apply str_eqb_eq in E. subst k. intros [= ->] Ht.
    apply in_or_app. now left.
  - intros H Ht. apply in_or_app. right. now apply IH.
Qed.

Lemma name_cons (c : str) (rel : path) : rel <> [] -> name (c :: rel) = name rel.
Proof. destruct rel; [congruence | reflexivity]. Qed.

Lemma name_joinpath (d : path) (c : str) : name (joinpath d c) = c.
Proof. unfold name, joinpath. apply last_last. Qed.

(** A file below a directory is listed by the walk of that directory, in
    the triple of the directory that holds it. *)
Lemma walk_finds (rel : path) :
  forall (root : path) (n : node) (f : file),
    rel <> [] -> stat rel n = Found (File f) ->
    exists r dirs files,
      In (r, dirs, files) (walk root n) /\ In (name rel) files /\
      root ++ rel = joinpath r (name rel).
Proof.
  induction rel as [|c rel IH]; intros root n f Hne Hst; [congruence|].
  cbn [stat] in Hst. destruct n as [g|es]; [discriminate|].
  destruct (lookup_entry c es) as [n'|] eqn:Hc; [|discriminate].
  rewrite walk_dir.
  destruct rel as [|c' rel'].
  - cbn [stat] in Hst. injection Hst as ->.
    exists root, (dir_names es), (file_names es).
    split; [now left|]. split; [|reflexivity].
    eapply lookup_entry_file; eauto.
  - destruct (IH (joinpath root c) n' f ltac:(discriminate) Hst)
      as (r & dirs & files & Hin & Hnm & Hpath).
    exists r, dirs, files. rewrite name_cons by discriminate.
    split; [|split; [exact Hnm|]].
    + right. eapply walk_entries_In; eauto.
    + rewrite <- Hpath. unfold joinpath. now rewrite <- app_assoc.
Qed.

Lemma node_nested_ind (P : node -> Prop) :
  (forall f, P (File f)) ->
  (forall es, Forall (fun e => P (snd e)) es -> P (Dir es)) ->
  forall n, P n.
Proof.
  intros Hfile Hdir. fix IH 1. intros [f|es]; [apply Hfile|].
  apply Hdir. induction es as [|e es IHes]; constructor; [apply IH | exact IHes].
Qed.

Lemma walk_roots (n : node) :
  forall root r dirs files,
    In (r, dirs, files) (walk root n) -> exists q, r = root ++ q.
Proof.
  induction n as [f|es IH] using node_nested_ind; intros root r dirs files Hin.
  - destruct Hin.
  - rewrite walk_dir in Hin. destruct Hin as [Hin|Hin].
    + injection Hin as <- _ _. exists []. now rewrite app_nil_r.
    + unfold walk_entries in Hin.
      induction IH as [|[k v] es Hv _ IHes]; [destruct Hin|].
      cbn [flat_map fst snd] in Hin. apply in_app_or in Hin as [Hin|Hin].
      * destruct (Hv _ _ _ _ Hin) as [q ->].
        exists (k :: q). unfold joinpath. now rewrite <- app_assoc.
      * now apply IHes.
Qed.

Definition zip_named (p : path) : bool :=
  endswith (lit ".zip") (lower (name p)).

Lemma discover_In (input_dir : path) (fs : node) (p : path) :
  In p (discover input_dir fs) <->
  exists r dirs files nm,
    In (r, dirs, files) (os_walk input_dir fs) /\ In nm files /\
    endswith (lit ".zip") (lower nm) = true /\ p = joinpath r nm.
Proof.
  unfold discover. rewrite in_flat_map. split.
  - intros ([[r dirs] files] & Hin & Hp). cbn [fst snd] in Hp.
    apply in_map_iff in Hp as (nm & <- & Hnm).
    apply filter_In in Hnm as [Hnm Hz].
    exists r, dirs, files, nm. auto.
  - intros (r & dirs & files & nm & Hin & Hnm & Hz & ->).
    exists (r, dirs, files). split; [exact Hin|]. cbn [fst snd].
    apply in_map. apply filter_In. auto.
Qed.

(** C9. Discovery is recursive: every file at any depth below
    [input_dir] whose name ends, without regard to case, with [.zip] is in
    the batch, those in [_processed] and [_failed] included; and the batch
    holds only paths below [input_dir] with such a name. *)
Theorem discover_recursive (input_dir : path) (fs : node) :
  (forall rel f,
     rel <> [] -> stat (input_dir ++ rel) fs = Found (File f) ->
     zip_named rel = true ->
     In (input_dir ++ rel) (discover input_dir fs)) /\
  (forall area nm f,
     area = lit "_processed" \/ area = lit "_failed" ->
     stat (joinpath (joinpath input_dir area) nm) fs = Found (File f) ->
     endswith (lit ".zip") (lower nm) = true ->
     In (joinpath (joinpath input_dir area) nm) (discover input_dir fs)) /\
  (forall p, In p (discover input_dir fs) ->
     zip_named p = true /\ exists rel, rel <> [] /\ p = input_dir ++ rel).
Proof.
  assert (Hdeep : forall rel f,
     rel <> [] -> stat (input_dir ++ rel) fs = Found (File f) ->
     zip_named rel = true ->
     In (input_dir ++ rel) (discover input_dir fs)).
  { intros rel f Hne Hst Hz. rewrite stat_app in Hst.
    destruct (stat input_dir fs) as [n| |] eqn:Hd; try discriminate.
    destruct (walk_finds rel input_dir n f Hne Hst)
      as (r & dirs & files & Hin & Hnm & Hpath).
    apply discover_In. exists r, dirs, files, (name rel).
    unfold os_walk. rewrite Hd. auto. }
  split; [exact Hdeep|]. split.
  - intros area nm f _ Hst Hz. unfold joinpath in *.
    rewrite <- app_assoc in *. cbn [app] in *.
    apply (Hdeep [area; nm] f); [discriminate | exact Hst | exact Hz].
  - intros p Hp. apply discover_In in Hp
      as (r & dirs & files & nm & Hin & Hnm & Hz & ->).
    split; [unfold zip_named; now rewrite name_joinpath|].
    unfold os_walk in Hin.
    destruct (stat input_dir fs) as [n| |]; try destruct Hin.
    destruct (walk_roots _ _ _ _ _ Hin) as [q ->].
    exists (q ++ [nm]). split; [now destruct q|].
    unfold joinpath. now rewrite <- app_assoc.
Qed.

End Discovery.

(** ** Updates of the tree *)

Section TreeUpdates.

(** What is at a path, without the contents of a directory. *)
Definition kind (r : stat_result) : stat_result :=
  match r with
  | Found (Dir _) => Found (Dir [])
  | _ => r
  end.

Lemma kind_file (r : stat_result) (f : file) :
  kind r = Found (File f) <-> r = Found (File f).
Proof. destruct r as [[g|es]| |]; simpl; split; congruence. Qed.

Lemma kind_eq_exists (p q : path) (fs fs' : node) :
  kind (stat p fs') = kind (stat q fs) -> exists_ p fs' = exists_ q fs.
Proof.
  unfold exists_.
  destruct (stat p fs') as [[?|?]| |], (stat q fs) as [[?|?]| |];
    simpl; congruence.
Qed.

Lemma kind_eq_is_dir (p q : path) (fs fs' : node) :
  kind (stat p fs') = kind (stat q fs) -> is_dir p fs' = is_dir q fs.
Proof.
  unfold is_dir.
  destruct (stat p fs') as [[?|?]| |], (stat q fs) as [[?|?]| |];
    simpl; congruence.
Qed.

(** The rest of [q] after the prefix [d]. *)
Fixpoint after_prefix (d q : path) : option path :=
  match d, q with
  | [], _ => Some q
  | c :: d', c' :: q' => if str_eqb c c' then after_prefix d' q' else None
  | _ :: _, [] => None
  end.

Lemma after_prefix_Some (d q q' : path) :
  after_prefix d q = Some q' <-> q = d ++ q'.
Proof.
  revert q. induction d as [|c d IH]; intros q; simpl.
  - split; congruence.
  - destruct q as [|c' q0]; [split; discriminate|].
    destruct (str_eqb c c') eqn:E.
    + apply str_eqb_eq in E. subst c'. rewrite IH. split; congruence.
    + apply str_eqb_neq in E. split; [discriminate | congruence].
Qed.

Lemma lookup_entry_map (c0 c : str) (h : node -> node) (es : list (str * node)) :
  lookup_entry c
    (map (fun e => if str_eqb c0 (fst e) then (fst e, h (snd e)) else e) es)
  = if str_eqb c0 c then option_map h (lookup_entry c es) else lookup_entry c es.
Proof.
  induction es as [|[k v] es IH]; cbn [map lookup_entry fst snd].
  - now destruct (str_eqb c0 c).
  - destruct (str_eqb c0 k) eqn:E0; cbn [lookup_entry];
      destruct (str_eqb c k) eqn:E.
    + apply str_eqb_eq in E0, E. subst. now rewrite str_eqb_refl.
    + exact IH.
    + apply str_eqb_eq in E. subst k. now rewrite E0.
    + exact IH.
Qed.

Lemma lookup_entry_del (c c' : str) (es : list (str * node)) :
  lookup_entry c' (del_entry c es) =
  if str_eqb c c' then None else lookup_entry c' es.
Proof.
  unfold del_entry.
  induction es as [|[k v] es IH]; cbn [List.filter lookup_entry fst].
  - now destruct (str_eqb c c').
  - destruct (str_eqb c k) eqn:E0; cbn [negb lookup_entry].
    + apply str_eqb_eq in E0. subst k. rewrite IH.
      destruct (str_eqb c c') eqn:E; [reflexivity|].
      destruct (str_eqb c' c) eqn:E'; [|reflexivity].
      apply str_eqb_eq in E'. subst. now rewrite str_eqb_refl in E.
    + destruct (str_eqb c' k) eqn:E; [|exact IH].
      apply str_eqb_eq in E. subst k.
      destruct (str_eqb c c') eqn:E'; [congruence | reflexivity].
Qed.

Lemma lookup_entry_app (c : str) (es1 es2 : list (str * node)) :
  lookup_entry c (es1 ++ es2) =
  match lookup_entry c es1 with
  | Some n => Some n
  | None => lookup_entry c es2
  end.
Proof.
  induction es1 as [|[k v] es1 IH]; cbn [app lookup_entry]; [reflexivity|].
  destruct (str_eqb c k); [reflexivity | exact IH].
Qed.

Lemma lookup_entry_set (c c' : str) (v : node) (es : list (str * node)) :
  lookup_entry c' (set_entry c v es) =
  if str_eqb c c' then Some v else lookup_entry c' es.
Proof.
  unfold set_entry. rewrite lookup_entry_app, lookup_entry_del.
  cbn [lookup_entry].
  destruct (str_eqb c c') eqn:E.
  - apply str_eqb_eq in E. subst. now rewrite str_eqb_refl.
  - destruct (lookup_entry c' es); [reflexivity|].
    destruct (str_eqb c' c) eqn:E'; [|reflexivity].
    apply str_eqb_eq in E'. subst. now rewrite str_eqb_refl in E.
Qed.

(** Below the directory that is rewritten, the new entries are seen. *)
Lemma stat_update_dir_under (d : path) g :
  forall (q q' : path) (fs : node),
    after_prefix d q = Some q' ->
    stat q (update_dir d g fs) =
    match stat d fs with
    | Found (Dir es) => stat q' (Dir (g es))
    | _ => stat q fs
    end.
Proof.
  induction d as [|c d IH]; intros q q' fs H.
  - cbn in H. injection H as ->. destruct fs; reflexivity.
  - destruct q as [|c' q0]; [discriminate|]. cbn [after_prefix] in H.
    destruct (str_eqb c c') eqn:E; [|discriminate].
    apply str_eqb_eq in E. subst c'.
    destruct fs as [f|es0]; [reflexivity|].
    cbn [update_dir stat]. rewrite lookup_entry_map, str_eqb_refl.
    destruct (lookup_entry c es0) as [n'|]; cbn [option_map]; [|reflexivity].
    now apply IH.
Qed.

(** Elsewhere nothing changes but the contents of the directories on the
    way to [d]. *)
Lemma stat_update_dir_other (d : path) g :
  forall (q : path) (fs : node),
    after_prefix d q = None ->
    kind (stat q (update_dir d g fs)) = kind (stat q fs).
Proof.
  induction d as [|c d IH]; intros q fs H; [discriminate|].
  destruct fs as [f|es0]; [reflexivity|].
  destruct q as [|c' q0]; [reflexivity|].
  cbn [after_prefix] in H. cbn [update_dir stat]. rewrite lookup_entry_map.
  destruct (str_eqb c c') eqn:E; [|reflexivity].
  destruct (lookup_entry c' es0) as [n'|]; cbn [option_map]; [|reflexivity].
  now apply IH.
Qed.

(** Setting the entry [c] of [d] changes nothing outside [d/c]. *)
Lemma stat_set_entry_other (d : path) (c : str) (v : node) (q : path) (fs : node) :
  (forall q', q <> d ++ c :: q') ->
  kind (stat q (update_dir d (set_entry c v) fs)) = kind (stat q fs).
Proof.
  intros Hq. destruct (after_prefix d q) as [q0|] eqn:E.
  - rewrite (stat_update_dir_under _ _ _ _ _ E).
    apply after_prefix_Some in E. subst q.
    destruct (stat d fs) as [[f|es]| |] eqn:Hd; try reflexivity.
    rewrite stat_app, Hd.
    destruct q0 as [|c' q1]; [reflexivity|].
    cbn [stat]. rewrite lookup_entry_set.
    destruct (str_eqb c c') eqn:E'; [|reflexivity].
    apply str_eqb_eq in E'. subst c'. now destruct (Hq q1).
  - now apply stat_update_dir_other.
Qed.

Lemma stat_del_entry_other (d : path) (c : str) (q : path) (fs : node) :
  (forall q', q <> d ++ c :: q') ->
  kind (stat q (update_dir d (del_entry c) fs)) = kind (stat q fs).
Proof.
  intros Hq. destruct (after_prefix d q) as [q0|] eqn:E.
  - rewrite (stat_update_dir_under _ _ _ _ _ E).
    apply after_prefix_Some in E. subst q.
    destruct (stat d fs) as [[f|es]| |] eqn:Hd; try reflexivity.
    rewrite stat_app, Hd.
    destruct q0 as [|c' q1]; [reflexivity|].
    cbn [stat]. rewrite lookup_entry_del.
    destruct (str_eqb c c') eqn:E'; [|reflexivity].
    apply str_eqb_eq in E'. subst c'. now destruct (Hq q1).
  - now apply stat_update_dir_other.
Qed.

Lemma after_prefix_app (d q : path) : after_prefix d (d ++ q) = Some q.
Proof. now apply after_prefix_Some. Qed.

Lemma stat_set_entry_at (d : path) (c : str) (v : node) (q' : path) (fs : node) es :
  stat d fs = Found (Dir es) ->
  stat (d ++ c :: q') (update_dir d (set_entry c v) fs) = stat q' v.
Proof.
  intros Hd. rewrite (stat_update_dir_under _ _ _ _ _ (after_prefix_app d _)), Hd.
  cbn [stat]. now rewrite lookup_entry_set, str_eqb_refl.
Qed.

Lemma stat_del_entry_at (d : path) (c : str) (q' : path) (fs : node) es :
  stat d fs = Found (Dir es) ->
  stat (d ++ c :: q') (update_dir d (del_entry c) fs) = Missing.
Proof.
  intros Hd. rewrite (stat_update_dir_under _ _ _ _ _ (after_prefix_app d _)), Hd.
  cbn [stat]. now rewrite lookup_entry_del, str_eqb_refl.
Qed.

Lemma parent_name (p : path) : p <> [] -> p = parent p ++ [name p].
Proof. intros H. unfold parent, name. now apply app_removelast_last. Qed.

Lemma parent_joinpath (d : path) (c : str) : parent (joinpath d c) = d.
Proof. unfold parent, joinpath. apply removelast_last. Qed.

End TreeUpdates.

(** ** The operations on the tree *)

Section Operations.

(** [q] is not below [target] (it may be [target] itself). *)
Definition outside (target q : path) : Prop :=
  forall c q', q <> target ++ c :: q'.

Lemma os_mkdir_inv (p : path) (fs fs' : node) :
  os_mkdir p fs = Ok fs' ->
  p <> [] /\ stat p fs = Missing /\
  exists es, stat (parent p) fs = Found (Dir es) /\
    fs' = update_dir (parent p) (set_entry (name p) (Dir [])) fs.
Proof.
  unfold os_mkdir. destruct (stat p fs) eqn:Hp; try discriminate.
  destruct (stat (parent p) fs) as [[f|es]| |] eqn:Hd; try discriminate.
  intros [= <-]. split; [|split; [reflexivity|eauto]].
  intros ->. discriminate.
Qed.

(** A new directory is empty, and nothing else changes. *)
Lemma os_mkdir_stat (p : path) (fs fs' : node) :
  os_mkdir p fs = Ok fs' ->
  stat p fs' = Found (Dir []) /\
  forall q, q <> p -> kind (stat q fs') = kind (stat q fs).
Proof.
  intros H. destruct (os_mkdir_inv _ _ _ H) as (Hne & Hp & es & Hd & ->).
  pose proof (parent_name p Hne) as Hpn. split.
  - rewrite Hpn at 1. now rewrite (stat_set_entry_at _ _ _ [] _ es Hd).
  - intros q Hq.
    destruct (after_prefix p q) as [q0|] eqn:E.
    + apply after_prefix_Some in E. subst q.
      destruct q0 as [|c q1]; [now rewrite app_nil_r in Hq|].
      rewrite (stat_app p (c :: q1) fs), Hp.
      replace (p ++ c :: q1) with (parent p ++ name p :: c :: q1)
        by (rewrite Hpn at 3; now rewrite <- app_assoc).
      now rewrite (stat_set_entry_at _ _ _ _ _ es Hd).
    + apply stat_set_entry_other. intros q' ->.
      replace (parent p ++ name p :: q') with (p ++ q') in E
        by (rewrite Hpn at 1; now rewrite <- app_assoc).
      now rewrite after_prefix_app in E.
Qed.

(** What exists stays what it is. *)
Definition extends (fs fs' : node) : Prop :=
  forall q, exists_ q fs = true -> kind (stat q fs') = kind (stat q fs).

Lemma extends_refl (fs : node) : extends fs fs.
Proof. intros q _. reflexivity. Qed.

Lemma extends_trans (fs1 fs2 fs3 : node) :
  extends fs1 fs2 -> extends fs2 fs3 -> extends fs1 fs3.
Proof.
  intros H12 H23 q Hq. rewrite <- (H12 q Hq). apply H23.
  rewrite (kind_eq_exists q q fs1 fs2); [exact Hq | now apply H12].
Qed.

Lemma extends_file (fs fs' : node) (q : path) (f : file) :
  extends fs fs' -> stat q fs = Found (File f) -> stat q fs' = Found (File f).
Proof.
  intros H Hq. apply kind_file. rewrite H; [now rewrite Hq|].
  unfold exists_. now rewrite Hq.
Qed.

Lemma extends_is_dir (fs fs' : node) (q : path) :
  extends fs fs' -> is_dir q fs = true -> is_dir q fs' = true.
Proof.
  intros H Hq. rewrite (kind_eq_is_dir q q fs fs'); [exact Hq|].
  apply H. unfold is_dir, exists_ in *. now destruct (stat q fs) as [[?|?]| |].
Qed.

Lemma os_mkdir_extends (p : path) (fs fs' : node) :
  os_mkdir p fs = Ok fs' -> extends fs fs'.
Proof.
  intros H q Hq. destruct (os_mkdir_stat _ _ _ H) as [_ Hother].
  apply Hother. intros ->.
  destruct (os_mkdir_inv _ _ _ H) as (_ & Hp & _).
  unfold exists_ in Hq. now rewrite Hp in Hq.
Qed.

Lemma mkdir_here_spec (p : path) (exist_ok : bool) (fs fs' : node) r :
  mkdir_here p exist_ok fs = (r, fs') ->
  extends fs fs' /\
  (r = Ok tt -> is_dir p fs' = true) /\
  (forall e, r = Raise e -> fs' = fs).
Proof.
  unfold mkdir_here. destruct (os_mkdir p fs) as [fs1|e] eqn:H.
  - intros [= <- <-]. split; [eapply os_mkdir_extends; eauto|].
    split; [|discriminate]. intros _.
    destruct (os_mkdir_stat _ _ _ H) as [Hp _]. unfold is_dir. now rewrite Hp.
  - intros Heq.
    assert (Hcase : (r, fs') = (Raise e, fs) \/
                    (exist_ok && is_dir p fs = true /\ (r, fs') = (Ok tt, fs))).
    { destruct e; try (injection Heq as <- <-; now left);
        (destruct (exist_ok && is_dir p fs) eqn:E; injection Heq as <- <-;
         [right | left]; auto). }
    destruct Hcase as [[= -> ->]|[Hok [= -> ->]]].
    + split; [apply extends_refl|]. split; [discriminate | reflexivity].
    + split; [apply extends_refl|]. split; [|discriminate].
      intros _. now apply andb_true_iff in Hok.
Qed.

Lemma mkdir_parents_spec (rp : list str) :
  forall (exist_ok : bool) (fs fs' : node) r,
    mkdir_parents rp exist_ok fs = (r, fs') ->
    extends fs fs' /\ (r = Ok tt -> is_dir (rev rp) fs' = true).
Proof.
  induction rp as [|c rp IH]; intros exist_ok fs fs' r; cbn [mkdir_parents].
  - destruct (os_mkdir (rev []) fs) as [fs1|e] eqn:H.
    + destruct (os_mkdir_inv _ _ _ H) as [Hne _]. now destruct Hne.
    + intros Heq.
      assert (Hcase : (r, fs') = (Raise e, fs) \/
                (exist_ok && is_dir (rev []) fs = true /\ (r, fs') = (Ok tt, fs))).
      { destruct e; try (injection Heq as <- <-; now left);
          (destruct (exist_ok && is_dir (rev []) fs) eqn:E; injection Heq as <- <-;
           [right | left]; auto). }
      destruct Hcase as [[= -> ->]|[Hok [= -> ->]]].
      * split; [apply extends_refl | discriminate].
      * split; [apply extends_refl|]. intros _. now apply andb_true_iff in Hok.
  - destruct (os_mkdir (rev (c :: rp)) fs) as [fs1|e] eqn:H.
    + intros [= <- <-]. split; [eapply os_mkdir_extends; eauto|]. intros _.
      destruct (os_mkdir_stat _ _ _ H) as [Hp _]. unfold is_dir. now rewrite Hp.
    + intros Heq.
      assert (Hcase :
        (e = FileNotFoundError /\
         (let! _ := mkdir_parents rp true in mkdir_here (rev (c :: rp)) exist_ok) fs
         = (r, fs')) \/
        (r, fs') = (Raise e, fs) \/
        (exist_ok && is_dir (rev (c :: rp)) fs = true /\ (r, fs') = (Ok tt, fs))).
      { destruct e; try (left; split; [reflexivity | exact Heq]);
          (destruct (exist_ok && is_dir (rev (c :: rp)) fs) eqn:E;
           injection Heq as <- <-; right; [right | left]; auto). }
      destruct Hcase as [[-> Hrec]|[[= -> ->]|[Hok [= -> ->]]]].
      * unfold bind in Hrec.
        destruct (mkdir_parents rp true fs) as [[[]|e1] fs1] eqn:Hp.
        -- destruct (IH _ _ _ _ Hp) as [Hext _].
           destruct (mkdir_here_spec _ _ _ _ _ Hrec) as (Hext' & Hok & _).
           split; [eapply extends_trans; eauto | exact Hok].
        -- injection Hrec as <- <-.
           destruct (IH _ _ _ _ Hp) as [Hext _]. split; [exact Hext | discriminate].
      * split; [apply extends_refl | discriminate].
      * split; [apply extends_refl|]. intros _. now apply andb_true_iff in Hok.
Qed.

Lemma mkdir_spec (p : path) (parents exist_ok : bool) (fs fs' : node) r :
  mkdir p parents exist_ok fs = (r, fs') ->
  extends fs fs' /\ (r = Ok tt -> is_dir p fs' = true).
Proof.
  unfold mkdir. destruct parents.
  - intros H. apply mkdir_parents_spec in H. now rewrite rev_involutive in H.
  - intros H. apply mkdir_here_spec in H. tauto.
Qed.

End Operations.

(** ** Relocation *)

Section Relocation.

Lemma rename_check_inv (rd : path) (fs : node) :
  rename_check rd fs = Ok tt ->
  rd <> [] /\ is_dir rd fs = false /\
  exists es, stat (parent rd) fs = Found (Dir es).
Proof.
  unfold rename_check, is_dir. intros H.
  destruct (stat (parent rd) fs) as [[g|es]| |] eqn:Hd;
    try (destruct (stat rd fs) as [[?|?]| |]; discriminate).
  split; [|split].
  - intros ->. cbn in Hd. injection Hd as ->. cbn in H. discriminate.
  - destruct (stat rd fs) as [[?|?]| |]; congruence.
  - eauto.
Qed.

Lemma rename_to_inv (f : file) (rd : path) (fs fs' : node) :
  rename_to f rd fs = Ok fs' ->
  rd <> [] /\
  exists es, stat (parent rd) fs = Found (Dir es) /\
    fs' = update_dir (parent rd) (set_entry (name rd) (File f)) fs.
Proof.
  unfold rename_to. destruct (rename_check rd fs) as [[]|] eqn:Hc; [|discriminate].
  intros [= <-]. destruct (rename_check_inv _ _ Hc) as (Hne & _ & es & Hd).
  split; [exact Hne|]. exists es. split; [exact Hd | reflexivity].
Qed.

(** The moved file is at its new place, and nothing changes but that
    place. *)
Lemma rename_to_stat (f : file) (rd : path) (fs fs' : node) :
  rename_to f rd fs = Ok fs' ->
  stat rd fs' = Found (File f) /\
  forall q, (forall q', q <> rd ++ q') -> kind (stat q fs') = kind (stat q fs).
Proof.
  intros H. destruct (rename_to_inv _ _ _ _ H) as (Hne & es & Hd & ->).
  pose proof (parent_name rd Hne) as Hpn. split.
  - rewrite Hpn at 1. now rewrite (stat_set_entry_at _ _ _ [] _ es Hd).
  - intros q Hq. apply stat_set_entry_other. intros q' ->.
    apply (Hq q'). rewrite Hpn at 3. now rewrite <- app_assoc.
Qed.

Lemma real_dst_cases (nm : str) (dst rd : path) (fs : node) :
  real_dst nm dst fs = Ok rd -> rd = dst \/ rd = joinpath dst nm.
Proof.
  unfold real_dst. destruct (is_dir dst fs); [|intros [= <-]; now left].
  destruct (exists_ _ fs); [discriminate | intros [= <-]; now right].
Qed.

Lemma move_in_frame (f : file) (nm : str) (target : path) (x : str)
    (fs fs' : node) :
  move_in f nm (joinpath target x) fs = Ok fs' ->
  forall q, outside target q -> kind (stat q fs') = kind (stat q fs).
Proof.
  unfold move_in. destruct (real_dst nm (joinpath target x) fs) as [rd|] eqn:Hrd;
    [|discriminate].
  intros H q Hq. apply (rename_to_stat _ _ _ _ H). intros q' ->.
  destruct (real_dst_cases _ _ _ _ Hrd) as [->| ->]; unfold joinpath in Hq.
  - apply (Hq x q'). now rewrite <- app_assoc.
  - apply (Hq x (nm :: q')). now rewrite <- !app_assoc.
Qed.

Lemma first_free_under (target : path) (h : nat -> str) (fs : node) (fuel : nat) :
  forall (a : str) (i : nat),
    exists x, first_free fuel fs (joinpath target a)
                (fun k => joinpath target (h k)) i = joinpath target x.
Proof.
  induction fuel as [|fuel IH]; intros a i; cbn [first_free].
  - destruct (exists_ _ fs); eauto.
  - destruct (exists_ _ fs); eauto.
Qed.

Lemma move_one_frame (target preview : path) (moved : option str)
    (sf : path * file) (fs fs' : node) r :
  move_one target preview moved sf fs = (r, fs') ->
  forall q, outside target q -> kind (stat q fs') = kind (stat q fs).
Proof.
  unfold move_one, bind, lift, read, step, ret.
  destruct (dest_name_of (fst sf)) as [dest_name|e]; [|intros [= <- <-]; auto].
  match goal with
  | |- context [first_free ?n fs (joinpath target ?a) ?nx ?i] =>
      destruct (first_free_under target
                  (fun k => rsplit1_head "."%char dest_name ++ lit "_"
                            ++ str_of_nat k ++ lower (suffix (fst sf)))
                  fs n a i) as [x Hx]
  end.
  rewrite Hx.
  destruct (move_in (snd sf) (name (fst sf)) (joinpath target x) fs)
    as [fs1|e] eqn:Hmv; intros [= <- <-]; [|auto].
  eapply move_in_frame; eauto.
Qed.

Lemma move_all_frame (target preview : path) (files : list (path * file)) :
  forall (moved : option str) (fs fs' : node) r,
    move_all target preview moved files fs = (r, fs') ->
    forall q, outside target q -> kind (stat q fs') = kind (stat q fs).
Proof.
  induction files as [|sf files IH]; intros moved fs fs' r; cbn [move_all].
  - intros [= <- <-]. auto.
  - unfold bind.
    destruct (move_one target preview moved sf fs) as [[m|e] fs1] eqn:H1.
    + intros H q Hq. rewrite (IH _ _ _ _ H q Hq).
      eapply move_one_frame; eauto.
    + intros [= <- <-]. eapply move_one_frame; eauto.
Qed.

Lemma outside_self (target : path) : outside target target.
Proof.
  intros c q' H. apply (f_equal (@length _)) in H.
  rewrite length_app in H. cbn in H. lia.
Qed.

(** The handler removes the directory, and nothing outside it. *)
Lemma remove_partial_spec (target : path) (fs : node) :
  exists fs',
    remove_partial target fs = (Ok tt, fs') /\
    (forall q, (forall q', q <> target ++ q') ->
       kind (stat q fs') = kind (stat q fs)) /\
    (target <> [] -> is_dir target fs = true -> exists_ target fs' = false) /\
    (exists_ target fs = false -> fs' = fs).
Proof.
  unfold remove_partial. destruct (exists_ target fs) eqn:Hex.
  - unfold rmtree. destruct target as [|c t] eqn:Ht.
    { exists fs. repeat split; auto; try congruence. }
    rewrite <- Ht in *. assert (Hne : target <> []) by (subst; discriminate).
    pose proof (parent_name target Hne) as Hpn.
    destruct (stat target fs) as [[f|es]| |] eqn:Hst.
    + exists fs. repeat split; auto; try discriminate.
      unfold is_dir. rewrite Hst. discriminate.
    + eexists. split; [reflexivity|]. split; [|split; [|discriminate]].
      * intros q Hq. apply stat_del_entry_other. intros q' ->.
        apply (Hq q'). rewrite Hpn at 3. now rewrite <- app_assoc.
      * intros _ _. unfold exists_.
        assert (Hd : exists es', stat (parent target) fs = Found (Dir es')).
        { rewrite Hpn, stat_app in Hst.
          destruct (stat (parent target) fs) as [[?|?]| |]; try discriminate.
          eauto. }
        destruct Hd as [es' Hd]. rewrite Hpn at 1.
        now rewrite (stat_del_entry_at _ _ [] _ es' Hd).
    + unfold exists_ in Hex. now rewrite Hst in Hex.
    + unfold exists_ in Hex. now rewrite Hst in Hex.
  - exists fs. repeat split; auto.
Qed.

Variable upper : str -> str.

(** Whatever relocation returns: nothing outside the directory has
    changed; after an exception the directory is gone; after a return it
    is still there. *)
Lemma relocate_spec (parsed : gmap str str) (target geometry preview : path)
    (files : list (path * file)) (fs fs' : node) r :
  relocate upper parsed target geometry preview files fs = (r, fs') ->
  (forall q, (forall q', q <> target ++ q') ->
     kind (stat q fs') = kind (stat q fs)) /\
  (target <> [] -> is_dir target fs = true ->
     match r with
     | Ok tm => fst tm = target /\ is_dir target fs' = true
     | Raise _ => exists_ target fs' = false
     end).
Proof.
  unfold relocate, try_except, bind.
  destruct (move_all target preview None files fs) as [[moved|e] fs1] eqn:Hmv.
  - pose proof (move_all_frame _ _ _ _ _ _ _ Hmv) as Hframe.
    assert (Hout : forall q, (forall q', q <> target ++ q') -> outside target q).
    { intros q Hq c q'. apply Hq. }
    assert (Hdir : is_dir target fs = true -> is_dir target fs1 = true).
    { intros Hd. rewrite (kind_eq_is_dir target target fs fs1); [exact Hd|].
      apply Hframe, outside_self. }
    assert (Hfail : forall e,
      (let! _ := remove_partial target in raise e) fs1 = (r, fs') ->
      (forall q, (forall q', q <> target ++ q') ->
         kind (stat q fs') = kind (stat q fs)) /\
      (target <> [] -> is_dir target fs = true ->
       match r with
       | Ok tm => fst tm = target /\ is_dir target fs' = true
       | Raise _ => exists_ target fs' = false
       end)).
    { intros e. unfold bind, raise.
      destruct (remove_partial_spec target fs1) as (fs2 & -> & Hk & Hgone & _).
      intros [= <- <-]. split.
      - intros q Hq. rewrite (Hk q Hq). now apply Hframe, Hout.
      - intros Hne Hd. apply Hgone; auto. }
    destruct moved as [[|c nm]|].
    + apply Hfail.
    + unfold lift, ret.
      destruct (build_model_data upper parsed target geometry (c :: nm))
        as [md|e] eqn:Hb.
      * intros [= <- <-]. split.
        -- intros q Hq. now apply Hframe, Hout.
        -- intros _ Hd. split; [reflexivity | now apply Hdir].
      * apply Hfail.
    + apply Hfail.
  - unfold raise.
    destruct (remove_partial_spec target fs1) as (fs2 & -> & Hk & Hgone & _).
    pose proof (move_all_frame _ _ _ _ _ _ _ Hmv) as Hframe.
    intros [= <- <-]. split.
    + intros q Hq. rewrite (Hk q Hq). apply Hframe. intros c q'. apply Hq.
    + intros Hne Hd. apply Hgone; [exact Hne|].
      rewrite (kind_eq_is_dir target target fs fs1); [exact Hd|].
      apply Hframe, outside_self.
Qed.

End Relocation.

(** *** The names of the relocated files *)

Section RelocatedNames.

Lemma split1_app (ch : ascii) (a b : str) :
  split1 ch (a ++ b) =
  if contains ch a
  then (fst (split1 ch a), option_map (fun r => r ++ b) (snd (split1 ch a)))
  else (a ++ fst (split1 ch b), snd (split1 ch b)).
Proof.
  unfold contains. induction a as [|x a IH]; cbn [app split1 existsb].
  - now destruct (split1 ch b).
  - destruct (eqc ch x); cbn [orb]; [reflexivity|].
    rewrite IH. destruct (existsb (eqc ch) a).
    + now destruct (split1 ch a).
    + now destruct (split1 ch b).
Qed.

Lemma contains_rev (ch : ascii) (s : str) : contains ch (rev s) = contains ch s.
Proof.
  unfold contains. induction s as [|x s IH]; [reflexivity|].
  cbn [rev existsb]. rewrite existsb_app, IH. cbn [existsb].
  now rewrite orb_false_r, orb_comm.
Qed.

Lemma split1_none (ch : ascii) (s : str) :
  contains ch s = false -> split1 ch s = (s, None).
Proof.
  unfold contains. induction s as [|x s IH]; cbn [split1 existsb]; [reflexivity|].
  destruct (eqc ch x); cbn [orb]; [discriminate|].
  intros H. now rewrite (IH H).
Qed.

(** The text before the last dot is at least the part that has none. *)
Lemma rsplit1_head_length (s e : str) :
  contains "."%char s = false ->
  (length s <= length (rsplit1_head "."%char (s ++ e)))%nat.
Proof.
  intros Hs. unfold rsplit1_head. rewrite rev_app_distr, split1_app.
  destruct (contains "."%char (rev e)) eqn:He.
  - destruct (split1 "."%char (rev e)) as [a [b|]] eqn:Hsp; cbn [fst snd option_map].
    + rewrite length_rev, length_app, length_rev. lia.
    + rewrite length_app. lia.
  - rewrite (split1_none _ (rev s)) by now rewrite contains_rev.
    cbn [fst snd]. rewrite length_app. lia.
Qed.

Lemma slug_no_dot (x s : str) :
  slugify x = Some s -> contains "."%char s = false.
Proof.
  intros H. pose proof (slugify_chars x s H) as Hall. clear H. unfold contains.
  induction Hall as [|c s Hc _ IH]; [reflexivity|].
  cbn [existsb]. rewrite IH, orb_false_r.
  destruct (eqc "."%char c) eqn:E; [|reflexivity].
  apply eqc_eq in E. subst c. discriminate Hc.
Qed.

(** The names that the loop of [move_one] tries for a file. *)
Definition relocated_name (dest_name ext : str) (k : nat) : str :=
  match k with
  | O => dest_name
  | S _ => rsplit1_head "."%char dest_name ++ lit "_" ++ str_of_nat k ++ ext
  end.

Lemma relocated_name_inj (s ext : str) :
  contains "."%char s = false ->
  forall j k,
    relocated_name (s ++ ext) ext j = relocated_name (s ++ ext) ext k -> j = k.
Proof.
  intros Hs j k. pose proof (rsplit1_head_length s ext Hs) as Hlen.
  destruct j as [|j], k as [|k]; cbn [relocated_name]; intros H.
  - reflexivity.
  - apply (f_equal (@length _)) in H. rewrite !length_app in H.
    cbn [length lit list_ascii_of_string] in H. lia.
  - apply (f_equal (@length _)) in H. rewrite !length_app in H.
    cbn [length lit list_ascii_of_string] in H. lia.
  - apply app_inv_head in H. apply app_inv_head in H.
    apply app_inv_tail in H. now apply str_of_nat_inj.
Qed.

Lemma dest_name_of_inv (src : path) (dest_name : str) :
  dest_name_of src = Ok dest_name ->
  exists s, slugify (stem src) = Some s /\ dest_name = s ++ lower (suffix src).
Proof.
  unfold dest_name_of. destruct (slugify (stem src)) as [s|]; [|discriminate].
  intros [= <-]. eauto.
Qed.

(** A file is moved to a name of the directory that was free, and no
    other entry of the tree changes. *)
Lemma move_one_fresh (target preview : path) (moved : option str)
    (sf : path * file) (fs fs' : node) (m : option str) :
  move_one target preview moved sf fs = (Ok m, fs') ->
  exists x,
    exists_ (joinpath target x) fs = false /\
    stat (joinpath target x) fs' = Found (File (snd sf)) /\
    (forall q, (forall q', q <> joinpath target x ++ q') ->
       kind (stat q fs') = kind (stat q fs)) /\
    m = if path_eqb (fst sf) preview || str_eqb (name (fst sf)) (name preview)
        then Some x else moved.
Proof.
  unfold move_one, bind, lift, read, step, ret.
  destruct (dest_name_of (fst sf)) as [dest_name|e] eqn:Hdn; [|discriminate].
  destruct (dest_name_of_inv _ _ Hdn) as (s & Hs & ->).
  destruct (first_free_spec fs target
              (relocated_name (s ++ lower (suffix (fst sf))) (lower (suffix (fst sf))))
              (relocated_name_inj _ _ (slug_no_dot _ _ Hs))
              (fun k => joinpath target
                 (rsplit1_head "."%char (s ++ lower (suffix (fst sf)))
                  ++ lit "_" ++ str_of_nat k ++ lower (suffix (fst sf)))))
    as (k & Hres & Hfree & _).
  { intros i Hi. destruct i; [lia | reflexivity]. }
  change (relocated_name (s ++ lower (suffix (fst sf))) (lower (suffix (fst sf))) 0)
    with (s ++ lower (suffix (fst sf))) in Hres.
  rewrite Hres.
  set (x := relocated_name _ _ k) in *.
  destruct (move_in (snd sf) (name (fst sf)) (joinpath target x) fs)
    as [fs1|e] eqn:Hmv; [|discriminate].
  intros [= <- <-]. exists x. split; [exact Hfree|].
  unfold move_in, real_dst in Hmv.
  assert (Hnd : is_dir (joinpath target x) fs = false).
  { unfold is_dir, exists_ in *.
    destruct (stat (joinpath target x) fs) as [[?|?]| |]; congruence. }
  rewrite Hnd in Hmv.
  destruct (rename_to_stat _ _ _ _ Hmv) as [Hat Hother].
  rewrite name_joinpath. repeat split; auto.
Qed.

Definition matches_preview (preview : path) (sf : path * file) : bool :=
  path_eqb (fst sf) preview || str_eqb (name (fst sf)) (name preview).

Lemma joinpath_inj (d : path) (x y : str) (q : path) :
  joinpath d x = joinpath d y ++ q -> x = y /\ q = [].
Proof.
  unfold joinpath. rewrite <- app_assoc. intros H. apply app_inv_head in H.
  cbn [app] in H. injection H as -> H. destruct q; [auto | discriminate].
Qed.

(** When all moves succeed, every file is in the directory, and a
    preview name was recorded exactly when some file matched the
    preview. *)
Lemma move_all_done (target preview : path) (files : list (path * file)) :
  forall (moved m : option str) (fs fs1 : node),
    move_all target preview moved files fs = (Ok m, fs1) ->
    (forall x f, stat (joinpath target x) fs = Found (File f) ->
                 stat (joinpath target x) fs1 = Found (File f)) /\
    Forall (fun sf => exists x, stat (joinpath target x) fs1 = Found (File (snd sf)))
           files /\
    (m = None <->
     moved = None /\ Forall (fun sf => matches_preview preview sf = false) files).
Proof.
  induction files as [|sf files IH]; intros moved m fs fs1; cbn [move_all].
  - intros [= <- <-]. repeat split; auto. tauto.
  - unfold bind.
    destruct (move_one target preview moved sf fs) as [[m1|e] fs2] eqn:H1;
      [|discriminate].
    intros H. destruct (IH _ _ _ _ H) as (Hkeep & Hall & Hm).
    destruct (move_one_fresh _ _ _ _ _ _ _ H1) as (x & Hfree & Hat & Hother & Hm1).
    assert (Hkeep1 : forall y f, stat (joinpath target y) fs = Found (File f) ->
                                 stat (joinpath target y) fs2 = Found (File f)).
    { intros y f Hy. apply kind_file. rewrite Hother; [now rewrite Hy|].
      intros q' Hq. apply joinpath_inj in Hq as [-> _].
      unfold exists_ in Hfree. now rewrite Hy in Hfree. }
    split; [auto|]. split.
    + constructor; [|exact Hall]. exists x. now apply Hkeep.
    + rewrite Hm, Hm1. fold (matches_preview preview sf).
      destruct (matches_preview preview sf) eqn:E; split.
      * intros [? _]. discriminate.
      * intros [_ Hf]. inversion Hf; congruence.
      * intros [-> Hf]. auto.
      * intros [-> Hf]. inversion Hf; auto.
Qed.

End RelocatedNames.

Section RelocationClaim.

Variable upper : str -> str.

(** C2. Relocation into an existing directory [target_dir]. When all
    files have been moved (each is then a file of [target_dir]), no
    preview name was recorded exactly when no file matched the preview by
    path or by name, and in that case relocation raises "Failed to detect
    preview file after moving files" and [target_dir] is gone. Whenever
    relocation raises, [target_dir] and all it held are gone from the tree
    and nothing outside it has changed. *)
Theorem relocation_rollback (parsed : gmap str str)
    (target_dir geometry_path preview_path : path)
    (extracted_files : list (path * file)) (fs : node) :
  target_dir <> [] -> is_dir target_dir fs = true ->
  (forall moved fs1,
     move_all target_dir preview_path None extracted_files fs = (Ok moved, fs1) ->
     Forall (fun sf => exists x,
               stat (joinpath target_dir x) fs1 = Found (File (snd sf)))
            extracted_files /\
     (moved = None <->
      Forall (fun sf => matches_preview preview_path sf = false) extracted_files) /\
     (moved = None ->
      exists fs',
        relocate upper parsed target_dir geometry_path preview_path
          extracted_files fs = (Raise (RuntimeError PreviewLost), fs') /\
        exists_ target_dir fs' = false)) /\
  (forall e fs',
     relocate upper parsed target_dir geometry_path preview_path
       extracted_files fs = (Raise e, fs') ->
     exists_ target_dir fs' = false /\
     forall q, (forall q', q <> target_dir ++ q') ->
       kind (stat q fs') = kind (stat q fs)).
Proof.
  intros Hne Hdir. split.
  - intros moved fs1 Hmv.
    destruct (move_all_done _ _ _ _ _ _ _ Hmv) as (_ & Hall & Hm).
    split; [exact Hall|]. split; [rewrite Hm; tauto|].
    intros ->. unfold relocate, try_except, bind. rewrite Hmv.
    unfold raise.
    destruct (remove_partial_spec target_dir fs1) as (fs2 & -> & _ & Hgone & _).
    exists fs2. split; [reflexivity|]. apply Hgone; [exact Hne|].
    rewrite (kind_eq_is_dir target_dir target_dir fs fs1); [exact Hdir|].
    eapply move_all_frame; [exact Hmv | apply outside_self].
  - intros e fs' H.
    destruct (relocate_spec upper _ _ _ _ _ _ _ _ H) as [Hframe Hres].
    split; [now apply Hres | exact Hframe].
Qed.

End RelocationClaim.

(** ** One archive *)

Section OneArchive.

Variable upper : str -> str.

Lemma zip_Some (f : file) (files : list (path * file)) :
  zip f = Some files <-> unzip f = Members files.
Proof.
  unfold zip. destruct (unzip f); split; congruence.
Qed.

Lemma unpack_state (zip_path tmp_base : path) (fs fs' : node) r :
  unpack zip_path tmp_base fs = (r, fs') -> fs' = fs.
Proof.
  unfold unpack, bind, temporary_directory, extract, lift, ret, raise.
  destruct (stat tmp_base fs) as [[?|?]| |]; try (intros [= _ <-]; reflexivity).
  destruct (stat zip_path fs) as [[f|?]| |]; try (intros [= _ <-]; reflexivity).
  destruct (unzip f) as [[|sf files]| |z]; try (intros [= _ <-]; reflexivity).
  destruct (select_metadata zip_path (sf :: files)) as [mf|];
    try (intros [= _ <-]; reflexivity).
  destruct (try_open (snd mf)); try (intros [= _ <-]; reflexivity).
  destruct (parse_metadata_from_text a); intros [= _ <-]; reflexivity.
Qed.

Lemma unpack_ok (zip_path tmp_base : path) (fs fs' : node) files parsed :
  unpack zip_path tmp_base fs = (Ok (files, parsed), fs') ->
  is_dir tmp_base fs = true /\
  exists f mf t,
    stat zip_path fs = Found (File f) /\ zip f = Some files /\ files <> [] /\
    select_metadata zip_path files = Some mf /\ text (snd mf) = Some t /\
    parse_metadata_from_text t = Ok parsed.
Proof.
  unfold unpack, bind, temporary_directory, extract, lift, ret, raise, is_dir.
  destruct (stat tmp_base fs) as [[?|?]| |]; try discriminate.
  destruct (stat zip_path fs) as [[f|?]| |]; try discriminate.
  destruct (unzip f) as [[|sf files']| |z] eqn:Hz; try discriminate.
  destruct (select_metadata zip_path (sf :: files')) as [mf|] eqn:Hsel;
    try discriminate.
  unfold try_open. destruct (text (snd mf)) as [t|] eqn:Ht; try discriminate.
  destruct (parse_metadata_from_text t) as [p|] eqn:Hp; try discriminate.
  intros [= <- <- <-]. split; [reflexivity|].
  exists f, mf, t. unfold zip. rewrite Hz. repeat split; auto.
Qed.

Lemma not_below_fresh (target q : path) (fs : node) :
  exists_ target fs = false -> exists_ q fs = true ->
  forall q', q <> target ++ q'.
Proof.
  intros Ht Hq q' ->. unfold exists_ in *. rewrite stat_app in Hq.
  destruct (stat target fs); congruence.
Qed.

(** What [settle] leaves behind: everything that existed is what it was;
    when it returns, its directory is new and is a directory. *)
Lemma settle_spec (zip_path final_base_dir : path) files parsed (fs fs' : node) r :
  settle upper zip_path final_base_dir files parsed fs = (r, fs') ->
  extends fs fs' /\
  match r with
  | Ok tm => fst tm <> [] /\ exists_ (fst tm) fs = false /\
             is_dir (fst tm) fs' = true
  | Raise _ => True
  end.
Proof.
  unfold settle. cbv zeta.
  destruct (resolve_geometry _ _) as [geometry|];
    [|intros [= <- <-]; split; [apply extends_refl | exact I]].
  destruct (resolve_preview _ _) as [preview|];
    [|intros [= <- <-]; split; [apply extends_refl | exact I]].
  destruct (slugify _) as [slug|];
    [|intros [= <- <-]; split; [apply extends_refl | exact I]].
  unfold bind, read.
  set (target := ensure_unique_dir final_base_dir slug fs).
  destruct (ensure_unique_dir_run final_base_dir slug fs) as (m & Hm & Hfree0 & _).
  assert (Hfree : exists_ target fs = false) by (unfold target; now rewrite Hm).
  assert (Hne : target <> []).
  { unfold target. rewrite Hm. unfold joinpath. now destruct final_base_dir. }
  destruct (mkdir target true false fs) as [[[]|e] fs1] eqn:Hmk.
  - destruct (mkdir_spec _ _ _ _ _ _ Hmk) as [Hext Hdir].
    specialize (Hdir eq_refl). intros Hrel.
    destruct (relocate_spec upper _ _ _ _ _ _ _ _ Hrel) as [Hframe Hres].
    specialize (Hres Hne Hdir).
    assert (Hext' : extends fs fs').
    { intros q Hq. rewrite Hframe; [now apply Hext|].
      now apply (not_below_fresh target q fs). }
    split; [exact Hext'|].
    destruct r as [tm|]; [|exact I].
    destruct Hres as [-> Hd]. auto.
  - intros [= <- <-]. split; [|exact I].
    now destruct (mkdir_spec _ _ _ _ _ _ Hmk).
Qed.

Lemma process_one_zip_spec (zip_path final_base_dir tmp_base : path)
    (fs fs' : node) r :
  process_one_zip upper zip_path final_base_dir tmp_base fs = (r, fs') ->
  extends fs fs' /\
  match r with
  | Ok tm => fst tm <> [] /\ exists_ (fst tm) fs = false /\
             is_dir (fst tm) fs' = true /\
             exists f, stat zip_path fs = Found (File f)
  | Raise _ => True
  end.
Proof.
  unfold process_one_zip, bind.
  destruct (unpack zip_path tmp_base fs) as [[[files parsed]|e] fs1] eqn:Hu.
  - pose proof (unpack_state _ _ _ _ _ Hu) as ->. cbn [fst snd].
    intros Hs. destruct (settle_spec _ _ _ _ _ _ _ Hs) as [Hext Hres].
    split; [exact Hext|]. destruct r as [tm|]; [|exact I].
    destruct Hres as (? & ? & ?). repeat split; auto.
    destruct (unpack_ok _ _ _ _ _ _ Hu) as (_ & f & _ & _ & Hf & _). eauto.
  - pose proof (unpack_state _ _ _ _ _ Hu) as ->.
    intros [= <- <-]. split; [apply extends_refl | exact I].
Qed.

End OneArchive.

(** *** No partial state after a failure *)

Section NoPartialState.

Variable upper : str -> str.

(** [q] is not a proper prefix of [p]. *)
Definition no_ancestor (q p : path) : Prop :=
  forall c q', p <> q ++ c :: q'.

Lemma no_ancestor_parent (q : path) (rp : list str) (c : str) :
  no_ancestor q (rev (c :: rp)) -> q <> rev rp -> no_ancestor q (rev rp).
Proof.
  intros H Hq c' q' Heq. apply (H c' (q' ++ [c])).
  cbn [rev]. rewrite Heq, <- app_assoc. reflexivity.
Qed.

Lemma os_mkdir_frame (p : path) (fs fs' : node) :
  os_mkdir p fs = Ok fs' ->
  forall q, q <> p -> kind (stat q fs') = kind (stat q fs).
Proof. intros H. apply (os_mkdir_stat _ _ _ H). Qed.

Lemma mkdir_here_frame (p : path) (exist_ok : bool) (fs fs' : node) r :
  mkdir_here p exist_ok fs = (r, fs') ->
  forall q, q <> p -> kind (stat q fs') = kind (stat q fs).
Proof.
  unfold mkdir_here. destruct (os_mkdir p fs) as [fs1|e] eqn:H.
  - intros [= <- <-]. now apply os_mkdir_frame.
  - intros Heq q _.
    assert (Hfs : fs' = fs).
    { destruct e; try (now injection Heq as _ <-);
        (destruct (exist_ok && is_dir p fs); now injection Heq as _ <-). }
    now rewrite Hfs.
Qed.

Lemma mkdir_here_raise (p : path) (exist_ok : bool) (fs fs' : node) e :
  mkdir_here p exist_ok fs = (Raise e, fs') -> fs' = fs.
Proof.
  intros H. now apply (mkdir_here_spec _ _ _ _ _ H) with (e := e).
Qed.

(** [mkdir] with [parents] makes the path and its missing ancestors and
    nothing else; when it raises, the path itself is as it was. *)
Lemma mkdir_parents_frame (rp : list str) :
  forall (exist_ok : bool) (fs fs' : node) r,
    mkdir_parents rp exist_ok fs = (r, fs') ->
    forall q, no_ancestor q (rev rp) ->
      (q <> rev rp \/ exists e, r = Raise e) ->
      kind (stat q fs') = kind (stat q fs).
Proof.
  induction rp as [|c rp IH]; intros exist_ok fs fs' r H q Hq Hself.
  - cbn [mkdir_parents] in H.
    destruct (os_mkdir (rev []) fs) as [fs1|e] eqn:Hmk.
    + destruct (os_mkdir_inv _ _ _ Hmk) as [Hne _]. now destruct Hne.
    + assert (Hfs : fs' = fs).
      { destruct e; try (now injection H as _ <-);
          (destruct (exist_ok && is_dir (rev []) fs); now injection H as _ <-). }
      now rewrite Hfs.
  - cbn [mkdir_parents] in H.
    destruct (os_mkdir (rev (c :: rp)) fs) as [fs1|e] eqn:Hmk.
    + injection H as <- <-. apply (os_mkdir_frame _ _ _ Hmk).
      destruct Hself as [Hne|[e He]]; [exact Hne | discriminate].
    + assert (Hcase :
        (e = FileNotFoundError /\
         (let! _ := mkdir_parents rp true in mkdir_here (rev (c :: rp)) exist_ok) fs
         = (r, fs')) \/ fs' = fs).
      { destruct e; try (left; split; [reflexivity | exact H]);
          right; try (now injection H as _ <-);
          (destruct (exist_ok && is_dir (rev (c :: rp)) fs);
           now injection H as _ <-). }
      destruct Hcase as [[-> Hrec]| ->]; [|reflexivity].
      unfold bind in Hrec.
      assert (Hqp : q <> rev rp).
      { intros ->. apply (Hq c []). reflexivity. }
      destruct (mkdir_parents rp true fs) as [[[]|e1] fs1] eqn:Hp.
      * rewrite <- (IH _ _ _ _ Hp q (no_ancestor_parent _ _ _ Hq Hqp) (or_introl Hqp)).
        destruct r as [[]|e2].
        -- destruct Hself as [Hne|[e He]]; [|discriminate].
           now apply (mkdir_here_frame _ _ _ _ _ Hrec).
        -- now rewrite (mkdir_here_raise _ _ _ _ _ Hrec).
      * injection Hrec as <- <-.
        apply (IH _ _ _ _ Hp q (no_ancestor_parent _ _ _ Hq Hqp) (or_introl Hqp)).
Qed.

Lemma mkdir_frame (p : path) (parents exist_ok : bool) (fs fs' : node) r :
  mkdir p parents exist_ok fs = (r, fs') ->
  forall q, no_ancestor q p -> (q <> p \/ exists e, r = Raise e) ->
    kind (stat q fs') = kind (stat q fs).
Proof.
  unfold mkdir. destruct parents; intros H q Hq Hself.
  - apply (mkdir_parents_frame _ _ _ _ _ H); now rewrite rev_involutive.
  - destruct Hself as [Hne|[e ->]].
    + now apply (mkdir_here_frame _ _ _ _ _ H).
    + now rewrite (mkdir_here_raise _ _ _ _ _ H).
Qed.

Lemma no_ancestor_sibling (base : path) (c x : str) :
  no_ancestor (joinpath base c) (joinpath base x).
Proof.
  intros c' q' H. apply (f_equal (@length _)) in H.
  unfold joinpath in H. rewrite !length_app in H. cbn in H. lia.
Qed.

(** When [process_one_zip] raises, the output directory has the entries
    it had: the model directory that was being filled is not among
    them. *)
Lemma process_one_zip_no_partial (zip_path final_base_dir tmp_base : path)
    (fs fs' : node) (e : exn) :
  process_one_zip upper zip_path final_base_dir tmp_base fs = (Raise e, fs') ->
  forall c, exists_ (joinpath final_base_dir c) fs'
            = exists_ (joinpath final_base_dir c) fs.
Proof.
  unfold process_one_zip, bind.
  destruct (unpack zip_path tmp_base fs) as [[[files parsed]|e0] fs0] eqn:Hu;
    pose proof (unpack_state _ _ _ _ _ Hu) as ->;
    [|intros [= _ <-]; reflexivity].
  cbn [fst snd]. unfold settle. cbv zeta.
  destruct (resolve_geometry _ _) as [geometry|]; [|intros [= _ <-]; reflexivity].
  destruct (resolve_preview _ _) as [preview|]; [|intros [= _ <-]; reflexivity].
  destruct (slugify _) as [slug|]; [|intros [= _ <-]; reflexivity].
  unfold bind, read.
  destruct (ensure_unique_dir_run final_base_dir slug fs) as (m & Hm & Hfree & _).
  rewrite Hm. set (x := dir_name slug m) in *.
  destruct (mkdir (joinpath final_base_dir x) true false fs) as [[[]|e1] fs1] eqn:Hmk.
  - intros Hrel c.
    destruct (mkdir_spec _ _ _ _ _ _ Hmk) as [_ Hdir]. specialize (Hdir eq_refl).
    destruct (relocate_spec upper _ _ _ _ _ _ _ _ Hrel) as [Hframe Hres].
    assert (Hne : joinpath final_base_dir x <> [])
      by (unfold joinpath; now destruct final_base_dir).
    specialize (Hres Hne Hdir). cbn in Hres.
    destruct (str_eqb c x) eqn:Hcx.
    + apply str_eqb_eq in Hcx. subst c. now rewrite Hres, Hfree.
    + apply str_eqb_neq in Hcx. apply kind_eq_exists.
      rewrite Hframe.
      * apply (mkdir_frame _ _ _ _ _ _ Hmk).
        -- apply no_ancestor_sibling.
        -- left. unfold joinpath. intros H.
           apply app_inv_head in H. congruence.
      * intros q' H. unfold joinpath in H. rewrite <- app_assoc in H.
        apply app_inv_head in H. cbn in H. congruence.
  - intros [= _ <-] c. apply kind_eq_exists.
    apply (mkdir_frame _ _ _ _ _ _ Hmk).
    + apply no_ancestor_sibling.
    + right. eauto.
Qed.

End NoPartialState.

(** ** The batch *)

Section Batch.

Variable upper : str -> str.
Variable db : Type.
Variable run_schema : M db unit.
Variable run_insert : model_data -> M db Z.

Lemma for_each_cons {S A} (f : A -> M S unit) (a : A) (l : list A) (s s' : S) :
  f a s = (Ok tt, s') -> for_each f (a :: l) s = for_each f l s'.
Proof. intros H. cbn [for_each]. unfold bind. now rewrite H. Qed.

(** C1. When relocation of an archive has succeeded and [insert_model]
    raises, the orchestrator removes the directory that relocation
    created and does nothing else: the archive is still the file it was,
    at the place where it was, no exception leaves the loop body, and the
    loop goes on with the next archive. *)
Theorem persist_failure_rolls_back
    (input_dir final_base_dir tmp_base zp : path) (rest : list path)
    (w : world db) (target_dir : path) (md : model_data) (fs1 : node)
    (db_exc : exn) (db1 : db) :
  process_one_zip upper zp final_base_dir tmp_base (fs w) = (Ok (target_dir, md), fs1) ->
  insert_model db run_insert md (store w) = (Raise db_exc, db1) ->
  exists fs2,
    remove_partial target_dir fs1 = (Ok tt, fs2) /\
    process_zip upper db run_insert input_dir final_base_dir tmp_base zp w
    = (Ok tt, {| fs := fs2; store := db1 |}) /\
    is_dir target_dir fs1 = true /\
    exists_ target_dir fs2 = false /\
    (forall q, (forall q', q <> target_dir ++ q') ->
       kind (stat q fs2) = kind (stat q fs1)) /\
    (exists f, stat zp (fs w) = Found (File f) /\ stat zp fs2 = Found (File f)) /\
    for_each (process_zip upper db run_insert input_dir final_base_dir tmp_base) (zp :: rest) w
    = for_each (process_zip upper db run_insert input_dir final_base_dir tmp_base) rest
        {| fs := fs2; store := db1 |}.
Proof.
  intros Hone Hins.
  destruct (process_one_zip_spec upper _ _ _ _ _ _ Hone)
    as (Hext & Hne & Hfresh & Hdir & f & Hzp).
  cbn [fst] in *.
  destruct (remove_partial_spec target_dir fs1) as (fs2 & Hrm & Hframe & Hgone & _).
  exists fs2.
  assert (Hbody : process_zip upper db run_insert input_dir final_base_dir tmp_base zp w
                  = (Ok tt, {| fs := fs2; store := db1 |})).
  { unfold process_zip, try_except, bind, on_fs, on_store, ret.
    rewrite Hone. cbn [fst snd fs store]. rewrite Hins.
    cbn [fst snd fs store]. now rewrite Hrm. }
  split; [exact Hrm|]. split; [exact Hbody|]. split; [exact Hdir|].
  split; [now apply Hgone|]. split; [exact Hframe|]. split.
  - exists f. split; [exact Hzp|].
    pose proof (extends_file _ _ _ _ Hext Hzp) as Hzp1.
    apply kind_file. rewrite Hframe; [now rewrite Hzp1|].
    apply (not_below_fresh target_dir zp (fs w)); [exact Hfresh|].
    unfold exists_. now rewrite Hzp.
  - now apply for_each_cons.
Qed.

End Batch.

(** ** The failed area *)

Section FailedArea.

Variable db : Type.

Definition failed_dir_of (input_dir : path) : path := joinpath input_dir (lit "_failed").

(** The failed area can be used: it is a directory, or it is missing in a
    directory [input_dir]. *)
Definition failed_area_usable (input_dir : path) (fs : node) : Prop :=
  is_dir (failed_dir_of input_dir) fs = true \/
  (stat (failed_dir_of input_dir) fs = Missing /\ is_dir input_dir fs = true).

Lemma mkdir_failed_ok (input_dir : path) (fs : node) :
  failed_area_usable input_dir fs ->
  exists fs1,
    mkdir (failed_dir_of input_dir) false true fs = (Ok tt, fs1) /\
    extends fs fs1 /\ is_dir (failed_dir_of input_dir) fs1 = true /\
    forall nm, is_dir (joinpath (failed_dir_of input_dir) nm) fs = false ->
               is_dir (joinpath (failed_dir_of input_dir) nm) fs1 = false.
Proof.
  unfold mkdir, mkdir_here.
  intros [Hd|[Hm Hin]].
  - exists fs. unfold os_mkdir. unfold is_dir in *.
    destruct (stat (failed_dir_of input_dir) fs) as [[?|es]| |] eqn:Hst;
      try discriminate.
    cbn [andb]. repeat split; auto using extends_refl.
  - destruct (os_mkdir (failed_dir_of input_dir) fs) as [fs1|e] eqn:Hmk.
    + exists fs1. destruct (os_mkdir_stat _ _ _ Hmk) as [Hat _].
      split; [reflexivity|]. split; [eapply os_mkdir_extends; eauto|].
      split; [unfold is_dir; now rewrite Hat|].
      intros nm _. unfold is_dir, joinpath. now rewrite stat_app, Hat.
    + exfalso. unfold os_mkdir in Hmk. rewrite Hm in Hmk.
      unfold failed_dir_of in Hmk. rewrite parent_joinpath in Hmk.
      unfold is_dir in Hin.
      destruct (stat input_dir fs) as [[?|?]| |]; discriminate.
Qed.

(** The archive ends in the failed area whenever that area can be used
    and no directory stands where the archive is to go. *)
Lemma route_failed_moves (input_dir zp : path) (w : world db) (f : file) :
  stat zp (fs w) = Found (File f) ->
  failed_area_usable input_dir (fs w) ->
  is_dir (joinpath (failed_dir_of input_dir) (name zp)) (fs w) = false ->
  exists fs',
    route_failed db input_dir zp w = (Ok tt, {| fs := fs'; store := store w |}) /\
    stat (joinpath (failed_dir_of input_dir) (name zp)) fs' = Found (File f).
Proof.
  intros Hzp Huse Hfree.
  destruct (mkdir_failed_ok _ _ Huse) as (fs1 & Hmk & Hext & Hfd & Hkeep).
  specialize (Hkeep _ Hfree).
  pose proof (extends_file _ _ _ _ Hext Hzp) as Hzp1.
  unfold route_failed, bind, try_except, on_fs, step, ret.
  fold (failed_dir_of input_dir). rewrite Hmk. cbn [fs store].
  set (rd := joinpath (failed_dir_of input_dir) (name zp)) in *.
  unfold shutil_move. rewrite Hzp1. unfold real_dst. rewrite Hkeep.
  destruct (path_eqb zp rd) eqn:Heq.
  - apply path_eqb_eq in Heq. exists fs1. split; [reflexivity|]. now rewrite <- Heq.
  - assert (Hzne : zp <> []).
    { intros ->. cbn in Hzp1. injection Hzp1 as ->.
      unfold is_dir, failed_dir_of, joinpath in Hfd. destruct input_dir; discriminate. }
    pose proof (parent_name zp Hzne) as Hpn.
    set (fs2 := update_dir (parent zp) (del_entry (name zp)) fs1).
    assert (Hbelow : forall q q', q = parent zp ++ name zp :: q' -> q = zp ++ q').
    { intros q q' ->. rewrite Hpn at 3. now rewrite <- app_assoc. }
    assert (Hpar : is_dir (failed_dir_of input_dir) fs2 = true).
    { rewrite (kind_eq_is_dir _ (failed_dir_of input_dir) fs1 fs2); [exact Hfd|].
      apply stat_del_entry_other. intros q' Hq. apply Hbelow in Hq.
      unfold is_dir in Hfd. rewrite Hq, stat_app, Hzp1 in Hfd.
      destruct q'; discriminate. }
    fold fs2.
    assert (Hp2 : parent rd = failed_dir_of input_dir) by apply parent_joinpath.
    assert (Hcheck : rename_check rd fs1 = Ok tt).
    { unfold rename_check. rewrite Hp2. unfold is_dir in Hfd, Hkeep.
      destruct (stat (failed_dir_of input_dir) fs1) as [[?|es]| |] eqn:Hst;
        try discriminate.
      assert (Hcase : stat rd fs1 = Missing \/ exists n, stat rd fs1 = Found n).
      { unfold rd, joinpath. rewrite stat_app, Hst. cbn [stat].
        destruct (lookup_entry _ es); eauto. }
      destruct Hcase as [Hc|[n Hc]]; rewrite Hc in *; [reflexivity|].
      destruct n; [reflexivity | discriminate]. }
    rewrite Hcheck. eexists. split; [reflexivity|].
    unfold is_dir in Hpar.
    destruct (stat (failed_dir_of input_dir) fs2) as [[?|es2]| |] eqn:Hst2;
      try discriminate.
    unfold enter_file. rewrite Hp2. unfold rd at 2. rewrite name_joinpath.
    unfold rd, joinpath.
    now rewrite (stat_set_entry_at _ _ _ [] _ es2 Hst2).
Qed.

(** A plain file called [_failed] makes the handler itself raise. *)
Lemma route_failed_raises (input_dir zp : path) (w : world db) :
  is_file (failed_dir_of input_dir) (fs w) = true ->
  route_failed db input_dir zp w = (Raise FileExistsError, w).
Proof.
  intros H. unfold route_failed, bind, on_fs, mkdir, mkdir_here, os_mkdir.
  fold (failed_dir_of input_dir). unfold is_file, is_dir in *.
  destruct (stat (failed_dir_of input_dir) (fs w)) as [[g|?]| |]; try discriminate.
  cbn. now destruct w.
Qed.

End FailedArea.

(** ** A small store and some archives *)

Module Demo.

(** The table [Model] as the list of its rows, with the [UNIQUE]
    constraint on [model_name]. *)
Definition table := list model_data.

Definition schema : M table unit := ret tt.

Definition insert (md : model_data) : M table Z :=
  fun rows =>
    if existsb (fun r => str_eqb (model_name r) (model_name md)) rows
    then (Raise (DatabaseError (lit "duplicate key value")), rows)
    else (Ok (Z.of_nat (length rows) + 1)%Z, rows ++ [md]).

(** [str.upper] on ASCII text. *)
Definition ascii_upper (s : str) : str :=
  map (fun c => if between 97 122 (code c) then ascii_of_N (code c - 32) else c) s.

Definition P (segments : list string) : path := map lit segments.

Definition lines (l : list string) : str :=
  concat (map (fun s => lit s ++ ["010"%char]) l).

Definition binary : file := mk_file None NotAZip.
Definition text_file (l : list string) : file := mk_file (Some (lines l)) NotAZip.
Definition archive (members : list (path * file)) : file :=
  mk_file None (Members members).

Definition cube_txt : file :=
  text_file ["#GeometryFile: cube.obj"; "#PreviewFile: cube.jpg";
             "#NumberOfPolygons: 1200"; "#DateOfDownload: 01.02.2023"].

Definition cube_zip : file :=
  archive [(P ["cube.obj"], binary); (P ["cube.jpg"], binary);
           (P ["cube.txt"], cube_txt)].

(** The polygon count is no number. *)
Definition poly_zip : file :=
  archive [(P ["ball.obj"], binary); (P ["ball.png"], binary);
           (P ["ball.txt"], text_file ["#NumberOfPolygons: abc"])].

(** The metadata file is no UTF-8 text. *)
Definition latin_zip : file :=
  archive [(P ["cone.obj"], binary); (P ["cone.jpg"], binary);
           (P ["cone.txt"], binary)].

Definition input_dir : path := P ["data"; "download"].
Definition output_dir : path := P ["data"; "models"].
Definition tmp_dir : path := P ["model_import_tmp"].

Definition tree (download : list (str * node)) (models : list (str * node)) : node :=
  Dir [(lit "data", Dir [(lit "download", Dir download); (lit "models", Dir models)]);
       (lit "model_import_tmp", Dir [])].

Definition cube_row : model_data :=
  {| model_name := lit "cube"; format := lit "OBJ"; source_url := None;
     download_date := None; created_by := None; created_in := None;
     uploaded_by := None; model_description := None;
     polygon_count := None; preview_file := lit "old.jpg" |}.

Definition w_cube : world table :=
  {| fs := tree [(lit "cube.zip", File cube_zip)] []; store := [] |}.

(** The store already has a model called [cube]. *)
Definition w_dup : world table :=
  {| fs := tree [(lit "cube.zip", File cube_zip)] []; store := [cube_row] |}.

(** A plain file stands where the failed area should be. *)
Definition w_blocked : world table :=
  {| fs := tree [(lit "_failed", File binary); (lit "bad.zip", File binary);
                 (lit "cube.zip", File cube_zip)] [];
     store := [] |}.

Definition w_bad : world table :=
  {| fs := tree [(lit "bad.zip", File binary); (lit "cube.zip", File cube_zip)] [];
     store := [] |}.

Definition w_poly : world table :=
  {| fs := tree [(lit "poly.zip", File poly_zip)] []; store := [] |}.

Definition w_latin : world table :=
  {| fs := tree [(lit "latin.zip", File latin_zip)] []; store := [] |}.

Definition w_taken : world table :=
  {| fs := tree [] [(lit "cube", Dir []); (lit "cube_1", Dir []);
                    (lit "cube_2", File binary)];
     store := [] |}.

(** A plain file stands where the failed area should be, beside an
    archive whose metadata file is no UTF-8 text. *)
Definition w_unread : world table :=
  {| fs := tree [(lit "_failed", File binary); (lit "latin.zip", File latin_zip)] [];
     store := [] |}.



Definition run (w : world table) : result unit * world table :=
  process_all_zips ascii_upper table schema insert input_dir output_dir tmp_dir w.

Definition one (zip_name : string) (w : world table)
  : result (path * model_data) * node :=
  process_one_zip ascii_upper (joinpath input_dir (lit zip_name))
    output_dir tmp_dir (fs w).

End Demo.

Section DemoFacts.

Import Demo.

(** The archive of the spec's example: one record called [cube], format
    [OBJ], 1200 polygons, downloaded on 2023-02-01, preview [cube.jpg];
    the files are in [data/models/cube] and the archive is in the
    processed area. *)
Example ingest_cube :
  let '(r, w) := run w_cube in
  r = Ok tt /\
  map (fun row => (model_name row, format row, polygon_count row,
                   download_date row, preview_file row)) (store w)
  = [(lit "cube", lit "OBJ", Some 1200%Z, Some (mk_date 2023 2 1), lit "cube.jpg")] /\
  is_file (output_dir ++ P ["cube"; "cube.obj"]) (fs w) = true /\
  is_file (output_dir ++ P ["cube"; "cube.jpg"]) (fs w) = true /\
  is_file (output_dir ++ P ["cube"; "cube.txt"]) (fs w) = true /\
  exists_ (input_dir ++ P ["cube.zip"]) (fs w) = false /\
  is_file (input_dir ++ P ["_processed"; "cube.zip"]) (fs w) = true.
Proof. vm_compute. repeat split; reflexivity. Qed.

(** A later invocation finds the processed archive again and ingests it
    a second time, as [cube_1]. *)
Example processed_archive_is_rediscovered :
  let w1 := snd (run w_cube) in
  discover input_dir (fs w1) = [input_dir ++ P ["_processed"; "cube.zip"]] /\
  map model_name (store (snd (run w1))) = [lit "cube"; lit "cube_1"].
Proof. vm_compute. split; reflexivity. Qed.

End DemoFacts.

(** ** Archives that fail *)

Section FailingArchives.

Variable upper : str -> str.
Variable db : Type.
Variable run_schema : M db unit.
Variable run_insert : model_data -> M db Z.

(** A failure of [process_one_zip] takes the loop body to its handler. *)
Lemma process_zip_handles (input_dir final_base_dir tmp_base zp : path)
    (w : world db) (e : exn) :
  process_one_zip upper zp final_base_dir tmp_base (fs w) = (Raise e, fs w) ->
  process_zip upper db run_insert input_dir final_base_dir tmp_base zp w
  = route_failed db input_dir zp w.
Proof.
  intros H. unfold process_zip, try_except, bind, on_fs at 1. rewrite H.
  now destruct w.
Qed.

(** A file that is no zip archive fails with "Bad zip file". *)
Lemma corrupt_archive_fails (zp final_base_dir tmp_base : path) (fs : node) (f : file) :
  is_dir tmp_base fs = true -> stat zp fs = Found (File f) -> unzip f = NotAZip ->
  process_one_zip upper zp final_base_dir tmp_base fs
  = (Raise (RuntimeError BadZipFile), fs).
Proof.
  intros Ht Hz Hf.
  unfold process_one_zip, unpack, bind, temporary_directory, extract.
  unfold is_dir in Ht. destruct (stat tmp_base fs) as [[?|?]| |]; try discriminate.
  now rewrite Hz, Hf.
Qed.

(** Where the failed area can be used, a corrupt archive is moved there
    and the loop goes on. *)
Lemma corrupt_archive_routed (input_dir final_base_dir tmp_base zp : path)
    (rest : list path) (w : world db) (f : file) :
  is_dir tmp_base (fs w) = true -> stat zp (fs w) = Found (File f) ->
  unzip f = NotAZip ->
  failed_area_usable input_dir (fs w) ->
  is_dir (joinpath (failed_dir_of input_dir) (name zp)) (fs w) = false ->
  exists fs',
    stat (joinpath (failed_dir_of input_dir) (name zp)) fs' = Found (File f) /\
    for_each (process_zip upper db run_insert input_dir final_base_dir tmp_base)
      (zp :: rest) w
    = for_each (process_zip upper db run_insert input_dir final_base_dir tmp_base)
        rest {| fs := fs'; store := store w |}.
Proof.
  intros Ht Hz Hf Huse Hfree.
  destruct (route_failed_moves db input_dir zp w f Hz Huse Hfree) as (fs' & Hr & Hat).
  exists fs'. split; [exact Hat|]. apply for_each_cons.
  rewrite (process_zip_handles _ _ _ _ _ (RuntimeError BadZipFile)); [exact Hr|].
  now apply corrupt_archive_fails with (f := f).
Qed.

(** Where a plain file is called [_failed], a corrupt archive makes
    [FileExistsError] leave the loop: the archives after it are not
    processed. *)
Lemma corrupt_archive_escapes (input_dir final_base_dir tmp_base zp : path)
    (rest : list path) (w : world db) (f : file) :
  is_dir tmp_base (fs w) = true -> stat zp (fs w) = Found (File f) ->
  unzip f = NotAZip ->
  is_file (failed_dir_of input_dir) (fs w) = true ->
  for_each (process_zip upper db run_insert input_dir final_base_dir tmp_base)
    (zp :: rest) w
  = (Raise FileExistsError, w).
Proof.
  intros Ht Hz Hf Hfile. cbn [for_each]. unfold bind.
  rewrite (process_zip_handles _ _ _ _ _ (RuntimeError BadZipFile));
    [|now apply corrupt_archive_fails with (f := f)].
  now rewrite route_failed_raises.
Qed.

(** A metadata file that cannot be opened and decoded makes [try_open]
    raise [TypeError]; [process_one_zip] raises it for the archive and
    leaves the tree as it was; the loop body runs its handler for failed
    archives and nothing else; and where the failed area can be used the
    archive ends there. *)
Lemma undecodable_metadata_aborts (input_dir final_base_dir tmp_base zp : path)
    (w : world db) (f : file) (files : list (path * file)) (mf : path * file) :
  is_dir tmp_base (fs w) = true ->
  stat zp (fs w) = Found (File f) -> zip f = Some files ->
  select_metadata zp files = Some mf -> text (snd mf) = None ->
  try_open (snd mf) = Raise TypeError /\
  process_one_zip upper zp final_base_dir tmp_base (fs w) = (Raise TypeError, fs w) /\
  process_zip upper db run_insert input_dir final_base_dir tmp_base zp w
  = route_failed db input_dir zp w /\
  (failed_area_usable input_dir (fs w) ->
   is_dir (joinpath (failed_dir_of input_dir) (name zp)) (fs w) = false ->
   exists fs',
     process_zip upper db run_insert input_dir final_base_dir tmp_base zp w
     = (Ok tt, {| fs := fs'; store := store w |}) /\
     stat (joinpath (failed_dir_of input_dir) (name zp)) fs' = Found (File f)).
Proof.
  intros Ht Hz Hf Hsel Htext.
  assert (Hopen : try_open (snd mf) = Raise TypeError)
    by (unfold try_open; now rewrite Htext).
  assert (Hone : process_one_zip upper zp final_base_dir tmp_base (fs w)
                 = (Raise TypeError, fs w)).
  { unfold process_one_zip, unpack, bind, temporary_directory, extract, lift.
    unfold is_dir in Ht.
    destruct (stat tmp_base (fs w)) as [[?|?]| |]; try discriminate.
    rewrite Hz, (proj1 (zip_Some _ _) Hf).
    destruct files as [|sf files']; [discriminate|].
    now rewrite Hsel, Hopen. }
  pose proof (process_zip_handles input_dir _ _ _ _ _ Hone) as Hbody.
  repeat split; auto.
  intros Huse Hfree. rewrite Hbody. now apply route_failed_moves.
Qed.

(** A value of [NumberOfPolygons] that is no number makes the record
    builder raise. *)
Lemma build_model_data_raises (parsed : gmap str str) (target geometry : path)
    (moved : str) (e : exn) :
  to_polygon_count (parsed !! lit "NumberOfPolygons") = Raise e ->
  build_model_data upper parsed target geometry moved = Raise e.
Proof. intros H. unfold build_model_data, field. cbv zeta. now rewrite H. Qed.

End FailingArchives.

Section PolygonCount.

(** The three ways the polygon count goes well. *)
Lemma polygon_count_unset : to_polygon_count None = Ok None /\ to_polygon_count (Some []) = Ok None.
Proof. split; reflexivity. Qed.

Lemma polygon_count_integer (s : str) :
  s <> [] -> forallb is_ascii_digit s = true -> (length s <= 4300)%nat ->
  to_polygon_count (Some s) = Ok (Some (digits_val s)).
Proof.
  intros Hne Hd Hlen. destruct s as [|c s']; [congruence|].
  unfold to_polygon_count.
  assert (Hdig : isdigit (c :: s') = true).
  { unfold isdigit. rewrite forallb_forall in *. intros x Hx.
    specialize (Hd x Hx). unfold is_ascii_digit in Hd. unfold isdigit_char.
    now rewrite Hd. }
  rewrite Hdig. unfold int_of_str. rewrite Hd.
  apply Nat.leb_le in Hlen. now rewrite Hlen.
Qed.

Example polygon_count_examples :
  to_polygon_count (Some (lit "1200")) = Ok (Some 1200%Z) /\
  to_polygon_count (Some (lit "12.7")) = Ok (Some 12%Z) /\
  to_polygon_count (Some (lit "-3.9e2")) = Ok (Some (-390)%Z) /\
  to_polygon_count (Some (lit "1e23")) = Ok (Some 99999999999999991611392%Z) /\
  to_polygon_count (Some (lit "inf")) = Raise OverflowError /\
  to_polygon_count (Some (lit "1,200")) = Raise ValueError /\
  to_polygon_count (Some ("160"%char :: lit "1.5")) = Ok (Some 1%Z) /\
  to_polygon_count (Some ("028"%char :: lit "1.5")) = Raise ValueError.
Proof. vm_compute. repeat split; reflexivity. Qed.

End PolygonCount.

Section FailingInputs.

Import Demo.

(** C4: the code at an archive whose metadata says
    [#NumberOfPolygons: abc]. [to_polygon_count] raises [ValueError], so
    [process_one_zip] raises it, the model directory is removed again, no
    row is inserted, and the archive goes to the failed area. *)
Theorem malformed_polygon_count_raises :
  to_polygon_count (Some (lit "abc")) = Raise ValueError /\
  fst (one "poly.zip" w_poly) = Raise ValueError /\
  exists_ (output_dir ++ P ["ball"]) (snd (one "poly.zip" w_poly)) = false /\
  exists_ (output_dir ++ P ["poly"]) (snd (one "poly.zip" w_poly)) = false /\
  store (snd (run w_poly)) = [] /\
  is_file (input_dir ++ P ["_failed"; "poly.zip"]) (fs (snd (run w_poly))) = true.
Proof. vm_compute. repeat split; reflexivity. Qed.

(** C3: the code at a download directory that holds a plain file called
    [_failed], a corrupt [bad.zip] and a good [cube.zip].
    [process_all_zips] raises [FileExistsError]; [bad.zip] is not in a
    failed area and [cube.zip] has not been processed. *)
Theorem corrupt_archive_stops_batch :
  discover input_dir (fs w_blocked)
  = [input_dir ++ P ["bad.zip"]; input_dir ++ P ["cube.zip"]] /\
  fst (one "bad.zip" w_blocked) = Raise (RuntimeError BadZipFile) /\
  fst (run w_blocked) = Raise FileExistsError /\
  is_file (input_dir ++ P ["bad.zip"]) (fs (snd (run w_blocked))) = true /\
  is_file (input_dir ++ P ["cube.zip"]) (fs (snd (run w_blocked))) = true /\
  store (snd (run w_blocked)) = [].
Proof. vm_compute. repeat split; reflexivity. Qed.

(** C10: the code at a download directory that holds a plain file called
    [_failed] and an archive [latin.zip] whose metadata file is no UTF-8
    text. [try_open] raises [TypeError] and [process_one_zip] raises it
    for the archive, but the archive is not routed to the failed area:
    the handler's [mkdir] raises [FileExistsError], which leaves
    [process_all_zips], and [latin.zip] is where it was. The defect is
    that of C3. *)
Theorem undecodable_archive_stays :
  try_open binary = Raise TypeError /\
  fst (one "latin.zip" w_unread) = Raise TypeError /\
  fst (run w_unread) = Raise FileExistsError /\
  is_file (input_dir ++ P ["latin.zip"]) (fs (snd (run w_unread))) = true /\
  exists_ (input_dir ++ P ["_failed"; "latin.zip"]) (fs (snd (run w_unread))) = false /\
  is_file (input_dir ++ P ["_failed"]) (fs (snd (run w_unread))) = true.
Proof. vm_compute. repeat split; reflexivity. Qed.

(** Without that file the same batch goes through: [bad.zip] is moved to
    the failed area and [cube.zip] is ingested. *)
Example corrupt_archive_is_set_aside :
  fst (run w_bad) = Ok tt /\
  is_file (input_dir ++ P ["_failed"; "bad.zip"]) (fs (snd (run w_bad))) = true /\
  is_file (input_dir ++ P ["_processed"; "cube.zip"]) (fs (snd (run w_bad))) = true /\
  map model_name (store (snd (run w_bad))) = [lit "cube"].
Proof. vm_compute. repeat split; reflexivity. Qed.

End FailingInputs.

(** ** Dates *)

Section DateFacts.

Local Open Scope Z_scope.

(** The character of a decimal digit. *)
Definition digit_char (n : Z) : ascii := ascii_of_N (Z.to_N (48 + n)).

(** A number written with two digits, and a year written with four. *)
Definition pad2 (n : Z) : str := [digit_char (n / 10); digit_char (n mod 10)].

Definition pad4 (n : Z) : str :=
  [digit_char (n / 1000); digit_char (n / 100 mod 10);
   digit_char (n / 10 mod 10); digit_char (n mod 10)].

(** A day or a month is written with two digits, or, below ten, with its
    one digit alone. *)
Definition number_text (n : Z) (t : str) : Prop :=
  t = pad2 n \/ (n <= 9 /\ t = [digit_char n]).

Definition separator (sep : ascii) : Prop :=
  sep = "."%char \/ sep = "/"%char \/ sep = "-"%char.

(** Day, month and four-digit year, in that order, with [sep] between
    them. *)
Definition date_text (sep : ascii) (d : date) (t : str) : Prop :=
  exists dt mt,
    number_text (day d) dt /\ number_text (month d) mt /\
    t = dt ++ sep :: mt ++ sep :: pad4 (year d).

(** A date of the calendar of [datetime.date]. *)
Definition valid_date (d : date) : Prop :=
  1 <= year d <= 9999 /\ 1 <= month d <= 12 /\
  1 <= day d <= days_in_month (year d) (month d).

Ltac dlia := Z.div_mod_to_equations; lia.

Ltac upto d :=
  destruct d as [|d|d]; try lia;
  do 5 (try (destruct d as [d|d|]; try lia)).

Lemma digit_char_facts (n : Z) :
  0 <= n <= 9 ->
  digit_val (digit_char n) = n /\ is_ascii_digit (digit_char n) = true /\
  isspace (digit_char n) = false.
Proof. intros H. upto n; repeat split; reflexivity. Qed.

Lemma digit_char_of (a : ascii) :
  is_ascii_digit a = true ->
  a = digit_char (digit_val a) /\ 0 <= digit_val a <= 9.
Proof.
  unfold is_ascii_digit, between, digit_char, digit_val, code.
  intros H. apply andb_true_iff in H as [H1 H2].
  apply N.leb_le in H1, H2. split; [|lia].
  replace (48 + (Z.of_N (N_of_ascii a) - 48)) with (Z.of_N (N_of_ascii a)) by lia.
  now rewrite N2Z.id, ascii_N_embedding.
Qed.

Lemma in_range_digit (lo hi : N) (a : ascii) :
  in_range lo hi a = true -> (48 <= lo)%N -> (hi <= 57)%N ->
  is_ascii_digit a = true /\ Z.of_N lo - 48 <= digit_val a <= Z.of_N hi - 48.
Proof.
  unfold in_range, is_ascii_digit, between, digit_val.
  intros H Hlo Hhi. apply andb_true_iff in H as [H1 H2].
  apply N.leb_le in H1, H2. split; [|lia].
  apply andb_true_iff. split; apply N.leb_le; lia.
Qed.

Lemma is_char_digit (n : N) (a : ascii) :
  is_char n a = true -> (48 <= n <= 57)%N ->
  is_ascii_digit a = true /\ digit_val a = Z.of_N n - 48.
Proof.
  unfold is_char, is_ascii_digit, between, digit_val.
  intros H Hn. apply N.eqb_eq in H. rewrite H. split; [|reflexivity].
  apply andb_true_iff. split; apply N.leb_le; lia.
Qed.

Lemma two_of (a b : ascii) :
  is_ascii_digit a = true -> is_ascii_digit b = true ->
  [a; b] = pad2 (two_digits a b).
Proof.
  intros Ha Hb. destruct (digit_char_of a Ha) as [Ea Ra].
  destruct (digit_char_of b Hb) as [Eb Rb].
  unfold pad2, two_digits.
  replace ((10 * digit_val a + digit_val b) / 10) with (digit_val a)
    by dlia.
  replace ((10 * digit_val a + digit_val b) mod 10) with (digit_val b)
    by dlia.
  congruence.
Qed.

Lemma alt2_In pa pb (s : str) v r :
  In (v, r) (alt2 pa pb s) ->
  exists a b, s = a :: b :: r /\ pa a = true /\ pb b = true /\ v = two_digits a b.
Proof.
  unfold alt2. destruct s as [|a [|b s']]; try (intros []).
  destruct (pa a) eqn:Ea; [|intros []].
  destruct (pb b) eqn:Eb; [|intros []].
  cbn. intros [[= <- <-]|[]]. exists a, b. auto.
Qed.

Lemma alt1_In pa (s : str) v r :
  In (v, r) (alt1 pa s) -> exists a, s = a :: r /\ pa a = true /\ v = digit_val a.
Proof.
  unfold alt1. destruct s as [|a s']; try (intros []).
  destruct (pa a) eqn:Ea; [|intros []].
  intros [[= <- <-]|[]]. exists a. auto.
Qed.

Lemma one_digit (lo hi : N) (a : ascii) :
  in_range lo hi a = true -> (49 <= lo)%N -> (hi <= 57)%N ->
  number_text (digit_val a) [a] /\ 1 <= digit_val a <= 9.
Proof.
  intros H Hlo Hhi.
  destruct (in_range_digit _ _ _ H ltac:(lia) Hhi) as [Hd Hr].
  destruct (digit_char_of a Hd) as [Ea _].
  split; [|lia]. right. split; [lia | congruence].
Qed.

(** What [%d] matched is a day from 1 to 31 as it is written. *)
Lemma day_alts_In (s : str) (v : Z) (r : str) :
  head_ok s -> In (v, r) (day_alts s) ->
  exists dt, s = dt ++ r /\ number_text v dt /\ 1 <= v <= 31.
Proof.
  intros Hhead Hin. unfold day_alts in Hin.
  repeat (apply in_app_or in Hin as [Hin|Hin]).
  - apply alt2_In in Hin as (a & b & -> & Ha & Hb & ->).
    destruct (is_char_digit _ _ Ha ltac:(lia)) as [Da Va].
    destruct (in_range_digit _ _ _ Hb ltac:(lia) ltac:(lia)) as [Db Vb].
    exists [a; b]. split; [reflexivity|]. split; [left; now apply two_of|].
    unfold two_digits. lia.
  - apply alt2_In in Hin as (a & b & -> & Ha & Hb & ->).
    destruct (in_range_digit _ _ _ Ha ltac:(lia) ltac:(lia)) as [Da Va].
    destruct (digit_char_of b Hb) as [_ Vb].
    exists [a; b]. split; [reflexivity|]. split; [left; now apply two_of|].
    unfold two_digits. lia.
  - apply alt2_In in Hin as (a & b & -> & Ha & Hb & ->).
    destruct (is_char_digit _ _ Ha ltac:(lia)) as [Da Va].
    destruct (in_range_digit _ _ _ Hb ltac:(lia) ltac:(lia)) as [Db Vb].
    exists [a; b]. split; [reflexivity|]. split; [left; now apply two_of|].
    unfold two_digits. lia.
  - apply alt1_In in Hin as (a & -> & Ha & ->).
    destruct (one_digit _ _ _ Ha ltac:(lia) ltac:(lia)) as [Ht Hr].
    exists [a]. split; [reflexivity|]. split; [exact Ht | lia].
  - exfalso. destruct s as [|sp s']; [destruct Hin|].
    destruct (is_char 32 sp) eqn:Esp; [|destruct Hin].
    cbn [head_ok] in Hhead. unfold is_char in Esp. apply N.eqb_eq in Esp.
    unfold isspace in Hhead. rewrite Esp in Hhead. discriminate Hhead.
Qed.

Lemma month_alts_In (s : str) (v : Z) (r : str) :
  In (v, r) (month_alts s) ->
  exists mt, s = mt ++ r /\ number_text v mt /\ 1 <= v <= 12.
Proof.
  intros Hin. unfold month_alts in Hin.
  repeat (apply in_app_or in Hin as [Hin|Hin]).
  - apply alt2_In in Hin as (a & b & -> & Ha & Hb & ->).
    destruct (is_char_digit _ _ Ha ltac:(lia)) as [Da Va].
    destruct (in_range_digit _ _ _ Hb ltac:(lia) ltac:(lia)) as [Db Vb].
    exists [a; b]. split; [reflexivity|]. split; [left; now apply two_of|].
    unfold two_digits. lia.
  - apply alt2_In in Hin as (a & b & -> & Ha & Hb & ->).
    destruct (is_char_digit _ _ Ha ltac:(lia)) as [Da Va].
    destruct (in_range_digit _ _ _ Hb ltac:(lia) ltac:(lia)) as [Db Vb].
    exists [a; b]. split; [reflexivity|]. split; [left; now apply two_of|].
    unfold two_digits. lia.
  - apply alt1_In in Hin as (a & -> & Ha & ->).
    destruct (one_digit _ _ _ Ha ltac:(lia) ltac:(lia)) as [Ht Hr].
    exists [a]. split; [reflexivity|]. split; [exact Ht | lia].
Qed.

Lemma digits_val_four (a b c e : ascii) :
  digits_val [a; b; c; e]
  = 1000 * digit_val a + 100 * digit_val b + 10 * digit_val c + digit_val e.
Proof. unfold digits_val. cbn [fold_left]. lia. Qed.

Lemma year4_Some (s : str) (y : Z) (r : str) :
  year4 s = Some (y, r) -> s = pad4 y ++ r /\ 0 <= y <= 9999.
Proof.
  unfold year4. destruct s as [|a [|b [|c [|e s']]]]; try discriminate.
  destruct (forallb is_ascii_digit [a; b; c; e]) eqn:H; [|discriminate].
  intros [= <- <-]. cbn [forallb] in H.
  repeat (apply andb_true_iff in H as [? H]).
  destruct (digit_char_of a) as [Ea Ra]; [assumption|].
  destruct (digit_char_of b) as [Eb Rb]; [assumption|].
  destruct (digit_char_of c) as [Ec Rc]; [assumption|].
  destruct (digit_char_of e) as [Ee Re]; [assumption|].
  rewrite digits_val_four.
  set (y := 1000 * digit_val a + 100 * digit_val b + 10 * digit_val c + digit_val e).
  split; [|lia]. unfold pad4. cbn [app].
  replace (y / 1000) with (digit_val a) by (unfold y; dlia).
  replace (y / 100 mod 10) with (digit_val b) by (unfold y; dlia).
  replace (y / 10 mod 10) with (digit_val c) by (unfold y; dlia).
  replace (y mod 10) with (digit_val e) by (unfold y; dlia).
  congruence.
Qed.

Lemma year4_four (y : Z) (r : str) :
  0 <= y <= 9999 -> year4 (pad4 y ++ r) = Some (y, r).
Proof.
  intros Hy. unfold pad4. cbn [app year4 forallb].
  destruct (digit_char_facts (y / 1000)) as (Va & -> & _); [dlia|].
  destruct (digit_char_facts (y / 100 mod 10)) as (Vb & -> & _); [dlia|].
  destruct (digit_char_facts (y / 10 mod 10)) as (Vc & -> & _); [dlia|].
  destruct (digit_char_facts (y mod 10)) as (Ve & -> & _); [dlia|].
  cbn [andb]. rewrite digits_val_four, Va, Vb, Vc, Ve.
  do 2 f_equal. dlia.
Qed.

Lemma first_match_Some {A B} (f : A -> option B) (l : list A) (b : B) :
  first_match f l = Some b -> exists a, In a l /\ f a = Some b.
Proof.
  induction l as [|a l IH]; cbn [first_match]; [discriminate|].
  destruct (f a) as [b'|] eqn:E.
  - intros [= <-]. exists a. split; [now left | exact E].
  - intros H. destruct (IH H) as (a' & Hin & Ha'). exists a'. split; [now right | exact Ha'].
Qed.

Lemma expect_Some (sep : ascii) (s r : str) :
  expect sep s = Some r -> s = sep :: r.
Proof.
  unfold expect. destruct s as [|c s']; [discriminate|].
  destruct (eqc sep c) eqn:E; [|discriminate].
  apply eqc_eq in E. now intros [= <-]; subst.
Qed.

(** What the pattern of a format matched. *)
Lemma match_format_Some (sep : ascii) (s : str) d m y r :
  head_ok s -> match_format sep s = Some (d, m, y, r) ->
  exists dt mt,
    number_text d dt /\ number_text m mt /\
    s = dt ++ sep :: mt ++ sep :: pad4 y ++ r /\
    1 <= d <= 31 /\ 1 <= m <= 12 /\ 0 <= y <= 9999.
Proof.
  intros Hhead H. unfold match_format in H.
  apply first_match_Some in H as ([dv r1] & Hd & H).
  destruct (expect sep r1) as [r2|] eqn:E1; [|discriminate].
  apply first_match_Some in H as ([mv r3] & Hm & H).
  destruct (expect sep r3) as [r4|] eqn:E2; [|discriminate].
  destruct (year4 r4) as [[yv r5]|] eqn:E3; [|discriminate].
  injection H as -> -> -> ->.
  apply expect_Some in E1, E2. subst r1 r3.
  apply year4_Some in E3 as [-> Hy].
  destruct (day_alts_In _ _ _ Hhead Hd) as (dt & -> & Hdt & Hdr).
  destruct (month_alts_In _ _ _ Hm) as (mt & -> & Hmt & Hmr).
  exists dt, mt. repeat split; auto; lia.
Qed.

Lemma strptime_Ok (sep : ascii) (s : str) (d : date) :
  head_ok s -> strptime sep s = Ok d -> valid_date d /\ date_text sep d s.
Proof.
  intros Hhead. unfold strptime.
  destruct (match_format sep s) as [[[[dv mv] yv] r]|] eqn:H; [|discriminate].
  destruct r; [|discriminate].
  destruct ((1 <=? yv) && (dv <=? days_in_month yv mv)) eqn:Hc; [|discriminate].
  intros [= <-]. apply andb_true_iff in Hc as [Hy Hdim].
  apply Z.leb_le in Hy, Hdim.
  destruct (match_format_Some _ _ _ _ _ _ Hhead H)
    as (dt & mt & Hdt & Hmt & -> & Hdr & Hmr & Hyr).
  split.
  - unfold valid_date. cbn [year month day]. lia.
  - exists dt, mt. cbn [year month day]. rewrite app_nil_r. auto.
Qed.

Lemma try_formats_Some (seps : list ascii) (s : str) (d : date) :
  try_formats seps s = Some d -> exists sep, In sep seps /\ strptime sep s = Ok d.
Proof.
  induction seps as [|sep seps IH]; cbn [try_formats]; [discriminate|].
  destruct (strptime sep s) as [dt|e] eqn:E.
  - intros [= <-]. exists sep. split; [now left | exact E].
  - intros H. destruct (IH H) as (sep' & Hin & Hs). exists sep'. split; [now right | exact Hs].
Qed.

Lemma parse_date_Some (date_str : str) (d : date) :
  parse_date date_str = Some d ->
  date_str <> [] /\ valid_date d /\
  exists sep, separator sep /\ date_text sep d (strip date_str).
Proof.
  unfold parse_date. destruct date_str as [|c s]; [discriminate|].
  intros H. split; [discriminate|].
  apply try_formats_Some in H as (sep & Hin & H).
  destruct (strip_trimmed (c :: s)) as [Hhead _].
  apply strptime_Ok in H as [Hv Ht]; [|exact Hhead].
  split; [exact Hv|]. exists sep. split; [|exact Ht].
  unfold separator. cbn in Hin. intuition.
Qed.

(** X1. Whatever [parse_date] returns is a date of the calendar: a year
    from 1 to 9999, a month from 1 to 12 and a day that this month has in
    this year. *)
Theorem parse_date_valid (date_str : str) (d : date) :
  parse_date date_str = Some d -> valid_date d.
Proof. intros H. now apply parse_date_Some in H. Qed.

(** X2. [parse_date] reads nothing but day, month and a year of four
    digits, in that order, with one of [.], [/] and [-] between them all:
    when it returns a date, the text without the blanks around it is that
    date written so. *)
Theorem parse_date_shape (date_str : str) (d : date) :
  parse_date date_str = Some d ->
  exists sep, separator sep /\ date_text sep d (strip date_str).
Proof. intros H. now apply parse_date_Some in H. Qed.

(** *** The texts that are read *)

Lemma first_match_head {A B} (f : A -> option B) (a : A) (l : list A) (b : B) :
  f a = Some b -> first_match f (a :: l) = Some b.
Proof. intros H. cbn [first_match]. now rewrite H. Qed.

Lemma expect_same (sep : ascii) (r : str) : expect sep (sep :: r) = Some r.
Proof. unfold expect. now rewrite eqc_refl. Qed.

(** The first way in which [%d] matches a day as it is written is that
    day. *)
Lemma day_alts_head (d : Z) (dt : str) (sep : ascii) (r : str) :
  1 <= d <= 31 -> number_text d dt -> separator sep ->
  exists more, day_alts (dt ++ sep :: r) = (d, sep :: r) :: more.
Proof.
  intros Hd [->|[H9 ->]] [->|[->| ->]]; upto d;
    eexists; vm_compute; reflexivity.
Qed.

Lemma month_alts_head (m : Z) (mt : str) (sep : ascii) (r : str) :
  1 <= m <= 12 -> number_text m mt -> separator sep ->
  exists more, month_alts (mt ++ sep :: r) = (m, sep :: r) :: more.
Proof.
  intros Hm [->|[H9 ->]] [->|[->| ->]]; upto m;
    eexists; vm_compute; reflexivity.
Qed.

Lemma match_format_text (sep : ascii) (d m y : Z) (dt mt r : str) :
  1 <= d <= 31 -> 1 <= m <= 12 -> 0 <= y <= 9999 ->
  number_text d dt -> number_text m mt -> separator sep ->
  match_format sep (dt ++ sep :: mt ++ sep :: pad4 y ++ r) = Some (d, m, y, r).
Proof.
  intros Hd Hm Hy Hdt Hmt Hsep. unfold match_format.
  destruct (day_alts_head d dt sep (mt ++ sep :: pad4 y ++ r) Hd Hdt Hsep)
    as [more ->].
  apply first_match_head. rewrite expect_same.
  destruct (month_alts_head m mt sep (pad4 y ++ r) Hm Hmt Hsep) as [more' ->].
  apply first_match_head. rewrite expect_same.
  now rewrite year4_four.
Qed.

(** A format with another separator does not match. *)
Lemma match_format_other (sep sep' : ascii) (d : Z) (dt r : str) :
  1 <= d <= 31 -> number_text d dt -> separator sep -> separator sep' ->
  sep <> sep' -> match_format sep' (dt ++ sep :: r) = None.
Proof.
  intros Hd [->|[H9 ->]] [->|[->| ->]] [->|[->| ->]] Hne;
    try congruence; upto d; vm_compute; reflexivity.
Qed.

Lemma strptime_text (sep : ascii) (d : date) (t : str) :
  valid_date d -> separator sep -> date_text sep d t -> strptime sep t = Ok d.
Proof.
  intros (Hy & Hm & Hd) Hsep (dt & mt & Hdt & Hmt & ->).
  destruct d as [y m dd]. cbn [year month day] in *.
  assert (Hdim : days_in_month y m <= 31).
  { unfold days_in_month.
    repeat match goal with |- context [if ?b then _ else _] => destruct b end; lia. }
  unfold strptime.
  rewrite <- (app_nil_r (pad4 y)).
  rewrite (match_format_text sep dd m y dt mt []) by (auto; lia).
  replace (1 <=? y) with true by (symmetry; apply Z.leb_le; lia).
  replace (dd <=? days_in_month y m) with true by (symmetry; apply Z.leb_le; lia).
  reflexivity.
Qed.

Lemma strptime_other (sep sep' : ascii) (d : date) (t : str) :
  valid_date d -> separator sep -> separator sep' -> sep <> sep' ->
  date_text sep d t -> strptime sep' t = Raise ValueError.
Proof.
  intros (Hy & Hm & Hd) Hsep Hsep' Hne (dt & mt & Hdt & Hmt & ->).
  assert (Hdim : days_in_month (year d) (month d) <= 31).
  { unfold days_in_month.
    repeat match goal with |- context [if ?b then _ else _] => destruct b end; lia. }
  unfold strptime.
  now rewrite (match_format_other sep sep' (day d) dt) by (auto; lia).
Qed.

Lemma try_formats_text (sep : ascii) (d : date) (t : str) :
  valid_date d -> separator sep -> date_text sep d t ->
  try_formats ["."%char; "/"%char; "-"%char] t = Some d.
Proof.
  intros Hv Hsep Ht. cbn [try_formats].
  assert (Hdot : separator "."%char) by (left; reflexivity).
  assert (Hsl : separator "/"%char) by (right; left; reflexivity).
  destruct Hsep as [->|[->| ->]].
  - now rewrite (strptime_text _ _ _ Hv Hdot Ht).
  - rewrite (strptime_other "/"%char "."%char d t) by (auto; discriminate).
    now rewrite (strptime_text _ _ _ Hv Hsl Ht).
  - rewrite (strptime_other "-"%char "."%char d t)
      by (auto; try discriminate; right; right; reflexivity).
    rewrite (strptime_other "-"%char "/"%char d t)
      by (auto; try discriminate; right; right; reflexivity).
    rewrite (strptime_text "-"%char d t); auto. right; right; reflexivity.
Qed.

(** Blanks around a text that has none at its ends are all that [strip]
    removes. *)
Lemma strip_around (pre post t : str) :
  Forall (fun c => isspace c = true) pre ->
  Forall (fun c => isspace c = true) post ->
  t <> [] -> trimmed t -> strip (pre ++ t ++ post) = t.
Proof.
  intros Hpre Hpost Hne [Hh Ht]. unfold strip, lstrip, rstrip.
  rewrite !rev_app_distr, <- app_assoc.
  destruct (rev t) as [|c u] eqn:Er.
  { apply (f_equal (@length _)) in Er. rewrite length_rev in Er.
    destruct t; [congruence | discriminate]. }
  cbn [head_ok] in Ht. cbn [app].
  rewrite dropwhile_app_stop; [|now apply Forall_rev | exact Ht].
  change (c :: u ++ rev pre) with ((c :: u) ++ rev pre).
  rewrite <- Er, rev_app_distr, !rev_involutive.
  destruct t as [|c' t']; [congruence|]. cbn [head_ok] in Hh.
  now rewrite dropwhile_app_stop.
Qed.

Lemma number_text_digits (n : Z) (t : str) :
  0 <= n <= 99 -> number_text n t ->
  t <> [] /\ Forall (fun c => isspace c = false) t.
Proof.
  intros Hn [->|[H9 ->]]; (split; [discriminate|]); unfold pad2;
    repeat constructor; apply digit_char_facts; dlia.
Qed.

Lemma date_text_trimmed (sep : ascii) (d : date) (t : str) :
  valid_date d -> date_text sep d t -> t <> [] /\ trimmed t.
Proof.
  intros (Hy & Hm & Hd) (dt & mt & Hdt & Hmt & ->).
  assert (Hdim : days_in_month (year d) (month d) <= 31).
  { unfold days_in_month.
    repeat match goal with |- context [if ?b then _ else _] => destruct b end; lia. }
  destruct (number_text_digits (day d) dt ltac:(lia) Hdt) as [Hne Hall].
  split; [now destruct dt|]. split.
  - destruct dt as [|c dt']; [congruence|]. cbn [app head_ok].
    now inversion Hall.
  - rewrite rev_app_distr. cbn [rev]. rewrite rev_app_distr. cbn [rev pad4 app].
    cbn [head_ok]. apply digit_char_facts. dlia.
Qed.

(** X3. A date of the calendar written as day, month and four-digit
    year, each of day and month with two digits or with its one digit
    alone, with the same one of [.], [/] and [-] after day and month, is
    read as that date, day first; blanks before and after the text do
    not matter. *)
Theorem parse_date_accepts (sep : ascii) (d : date) (t pre post : str) :
  valid_date d -> separator sep -> date_text sep d t ->
  Forall (fun c => isspace c = true) pre ->
  Forall (fun c => isspace c = true) post ->
  parse_date (pre ++ t ++ post) = Some d.
Proof.
  intros Hv Hsep Ht Hpre Hpost.
  destruct (date_text_trimmed _ _ _ Hv Ht) as [Hne Htr].
  unfold parse_date.
  destruct (pre ++ t ++ post) as [|c s] eqn:E.
  { apply app_eq_nil in E as [_ E]. apply app_eq_nil in E as [E _]. congruence. }
  rewrite <- E, strip_around by assumption.
  now apply try_formats_text with (sep := sep).
Qed.

End DateFacts.

(** ** The geometry file and the metadata file *)

Section Selection.

Variable upper : str -> str.

(** The file has one of the geometry extensions, in any case of
    letters. *)
Definition is_geometry (p : path) : bool := mem (lower (suffix p)) GEOM_EXTS.

(** X4. With a hint that is the name of an extracted file, the geometry
    file is the first file of that name, whatever its extension.
    Otherwise it is the first file with one of the extensions [.obj],
    [.fbx], [.gltf] and [.3ds]; and when there is none, the archive fails
    with "No geometry file found" and the tree is as it was. *)
Theorem geometry_resolution (geom_file_name : option str) (files : list path) :
  (forall h, geom_file_name = Some h -> h <> [] ->
     Exists (fun q => named h q = true) files ->
     exists p, resolve_geometry geom_file_name files = Some p /\
               first_such (named h) files p) /\
  ((truthy geom_file_name = false \/
    Forall (fun q => named (default [] geom_file_name) q = false) files) ->
   resolve_geometry geom_file_name files = find_geometry_file files /\
   (Exists (fun q => is_geometry q = true) files ->
      exists p, resolve_geometry geom_file_name files = Some p /\
                first_such is_geometry files p) /\
   (Forall (fun q => is_geometry q = false) files ->
      resolve_geometry geom_file_name files = None)) /\
  (forall zip_path final_base_dir extracted_files parsed fs,
     files = map fst extracted_files ->
     geom_file_name = field parsed "GeometryFile" ->
     resolve_geometry geom_file_name files = None ->
     settle upper zip_path final_base_dir extracted_files parsed fs
     = (Raise (RuntimeError NoGeometry), fs)).
Proof.
  split; [|split].
  - intros h -> Hh Hex. unfold resolve_geometry.
    assert (Ht : truthy (Some h) = true) by (destruct h; [congruence | reflexivity]).
    rewrite Ht. simpl default. unfold find_named. fold (named h).
    destruct (find_exists _ _ Hex) as [p Hp]. rewrite Hp.
    exists p. split; [reflexivity | now apply find_first_such].
  - intros Hno.
    assert (E : resolve_geometry geom_file_name files = find_geometry_file files).
    { unfold resolve_geometry. destruct (truthy geom_file_name) eqn:Ht; [|reflexivity].
      destruct Hno as [Hno|Hno]; [discriminate|].
      unfold find_named. fold (named (default [] geom_file_name)).
      now rewrite (find_none_all _ _ Hno). }
    rewrite E. split; [reflexivity|]. unfold find_geometry_file. fold is_geometry.
    split.
    + intros H. destruct (find_exists _ _ H) as [p Hp]. rewrite Hp.
      exists p. split; [reflexivity | now apply find_first_such].
    + intros H. now apply find_none_all.
  - intros zip_path final_base_dir extracted_files parsed fs -> -> Hg.
    unfold settle. cbv zeta. now rewrite Hg.
Qed.

(** The [.txt] files of an archive, in the order of the listing. *)
Definition txt_files (extracted_files : list (path * file)) : list (path * file) :=
  List.filter (fun pf => is_txt (fst pf)) extracted_files.

(** The file is named like the archive, without regard to the extension
    and to the case of letters. *)
Definition named_like (zip_path : path) (pf : path * file) : bool :=
  str_eqb (lower (stem (fst pf))) (lower (stem zip_path)).

Lemma filter_nil_Forall {A} (f : A -> bool) (l : list A) :
  List.filter f l = [] <-> Forall (fun x => f x = false) l.
Proof.
  induction l as [|x l IH]; cbn [List.filter].
  - split; [constructor | reflexivity].
  - destruct (f x) eqn:E.
    + split; [discriminate|]. intros H. inversion H; congruence.
    + rewrite IH. split; [now constructor | intros H; now inversion H].
Qed.

Lemma select_metadata_eq (zip_path : path) (extracted_files : list (path * file)) :
  select_metadata zip_path extracted_files =
  match List.find (named_like zip_path) (txt_files extracted_files) with
  | Some pf => Some pf
  | None => head (txt_files extracted_files)
  end.
Proof.
  unfold select_metadata. cbv zeta. fold (txt_files extracted_files).
  fold (named_like zip_path).
  destruct (txt_files extracted_files) as [|first rest]; reflexivity.
Qed.

Lemma select_metadata_None (zip_path : path) (extracted_files : list (path * file)) :
  select_metadata zip_path extracted_files = None <->
  Forall (fun pf => is_txt (fst pf) = false) extracted_files.
Proof.
  rewrite select_metadata_eq. split.
  - destruct (List.find _ _) as [pf|] eqn:E; [discriminate|].
    intros H0. apply (filter_nil_Forall (fun pf => is_txt (fst pf))).
    fold (txt_files extracted_files).
    now destruct (txt_files extracted_files).
  - intros H. apply (filter_nil_Forall (fun pf => is_txt (fst pf))) in H.
    fold (txt_files extracted_files) in H. now rewrite H.
Qed.

(** X5. The metadata file is one of the [.txt] files of the archive: the
    first one named like the archive when there is one, else the first
    one of all. An archive that is empty fails with "No files found", one
    without a [.txt] file with "No metadata .txt found", and both leave
    the tree as it was. *)
Theorem metadata_selection (zip_path : path) (extracted_files : list (path * file)) :
  (Exists (fun pf => named_like zip_path pf = true) (txt_files extracted_files) ->
     exists mf, select_metadata zip_path extracted_files = Some mf /\
                first_such (named_like zip_path) (txt_files extracted_files) mf) /\
  (Forall (fun pf => named_like zip_path pf = false) (txt_files extracted_files) ->
     select_metadata zip_path extracted_files = head (txt_files extracted_files)) /\
  (forall mf, select_metadata zip_path extracted_files = Some mf ->
     In mf extracted_files /\ is_txt (fst mf) = true) /\
  (select_metadata zip_path extracted_files = None <->
     Forall (fun pf => is_txt (fst pf) = false) extracted_files) /\
  (forall tmp_base fs f,
     is_dir tmp_base fs = true -> stat zip_path fs = Found (File f) ->
     zip f = Some extracted_files ->
     (extracted_files = [] ->
        unpack zip_path tmp_base fs = (Raise (RuntimeError NoFilesFound), fs)) /\
     (extracted_files <> [] -> select_metadata zip_path extracted_files = None ->
        unpack zip_path tmp_base fs = (Raise (RuntimeError NoMetadata), fs))).
Proof.
  split; [|split; [|split; [|split]]].
  - rewrite select_metadata_eq.
    intros H. destruct (find_exists _ _ H) as [mf Hmf]. rewrite Hmf.
    exists mf. split; [reflexivity | now apply find_first_such].
  - rewrite select_metadata_eq. intros H. now rewrite (find_none_all _ _ H).
  - rewrite select_metadata_eq. intros mf Hmf.
    assert (Hin : In mf (txt_files extracted_files)).
    { destruct (List.find _ _) as [pf|] eqn:E.
      - injection Hmf as <-. now apply find_some in E.
      - destruct (txt_files extracted_files) as [|x l]; [discriminate|].
        injection Hmf as <-. now left. }
    unfold txt_files in Hin. now apply filter_In in Hin.
  - apply select_metadata_None.
  - intros tmp_base fs f Ht Hz Hf.
    assert (Hun : unpack zip_path tmp_base fs =
                  match extracted_files with
                  | [] => (Raise (RuntimeError NoFilesFound), fs)
                  | _ =>
                      match select_metadata zip_path extracted_files with
                      | None => (Raise (RuntimeError NoMetadata), fs)
                      | Some mf => unpack zip_path tmp_base fs
                      end
                  end).
    { unfold unpack, bind, temporary_directory, extract, raise.
      unfold is_dir in Ht. destruct (stat tmp_base fs) as [[?|?]| |]; try discriminate.
      rewrite Hz, (proj1 (zip_Some _ _) Hf).
      destruct extracted_files; [reflexivity|].
      now destruct (select_metadata zip_path _). }
    split.
    + intros ->. exact Hun.
    + intros Hne Hsel. rewrite Hun, Hsel. now destruct extracted_files.
Qed.

End Selection.

(** ** Names *)

Section Names.

(** A character of a slug is no blank, no dot and no newline. *)
Lemma slug_char_plain (c : ascii) :
  is_slug_char c = true ->
  isspace c = false /\ eqc " "%char c = false /\ eqc "."%char c = false /\
  (code c =? 10)%N = false.
Proof.
  destruct c as [[] [] [] [] [] [] [] []]; vm_compute; intros H;
    repeat split; congruence.
Qed.

Lemma filter_id {A} (f : A -> bool) (l : list A) :
  Forall (fun x => f x = true) l -> List.filter f l = l.
Proof.
  induction 1 as [|x l Hx _ IH]; cbn [List.filter]; [reflexivity|].
  now rewrite Hx, IH.
Qed.

Lemma replace_char_id (a b : ascii) (s : str) :
  Forall (fun c => eqc a c = false) s -> replace_char a b s = s.
Proof.
  unfold replace_char. induction 1 as [|x l Hx _ IH]; cbn [map]; [reflexivity|].
  now rewrite Hx, IH.
Qed.

(** After the class characters at the end of a slug there is no dot. *)
Lemma match_ext_rev_slug (r : str) :
  Forall (fun c => is_slug_char c = true) r -> match_ext_rev r = None.
Proof.
  intros Hall. unfold match_ext_rev.
  destruct (dropwhile is_alnum r) as [|dot p] eqn:E; [reflexivity|].
  assert (Hin : In dot r).
  { apply (In_dropwhile is_alnum). rewrite E. now left. }
  rewrite List.Forall_forall in Hall.
  destruct (slug_char_plain dot (Hall dot Hin)) as (_ & _ & Hdot & _).
  now rewrite Hdot.
Qed.

Lemma strip_ext_slug (s : str) :
  Forall (fun c => is_slug_char c = true) s -> strip_ext s = s.
Proof.
  intros Hall. unfold strip_ext.
  rewrite match_ext_rev_slug by now apply Forall_rev.
  destruct (rev s) as [|nl r'] eqn:E; [reflexivity|].
  assert (Hin : In nl s) by (apply in_rev; rewrite E; now left).
  rewrite List.Forall_forall in Hall.
  destruct (slug_char_plain nl (Hall nl Hin)) as (_ & _ & _ & Hnl).
  now rewrite Hnl.
Qed.

Lemma strip_slug (s : str) :
  Forall (fun c => is_slug_char c = true) s -> strip s = s.
Proof.
  intros Hall. apply trimmed_strip. rewrite List.Forall_forall in Hall. split.
  - destruct s as [|c s']; [exact I|]. cbn [head_ok].
    apply slug_char_plain, Hall. now left.
  - destruct (rev s) as [|c r] eqn:E; [exact I|]. cbn [head_ok].
    apply slug_char_plain, Hall, in_rev. rewrite E. now left.
Qed.

(** X6. A slug is its own slug: [slugify] changes nothing in a text
    that it returned. *)
Theorem slugify_idempotent (name s : str) :
  slugify name = Some s -> slugify s = Some s.
Proof.
  intros H. pose proof (slugify_chars _ _ H) as Hall.
  assert (Hlen : (length s <= 150)%nat /\ s <> []).
  { destruct name as [|c0 n0]; [discriminate|]. unfold slugify in H.
    injection H as <-. split; [apply firstn_le_length|].
    destruct (List.filter is_slug_char _); [discriminate|].
    apply firstn_nonempty. discriminate. }
  destruct Hlen as [Hlen Hne].
  destruct s as [|c s']; [congruence|]. unfold slugify.
  rewrite strip_slug, strip_ext_slug by exact Hall.
  rewrite replace_char_id.
  - rewrite filter_id by exact Hall. now rewrite firstn_all2.
  - eapply List.Forall_impl; [|exact Hall]. intros a Ha. now apply slug_char_plain.
Qed.

(** The stem of a name is empty only when the name is. *)
Lemma stem_nonempty (p : path) : name p <> [] -> stem p <> [].
Proof.
  unfold stem, suffix_at. intros Hne.
  destruct (rfind_dot (name p)) as [i|]; [|exact Hne].
  destruct ((0 <? i)%nat && (i <? length (name p) - 1)%nat) eqn:E; [|exact Hne].
  apply andb_true_iff in E as [E1 E2].
  apply Nat.ltb_lt in E1, E2. intros H. apply (f_equal (@length _)) in H.
  rewrite firstn_length_le in H by lia. cbn in H. lia.
Qed.

Lemma strip_nonempty (s : str) : strip s <> [] -> s <> [].
Proof. intros H ->. now apply H. Qed.

(** The base name of an archive with a name is not empty. *)
Lemma model_base_nonempty (geom_file_name description : option str) (zip_path : path) :
  name zip_path <> [] -> model_base geom_file_name description zip_path <> [].
Proof.
  intros Hz. unfold model_base.
  set (base := if truthy geom_file_name
               then stem (path_of_str (default [] geom_file_name))
               else stem zip_path).
  destruct (strip base) eqn:E.
  - destruct description as [[|c d]|]; cbn; try discriminate;
      now apply stem_nonempty.
  - apply strip_nonempty. now rewrite E.
Qed.

Lemma slugify_Some (x : str) : x <> [] -> exists s, slugify x = Some s.
Proof. destruct x; [congruence|]. unfold slugify. eauto. Qed.

(** X7. The model is named after the geometry file that the metadata
    names, whether the archive holds that file or not, and without a hint
    after the archive; the description stands in only when that name is
    blank. For an archive with a name the base name is never empty, so
    that [slugify] returns a slug for it. *)
Theorem model_base_defined (geom_file_name description : option str) (zip_path : path) :
  let hinted := stem (path_of_str (default [] geom_file_name)) in
  let base := if truthy geom_file_name then hinted else stem zip_path in
  (strip base <> [] -> model_base geom_file_name description zip_path = base) /\
  (strip base = [] -> forall d, description = Some d -> d <> [] ->
     model_base geom_file_name description zip_path = d) /\
  (strip base = [] -> truthy description = false ->
     model_base geom_file_name description zip_path = stem zip_path) /\
  (name zip_path <> [] ->
     model_base geom_file_name description zip_path <> [] /\
     exists slug,
       slugify (model_base geom_file_name description zip_path) = Some slug).
Proof.
  cbv zeta. split; [|split; [|split]].
  - unfold model_base. intros H.
    now destruct (strip (if truthy geom_file_name then _ else _)).
  - unfold model_base. intros -> d -> Hd. destruct d; [congruence | reflexivity].
  - unfold model_base. intros -> ->. reflexivity.
  - intros Hz. pose proof (model_base_nonempty geom_file_name description _ Hz) as Hne.
    split; [exact Hne | now apply slugify_Some].
Qed.

End Names.

(** ** The files of a model directory *)

Section StoredFiles.

Lemma endswith_app (a e : str) : endswith e (a ++ e) = true.
Proof.
  unfold endswith. rewrite length_app.
  replace (length a + length e - length e)%nat with (length a) by lia.
  rewrite skipn_app, Nat.sub_diag, skipn_all. cbn [skipn app].
  rewrite str_eqb_refl. apply Nat.leb_le. lia.
Qed.

(** The name under which a file is stored ends with its extension in
    lower case. *)
Lemma relocated_name_ext (s ext : str) (k : nat) :
  endswith ext (relocated_name (s ++ ext) ext k) = true.
Proof.
  destruct k as [|k]; cbn [relocated_name].
  - apply endswith_app.
  - rewrite !app_assoc. apply endswith_app.
Qed.

Lemma slugify_nonempty (x s : str) : slugify x = Some s -> s <> [].
Proof.
  destruct x as [|c0 x0]; [discriminate|]. unfold slugify. intros [= <-].
  destruct (List.filter is_slug_char _); [discriminate|].
  apply firstn_nonempty. discriminate.
Qed.

Lemma relocated_name_nonempty (s ext : str) (k : nat) :
  s <> [] -> relocated_name (s ++ ext) ext k <> [].
Proof.
  intros Hs. destruct k as [|k]; cbn [relocated_name].
  - now destruct s.
  - intros H. apply (f_equal (@length _)) in H. rewrite !length_app in H.
    cbn in H. lia.
Qed.

(** [move_one_fresh], with the shape of the name. *)
Lemma move_one_named (target preview : path) (moved : option str)
    (sf : path * file) (fs fs' : node) (m : option str) :
  move_one target preview moved sf fs = (Ok m, fs') ->
  exists x,
    x <> [] /\
    endswith (lower (suffix (fst sf))) x = true /\
    exists_ (joinpath target x) fs = false /\
    stat (joinpath target x) fs' = Found (File (snd sf)) /\
    (forall q, (forall q', q <> joinpath target x ++ q') ->
       kind (stat q fs') = kind (stat q fs)) /\
    m = if matches_preview preview sf then Some x else moved.
Proof.
  unfold move_one, bind, lift, read, step, ret.
  destruct (dest_name_of (fst sf)) as [dest_name|e] eqn:Hdn; [|discriminate].
  destruct (dest_name_of_inv _ _ Hdn) as (s & Hs & ->).
  destruct (first_free_spec fs target
              (relocated_name (s ++ lower (suffix (fst sf))) (lower (suffix (fst sf))))
              (relocated_name_inj _ _ (slug_no_dot _ _ Hs))
              (fun k => joinpath target
                 (rsplit1_head "."%char (s ++ lower (suffix (fst sf)))
                  ++ lit "_" ++ str_of_nat k ++ lower (suffix (fst sf)))))
    as (k & Hres & Hfree & _).
  { intros i Hi. destruct i; [lia | reflexivity]. }
  change (relocated_name (s ++ lower (suffix (fst sf))) (lower (suffix (fst sf))) 0)
    with (s ++ lower (suffix (fst sf))) in Hres.
  rewrite Hres.
  pose proof (relocated_name_ext s (lower (suffix (fst sf))) k) as Hext.
  pose proof (relocated_name_nonempty s (lower (suffix (fst sf))) k
                (slugify_nonempty _ _ Hs)) as Hxne.
  set (x := relocated_name _ _ k) in *.
  destruct (move_in (snd sf) (name (fst sf)) (joinpath target x) fs)
    as [fs1|e] eqn:Hmv; [|discriminate].
  intros [= <- <-]. exists x. split; [exact Hxne|].
  split; [exact Hext|]. split; [exact Hfree|].
  unfold move_in, real_dst in Hmv.
  assert (Hnd : is_dir (joinpath target x) fs = false).
  { unfold is_dir, exists_ in *.
    destruct (stat (joinpath target x) fs) as [[?|?]| |]; congruence. }
  rewrite Hnd in Hmv.
  destruct (rename_to_stat _ _ _ _ Hmv) as [Hat Hother].
  rewrite name_joinpath. repeat split; auto.
Qed.

Lemma Forall2_In_l {A B} (P : A -> B -> Prop) (l : list A) (k : list B) (x : A) :
  Forall2 P l k -> In x l -> exists y, In y k /\ P x y.
Proof.
  induction 1 as [|a b l k Hab _ IH]; cbn [In]; [intros []|].
  intros [->|Hin].
  - exists b. auto.
  - destruct (IH Hin) as (y & Hy & Hxy). exists y. auto.
Qed.

(** The entry [target/y] is another entry than [target/x]. *)
Lemma sibling_apart (target : path) (x y : str) :
  y <> x -> forall q', joinpath target y <> joinpath target x ++ q'.
Proof. intros Hne q' H. apply joinpath_inj in H as [-> _]. congruence. Qed.

(** Each file gets an entry of its own: the names are free when the loop
    starts, they differ from each other, and the entries that are no such
    name stay what they are. The name that is recorded for the preview is
    the entry of the last file that matches it. *)
Lemma move_all_names (target preview : path) (files : list (path * file)) :
  forall (moved m : option str) (fs fs1 : node),
    move_all target preview moved files fs = (Ok m, fs1) ->
    exists names,
      Forall2 (fun x sf =>
                 x <> [] /\
                 endswith (lower (suffix (fst sf))) x = true /\
                 exists_ (joinpath target x) fs = false /\
                 stat (joinpath target x) fs1 = Found (File (snd sf)))
              names files /\
      List.NoDup names /\
      (forall y, ~ In y names ->
         kind (stat (joinpath target y) fs1) = kind (stat (joinpath target y) fs)) /\
      ((m = moved /\ Forall (fun sf => matches_preview preview sf = false) files) \/
       exists l1 sf l2 x,
         files = l1 ++ sf :: l2 /\ matches_preview preview sf = true /\
         Forall (fun sf' => matches_preview preview sf' = false) l2 /\
         m = Some x /\ In x names /\
         stat (joinpath target x) fs1 = Found (File (snd sf))).
Proof.
  induction files as [|sf files IH]; intros moved m fs fs1; cbn [move_all].
  - intros [= <- <-]. exists []. repeat split; auto; constructor.
  - unfold bind.
    destruct (move_one target preview moved sf fs) as [[m1|e] fs2] eqn:H1;
      [|discriminate].
    intros H.
    destruct (move_one_named _ _ _ _ _ _ _ H1)
      as (x & Hxne & Hext & Hfree & Hat & Hother & Hm1).
    destruct (IH _ _ _ _ H) as (names & Hall & Hnd & Hframe & Hm).
    assert (Hx : ~ In x names).
    { intros Hin.
      destruct (Forall2_In_l _ _ _ _ Hall Hin) as (sf' & _ & _ & _ & Hf & _).
      unfold exists_ in Hf. now rewrite Hat in Hf. }
    assert (Hx1 : stat (joinpath target x) fs1 = Found (File (snd sf))).
    { apply kind_file. rewrite (Hframe x Hx). now rewrite Hat. }
    exists (x :: names). split; [|split; [|split]].
    + constructor; [auto|].
      eapply Forall2_impl; [exact Hall|].
      intros y sf' (Hy0 & Hy1 & Hy2 & Hy3). repeat split; auto.
      destruct (str_eqb y x) eqn:E.
      * apply str_eqb_eq in E. subst y. unfold exists_ in Hy2.
        now rewrite Hat in Hy2.
      * apply str_eqb_neq in E. rewrite <- Hy2. symmetry.
        apply kind_eq_exists, Hother. now apply sibling_apart.
    + now constructor.
    + intros y Hy. rewrite Hframe by (intros Hin; apply Hy; now right).
      apply Hother, sibling_apart. intros ->. apply Hy. now left.
    + destruct Hm as [[-> Hno]|(l1 & sf' & l2 & x' & -> & Hmatch & Hno & -> & Hin & Hat')].
      * rewrite Hm1. destruct (matches_preview preview sf) eqn:E.
        -- right. exists [], sf, files, x. repeat split; auto. now left.
        -- left. split; [reflexivity | now constructor].
      * right. exists (sf :: l1), sf', l2, x'. repeat split; auto. now right.
Qed.

End StoredFiles.

(** ** An archive that is imported *)

Section ImportedModel.

Variable upper : str -> str.

(** A directory made without [exist_ok] is new and empty. *)
Lemma mkdir_new_empty (p : path) (fs fs1 : node) :
  mkdir p true false fs = (Ok tt, fs1) -> stat p fs1 = Found (Dir []).
Proof.
  unfold mkdir. rewrite <- (rev_involutive p) at 2.
  destruct (rev p) as [|c rp]; cbn [mkdir_parents].
  - destruct (os_mkdir (rev []) fs) as [fs0|e] eqn:E.
    + destruct (os_mkdir_inv _ _ _ E) as [Hne _]. now destruct Hne.
    + destruct e; cbn; discriminate.
  - destruct (os_mkdir (rev (c :: rp)) fs) as [fs0|e] eqn:E.
    + intros [= <-]. now apply os_mkdir_stat in E.
    + destruct e; try (cbn; discriminate).
      unfold bind. destruct (mkdir_parents rp true fs) as [[[]|e1] fs0]; [|discriminate].
      unfold mkdir_here. destruct (os_mkdir _ fs0) as [fs2|e2] eqn:E2.
      * intros [= <-]. now apply os_mkdir_stat in E2.
      * destruct e2; cbn; discriminate.
Qed.

Lemma relocate_Ok (parsed : gmap str str) (target geometry preview : path)
    (files : list (path * file)) (fs fs' : node) (tm : path * model_data) :
  relocate upper parsed target geometry preview files fs = (Ok tm, fs') ->
  exists moved md,
    tm = (target, md) /\ moved <> [] /\
    move_all target preview None files fs = (Ok (Some moved), fs') /\
    build_model_data upper parsed target geometry moved = Ok md.
Proof.
  unfold relocate, try_except, bind.
  assert (Hfail : forall e fs1,
            (let! _ := remove_partial target in raise e) fs1 <> (Ok tm, fs')).
  { intros e fs1. unfold bind, raise.
    destruct (remove_partial_spec target fs1) as (fs2 & -> & _). discriminate. }
  destruct (move_all target preview None files fs) as [[moved|e] fs1] eqn:Hmv.
  - destruct moved as [[|c nm]|].
    + intros H. now apply Hfail in H.
    + unfold lift, ret.
      destruct (build_model_data upper parsed target geometry (c :: nm))
        as [md|e] eqn:Hb.
      * intros [= <- <-]. exists (c :: nm), md. repeat split; auto; discriminate.
      * intros H. now apply Hfail in H.
    + intros H. now apply Hfail in H.
  - intros H. now apply Hfail in H.
Qed.

(** The way of an archive that is imported. *)
Lemma settle_Ok (zip_path final_base_dir : path) (files : list (path * file))
    (parsed : gmap str str) (fs fs' : node) (target : path) (md : model_data) :
  settle upper zip_path final_base_dir files parsed fs = (Ok (target, md), fs') ->
  exists geometry preview slug k fs1 moved,
    resolve_geometry (field parsed "GeometryFile") (map fst files) = Some geometry /\
    resolve_preview (field parsed "PreviewFile") (map fst files) = Some preview /\
    slugify (model_base (field parsed "GeometryFile") (field parsed "Description")
               zip_path) = Some slug /\
    target = joinpath final_base_dir (dir_name slug k) /\
    exists_ target fs = false /\
    (forall j, (j < k)%nat ->
       exists_ (joinpath final_base_dir (dir_name slug j)) fs = true) /\
    mkdir target true false fs = (Ok tt, fs1) /\
    moved <> [] /\
    move_all target preview None files fs1 = (Ok (Some moved), fs') /\
    build_model_data upper parsed target geometry moved = Ok md.
Proof.
  unfold settle. cbv zeta.
  destruct (resolve_geometry _ _) as [geometry|]; [|discriminate].
  destruct (resolve_preview _ _) as [preview|]; [|discriminate].
  destruct (slugify _) as [slug|]; [|discriminate].
  unfold bind, read.
  destruct (ensure_unique_dir_run final_base_dir slug fs) as (k & Hk & Hfree & Hbusy).
  rewrite Hk.
  destruct (mkdir _ true false fs) as [[[]|e] fs1] eqn:Hmk; [|discriminate].
  intros H. apply relocate_Ok in H as (moved & md' & [= -> ->] & Hne & Hmv & Hb).
  exists geometry, preview, slug, k, fs1, moved. repeat split; auto.
Qed.

Lemma process_one_zip_Ok (zip_path final_base_dir tmp_base : path) (fs fs' : node)
    (target : path) (md : model_data) :
  process_one_zip upper zip_path final_base_dir tmp_base fs = (Ok (target, md), fs') ->
  exists files parsed,
    unpack zip_path tmp_base fs = (Ok (files, parsed), fs) /\
    settle upper zip_path final_base_dir files parsed fs = (Ok (target, md), fs').
Proof.
  unfold process_one_zip, bind.
  destruct (unpack zip_path tmp_base fs) as [[[files parsed]|e] fs1] eqn:Hu;
    [|discriminate].
  pose proof (unpack_state _ _ _ _ _ Hu) as ->. cbn [fst snd].
  intros H. exists files, parsed. auto.
Qed.

Lemma build_model_data_Ok (parsed : gmap str str) (target geometry : path)
    (moved : str) (md : model_data) :
  build_model_data upper parsed target geometry moved = Ok md ->
  model_name md = name target /\ preview_file md = moved /\
  to_polygon_count (field parsed "NumberOfPolygons") = Ok (polygon_count md) /\
  download_date md = (if truthy (field parsed "DateOfDownload")
                      then parse_date (default [] (field parsed "DateOfDownload"))
                      else None) /\
  format md = upper (if truthy (field parsed "DownloadModelFormat")
                     then default [] (field parsed "DownloadModelFormat")
                     else dropwhile (eqc "."%char) (suffix geometry)) /\
  source_url md = field parsed "DownloadedFromURL" /\
  created_by md = field parsed "CreatedBy" /\
  created_in md = field parsed "CreatedIn" /\
  uploaded_by md = field parsed "UploadedBy" /\
  model_description md = field parsed "Description".
Proof.
  unfold build_model_data. cbv zeta.
  destruct (to_polygon_count _) as [polys|]; [|discriminate].
  intros [= <-]. cbn. repeat split; reflexivity.
Qed.

(** The decimal digits of a number are characters of a slug. *)
Lemma pretty_N_go_slug (x : N) :
  forall s : string,
    Forall (fun c => is_slug_char c = true) (lit s) ->
    Forall (fun c => is_slug_char c = true) (lit (pretty_N_go x s)).
Proof.
  induction (N.lt_wf_0 x) as [x _ IH]. intros s Hs.
  destruct (N.eq_dec x 0%N) as [->|Hx].
  - now rewrite pretty_N_go_0.
  - rewrite pretty_N_go_step by lia. apply IH.
    + apply N.div_lt; lia.
    + cbn [lit list_ascii_of_string]. constructor; [|exact Hs].
      unfold pretty_N_char. now repeat case_match.
Qed.

Lemma str_of_nat_slug (k : nat) :
  Forall (fun c => is_slug_char c = true) (str_of_nat k).
Proof.
  unfold str_of_nat, pretty, pretty_nat, pretty, pretty_N.
  case_decide.
  - repeat constructor.
  - apply pretty_N_go_slug. constructor.
Qed.

Lemma dir_name_slug (x slug : str) (k : nat) :
  slugify x = Some slug ->
  dir_name slug k <> [] /\ Forall (fun c => is_slug_char c = true) (dir_name slug k).
Proof.
  intros H. pose proof (slugify_chars _ _ H) as Hall.
  pose proof (slugify_nonempty _ _ H) as Hne.
  destruct k as [|k]; cbn [dir_name]; [auto|]. split.
  - now destruct slug.
  - apply Forall_app. split; [exact Hall|].
    apply Forall_app. split; [repeat constructor | apply str_of_nat_slug].
Qed.

(** X8. The directory of an imported model is new: it is the entry of
    the output directory called like the model, it did not exist before
    and is a directory afterwards, and whatever existed before is still
    what it was. The name of the model is made of characters of
    [[A-Za-z0-9_-]] and is not empty: it is the slug of the base name, or
    that slug with [_k] for the least [k >= 1] that was free. *)
Theorem model_directory (zip_path final_base_dir tmp_base : path) (fs fs' : node)
    (target_dir : path) (md : model_data) :
  process_one_zip upper zip_path final_base_dir tmp_base fs
  = (Ok (target_dir, md), fs') ->
  target_dir = joinpath final_base_dir (model_name md) /\
  model_name md <> [] /\
  Forall (fun c => is_slug_char c = true) (model_name md) /\
  exists_ target_dir fs = false /\
  is_dir target_dir fs' = true /\
  extends fs fs' /\
  exists files parsed slug k,
    unpack zip_path tmp_base fs = (Ok (files, parsed), fs) /\
    slugify (model_base (field parsed "GeometryFile") (field parsed "Description")
               zip_path) = Some slug /\
    model_name md = dir_name slug k /\
    forall j, (j < k)%nat ->
      exists_ (joinpath final_base_dir (dir_name slug j)) fs = true.
Proof.
  intros H.
  destruct (process_one_zip_spec upper _ _ _ _ _ _ H) as (Hext & _ & _ & Hdir & _).
  cbn [fst] in Hdir.
  apply process_one_zip_Ok in H as (files & parsed & Hu & Hs).
  apply settle_Ok in Hs
    as (geometry & preview & slug & k & fs1 & moved & _ & _ & Hslug & -> & Hfree
        & Hbusy & _ & _ & _ & Hb).
  apply build_model_data_Ok in Hb as (Hname & _).
  rewrite name_joinpath in Hname.
  destruct (dir_name_slug _ _ k Hslug) as [Hne Hall].
  rewrite Hname. repeat split; auto.
  exists files, parsed, slug, k. auto.
Qed.

(** X9. The directory of an imported model holds the files of the
    archive and nothing else: one entry for each file of the listing, under
    names that differ from each other, each name ending with the extension
    of its file in lower case. The preview of the record is the entry of
    the last file of the listing that matches the resolved preview by its
    path or by its name. *)
Theorem model_files (zip_path final_base_dir tmp_base : path) (fs fs' : node)
    (target_dir : path) (md : model_data) :
  process_one_zip upper zip_path final_base_dir tmp_base fs
  = (Ok (target_dir, md), fs') ->
  exists files parsed names preview,
    unpack zip_path tmp_base fs = (Ok (files, parsed), fs) /\
    Forall2 (fun x sf =>
               stat (joinpath target_dir x) fs' = Found (File (snd sf)) /\
               endswith (lower (suffix (fst sf))) x = true)
            names files /\
    List.NoDup names /\
    (forall y, exists_ (joinpath target_dir y) fs' = true -> In y names) /\
    resolve_preview (field parsed "PreviewFile") (map fst files) = Some preview /\
    exists l1 sf l2,
      files = l1 ++ sf :: l2 /\ matches_preview preview sf = true /\
      Forall (fun sf' => matches_preview preview sf' = false) l2 /\
      In (preview_file md) names /\
      stat (joinpath target_dir (preview_file md)) fs' = Found (File (snd sf)).
Proof.
  intros H. apply process_one_zip_Ok in H as (files & parsed & Hu & Hs).
  apply settle_Ok in Hs
    as (geometry & preview & slug & k & fs1 & moved & _ & Hprev & _ & Htarget & _
        & _ & Hmk & Hne & Hmv & Hb).
  apply build_model_data_Ok in Hb as (_ & Hpf & _).
  apply mkdir_new_empty in Hmk.
  destruct (move_all_names _ _ _ _ _ _ _ Hmv) as (names & Hall & Hnd & Hframe & Hm).
  exists files, parsed, names, preview. split; [exact Hu|]. split; [|split; [|split; [|split]]].
  - eapply Forall2_impl; [exact Hall|]. intros x sf (_ & ? & _ & ?). auto.
  - exact Hnd.
  - intros y Hy. destruct (List.in_dec (List.list_eq_dec Ascii.ascii_dec) y names) as [Hin|Hout];
      [exact Hin|]. exfalso.
    rewrite (kind_eq_exists _ (joinpath target_dir y) fs1 fs' (Hframe y Hout)) in Hy.
    unfold exists_, joinpath in Hy. rewrite stat_app, Hmk in Hy. discriminate Hy.
  - exact Hprev.
  - destruct Hm as [[[=] _]|(l1 & sf & l2 & x & -> & Hmatch & Hno & [= <-] & Hin & Hat)].
    exists l1, sf, l2. rewrite Hpf. auto.
Qed.

(** X10. The record of an imported model: its name is the name of its
    directory and its preview is not empty; the format is the text of
    [DownloadModelFormat] or, without one, the extension of the geometry
    file without its dot, in upper case; the optional texts are those of
    the metadata; the date of download, when there is one, is a date of
    the calendar that [parse_date] read from [DateOfDownload], and a text
    there that is no date leaves the record without one. *)
Theorem model_record (zip_path final_base_dir tmp_base : path) (fs fs' : node)
    (target_dir : path) (md : model_data) :
  process_one_zip upper zip_path final_base_dir tmp_base fs
  = (Ok (target_dir, md), fs') ->
  model_name md = name target_dir /\ preview_file md <> [] /\
  (forall d, download_date md = Some d -> valid_date d) /\
  exists files parsed geometry_path,
    unpack zip_path tmp_base fs = (Ok (files, parsed), fs) /\
    resolve_geometry (field parsed "GeometryFile") (map fst files)
    = Some geometry_path /\
    format md = upper (if truthy (field parsed "DownloadModelFormat")
                       then default [] (field parsed "DownloadModelFormat")
                       else dropwhile (eqc "."%char) (suffix geometry_path)) /\
    (forall v, field parsed "DateOfDownload" = Some v ->
       download_date md = parse_date v) /\
    (field parsed "DateOfDownload" = None -> download_date md = None) /\
    to_polygon_count (field parsed "NumberOfPolygons") = Ok (polygon_count md) /\
    source_url md = field parsed "DownloadedFromURL" /\
    created_by md = field parsed "CreatedBy" /\
    created_in md = field parsed "CreatedIn" /\
    uploaded_by md = field parsed "UploadedBy" /\
    model_description md = field parsed "Description".
Proof.
  intros H. apply process_one_zip_Ok in H as (files & parsed & Hu & Hs).
  apply settle_Ok in Hs
    as (geometry & preview & slug & k & fs1 & moved & Hgeo & _ & _ & _ & _
        & _ & _ & Hne & _ & Hb).
  apply build_model_data_Ok in Hb
    as (Hname & Hpf & Hpoly & Hdate & Hfmt & Hurl & Hby & Hin & Hup & Hdesc).
  split; [exact Hname|]. split; [now rewrite Hpf|]. split.
  - intros d Hd. rewrite Hdate in Hd.
    destruct (truthy _); [|discriminate]. now apply parse_date_Some in Hd.
  - exists files, parsed, geometry. split; [exact Hu|]. split; [exact Hgeo|].
    split; [exact Hfmt|]. split; [|split].
    + intros v Hv. rewrite Hdate, Hv. destruct v as [|c v]; reflexivity.
    + intros Hv. now rewrite Hdate, Hv.
    + auto 10.
Qed.

End ImportedModel.

(** ** The required fields of a record *)

Section RequiredFields.

Variable upper : str -> str.
Variable db : Type.
Variable run_insert : model_data -> M db Z.

(** X11. [insert_model] refuses a record whose name or whose preview is
    empty with [ValueError] and leaves the store alone; every other record
    goes to the [INSERT]. The record of an imported model is never
    refused. *)
Theorem insert_model_required :
  (forall md s, model_name md = [] \/ preview_file md = [] ->
     insert_model db run_insert md s = (Raise ValueError, s)) /\
  (forall md, model_name md <> [] -> preview_file md <> [] ->
     insert_model db run_insert md = run_insert md) /\
  (forall zip_path final_base_dir tmp_base fs target_dir md fs',
     process_one_zip upper zip_path final_base_dir tmp_base fs
     = (Ok (target_dir, md), fs') ->
     insert_model db run_insert md = run_insert md).
Proof.
  assert (Hgo : forall md, model_name md <> [] -> preview_file md <> [] ->
                  insert_model db run_insert md = run_insert md).
  { intros md Hn Hp. unfold insert_model.
    destruct (model_name md); [congruence|]. now destruct (preview_file md). }
  split; [|split; [exact Hgo|]].
  - intros md s [H|H]; unfold insert_model; rewrite H; [reflexivity|].
    now destruct (model_name md).
  - intros zip_path final_base_dir tmp_base fs target_dir md fs' H.
    apply process_one_zip_Ok in H as (files & parsed & Hu & Hs).
    apply settle_Ok in Hs
      as (geometry & preview & slug & k & fs1 & moved & _ & _ & Hslug & -> & _
          & _ & _ & Hne & _ & Hb).
    apply build_model_data_Ok in Hb as (Hname & Hpf & _).
    rewrite name_joinpath in Hname.
    apply Hgo; [|now rewrite Hpf].
    rewrite Hname. now apply (dir_name_slug _ _ k Hslug).
Qed.

End RequiredFields.

(** ** The value of the polygon count *)

Section PolygonValue.

Local Open Scope Z_scope.

(** The decimal [m * 10 ^ e] as a fraction, and its whole part. *)
Definition decimal_num (m e : Z) : Z := if 0 <=? e then m * 10 ^ e else m.

Definition decimal_den (e : Z) : Z := if 0 <=? e then 1 else 10 ^ (- e).

Definition whole_part (m e : Z) : Z := decimal_num m e / decimal_den e.

Lemma decimal_den_pos (e : Z) : 0 < decimal_den e.
Proof.
  unfold decimal_den. destruct (0 <=? e) eqn:E; [lia|].
  apply Z.leb_gt in E. apply Z.pow_pos_nonneg; lia.
Qed.

Lemma decimal_num_nonneg (m e : Z) : 0 <= m -> 0 <= decimal_num m e.
Proof.
  unfold decimal_num. intros Hm. destruct (0 <=? e) eqn:E; [|lia].
  apply Z.leb_le in E. apply Z.mul_nonneg_nonneg; [lia|]. apply Z.pow_nonneg. lia.
Qed.

Lemma decimal_num_zero (m e : Z) : decimal_num m e = 0 -> m = 0.
Proof.
  unfold decimal_num. destruct (0 <=? e) eqn:E; [|auto].
  apply Z.leb_le in E. intros H. apply Z.mul_eq_0 in H as [H|H]; [exact H|].
  assert (0 < 10 ^ e) by (apply Z.pow_pos_nonneg; lia). lia.
Qed.

Lemma round_half_even_near (n d : Z) :
  n / d <= round_half_even n d <= n / d + 1.
Proof.
  unfold round_half_even.
  repeat match goal with
         | |- context [if ?b then _ else _] => destruct b
         end; lia.
Qed.

Lemma round_half_even_exact (n d : Z) :
  0 < d -> n mod d = 0 -> round_half_even n d = n / d.
Proof.
  unfold round_half_even. intros Hd ->.
  destruct (2 * 0 <? d) eqn:E; [reflexivity|]. apply Z.ltb_ge in E. lia.
Qed.

(** What [int] makes of the double [k * 2 ^ (E - 52)] nearest to
    [num / den]. *)
Lemma nearest_whole (num den E : Z) :
  0 < den -> 0 <= num -> -1 <= E <= 52 ->
  let t := round_half_even (num * 2 ^ (52 - E)) den / 2 ^ (52 - E) in
  num / den <= t <= num / den + 1 /\ (num mod den = 0 -> t = num / den).
Proof.
  intros Hden Hnum HE. cbv zeta.
  set (P := 2 ^ (52 - E)). set (n := num / den).
  assert (HP : 0 < P) by (apply Z.pow_pos_nonneg; lia).
  pose proof (round_half_even_near (num * P) den) as [Hlo Hhi].
  assert (Hn1 : den * n <= num) by (apply Z.mul_div_le; lia).
  assert (Hn2 : num < den * (n + 1)).
  { pose proof (Z.mul_succ_div_gt num den Hden). unfold n. lia. }
  assert (Hq1 : n * P <= num * P / den).
  { apply Z.div_le_lower_bound; [lia|]. nia. }
  assert (Hq2 : num * P / den < (n + 1) * P).
  { apply Z.div_lt_upper_bound; [lia|]. nia. }
  split; [split|].
  - apply Z.div_le_lower_bound; [lia|]. nia.
  - apply Z.div_le_upper_bound; [lia|]. nia.
  - intros Hmod. rewrite round_half_even_exact; [|lia|].
    + assert (Hex : num = den * n) by (apply Z.div_exact; [lia | exact Hmod]).
      rewrite Hex. replace (den * n * P) with (n * P * den) by ring.
      rewrite Z.div_mul by lia. apply Z.div_mul. lia.
    + assert (Hex : num = den * n) by (apply Z.div_exact; [lia | exact Hmod]).
      rewrite Hex. replace (den * n * P) with (n * P * den) by ring.
      apply Z.mod_mul. lia.
Qed.

(** The binary exponent that [trunc_double] finds for a fraction below
    [2 ^ 53] is at most 52, and one below [-1] belongs to a fraction
    below one half. *)
Lemma binary_exponent (num den : Z) :
  0 < num -> 0 < den -> num / den < 2 ^ 53 ->
  let e0 := Z.log2 num - Z.log2 den in
  let reaches :=
    if 0 <=? e0 then den * 2 ^ e0 <=? num else den <=? num * 2 ^ (- e0) in
  let E := if reaches then e0 else e0 - 1 in
  E <= 52 /\ (E < -1 -> num < den).
Proof.
  intros Hnum Hden Hlt. cbv zeta.
  set (e0 := Z.log2 num - Z.log2 den).
  pose proof (Z.log2_spec num Hnum) as [Hn1 Hn2].
  pose proof (Z.log2_spec den Hden) as [Hd1 Hd2].
  pose proof (Z.log2_nonneg num) as Hln. pose proof (Z.log2_nonneg den) as Hld.
  assert (Hbound : num < den * 2 ^ 53).
  { pose proof (Z.mul_succ_div_gt num den Hden). nia. }
  assert (He0 : e0 <= 53).
  { assert (Z.log2 num <= Z.log2 (den * 2 ^ 53)) by (apply Z.log2_le_mono; lia).
    rewrite Z.log2_mul_pow2 in H by lia. unfold e0. lia. }
  destruct (0 <=? e0) eqn:Hs.
  - apply Z.leb_le in Hs. destruct (den * 2 ^ e0 <=? num) eqn:Hr.
    + apply Z.leb_le in Hr. split; [|lia].
      destruct (Z.le_gt_cases e0 52) as [|Hbig]; [assumption|]. exfalso.
      assert (2 ^ 53 <= 2 ^ e0) by (apply Z.pow_le_mono_r; lia). nia.
    + split; lia.
  - apply Z.leb_gt in Hs. destruct (den <=? num * 2 ^ (- e0)) eqn:Hr.
    + apply Z.leb_le in Hr. split; [lia|]. intros HE.
      assert (Hp : 2 ^ Z.succ (Z.log2 num) * 2 ^ (- e0 - 1) = 2 ^ Z.log2 den).
      { rewrite <- Z.pow_add_r by lia. f_equal. unfold e0. lia. }
      assert (2 <= 2 ^ (- e0 - 1)).
      { replace 2 with (2 ^ 1) at 1 by reflexivity. apply Z.pow_le_mono_r; lia. }
      nia.
    + apply Z.leb_gt in Hr. split; [lia|]. intros _.
      assert (0 < 2 ^ (- e0)) by (apply Z.pow_pos_nonneg; lia). nia.
Qed.

(** [int(float(...))] of a decimal below [2 ^ 53] never overflows: it is
    the whole part of the decimal or, where the nearest double is the
    next whole number, one more. *)
Lemma trunc_double_near (m e : Z) :
  0 <= m -> whole_part m e < 2 ^ 53 ->
  exists t, trunc_double m e = Ok t /\
    whole_part m e <= t <= whole_part m e + 1 /\
    (decimal_num m e mod decimal_den e = 0 -> t = whole_part m e).
Proof.
  intros Hm Hlt. pose proof (decimal_den_pos e) as Hden.
  pose proof (decimal_num_nonneg m e Hm) as Hnum.
  unfold trunc_double. cbv zeta. fold (decimal_num m e) (decimal_den e).
  unfold whole_part in *.
  set (num := decimal_num m e) in *. set (den := decimal_den e) in *.
  destruct (m =? 0) eqn:Hz.
  { apply Z.eqb_eq in Hz. assert (num = 0) as ->.
    { unfold num, decimal_num. rewrite Hz. now destruct (0 <=? e). }
    exists 0. rewrite Z.div_0_l by lia. repeat split; lia. }
  apply Z.eqb_neq in Hz.
  assert (Hpos : 0 < num).
  { destruct (Z.eq_dec num 0) as [H0|]; [|lia].
    apply decimal_num_zero in H0. contradiction. }
  destruct (binary_exponent num den Hpos Hden Hlt) as [HE52 Hsmall].
  cbv zeta in HE52, Hsmall.
  set (E := if (if 0 <=? Z.log2 num - Z.log2 den
                then den * 2 ^ (Z.log2 num - Z.log2 den) <=? num
                else den <=? num * 2 ^ (- (Z.log2 num - Z.log2 den)))
            then Z.log2 num - Z.log2 den
            else Z.log2 num - Z.log2 den - 1) in *.
  destruct (E <? -1) eqn:Hlow.
  { apply Z.ltb_lt in Hlow. exists 0. rewrite Z.div_small by (split; [lia | auto]).
    repeat split; lia. }
  apply Z.ltb_ge in Hlow.
  assert (H52 : (E <=? 52) = true) by (apply Z.leb_le; lia). rewrite H52.
  assert (H1024 : (1024 <=? E) = false) by (apply Z.leb_gt; lia).
  assert (H1023 : (E =? 1023) = false) by (apply Z.eqb_neq; lia).
  rewrite H1024, H1023. cbn [orb andb].
  eexists. split; [reflexivity|].
  apply (nearest_whole num den E); lia.
Qed.

Lemma digit_val_nonneg (c : ascii) : is_ascii_digit c = true -> 0 <= digit_val c.
Proof.
  unfold is_ascii_digit, between, digit_val. intros H.
  apply andb_true_iff in H as [H _]. apply N.leb_le in H. lia.
Qed.

Lemma digits_val_nonneg (ds : str) :
  forallb is_ascii_digit ds = true -> 0 <= digits_val ds.
Proof.
  assert (G : forall acc, 0 <= acc -> forallb is_ascii_digit ds = true ->
              0 <= fold_left (fun a c => 10 * a + digit_val c) ds acc).
  { induction ds as [|c ds IH]; intros acc Hacc Hall; cbn [fold_left]; [exact Hacc|].
    cbn [forallb] in Hall. apply andb_true_iff in Hall as [Hc Hall].
    apply IH; [|exact Hall]. pose proof (digit_val_nonneg c Hc). lia. }
  intros H. unfold digits_val. now apply G.
Qed.

Lemma after_digit_digits (n : nat) :
  forall (s ds r : str),
    (length s <= n)%nat -> after_digit s = (ds, r) ->
    forallb is_ascii_digit ds = true.
Proof.
  induction n as [|n IH]; intros s ds r Hlen H.
  - destruct s; [|cbn in Hlen; lia]. cbn in H. now injection H as <- <-.
  - destruct s as [|c s']; [cbn in H; now injection H as <- <-|].
    cbn [after_digit] in H. cbn [length] in Hlen.
    destruct (is_ascii_digit c) eqn:Hc.
    + destruct (after_digit s') as [ds' r'] eqn:E. injection H as <- <-.
      cbn [forallb]. rewrite Hc. apply (IH s' ds' r'); [lia | exact E].
    + destruct (eqc "_"%char c); [|now injection H as <- <-].
      destruct s' as [|d s'']; [now injection H as <- <-|].
      destruct (is_ascii_digit d) eqn:Hd; [|now injection H as <- <-].
      destruct (after_digit s'') as [ds' r'] eqn:E. injection H as <- <-.
      cbn [forallb]. rewrite Hd. cbn [length] in Hlen.
      apply (IH s'' ds' r'); [lia | exact E].
Qed.

Lemma digitpart_digits (s ds r : str) :
  digitpart s = Some (ds, r) -> forallb is_ascii_digit ds = true.
Proof.
  unfold digitpart. destruct s as [|c s']; [discriminate|].
  destruct (is_ascii_digit c) eqn:Hc; [|discriminate].
  destruct (after_digit s') as [ds' r'] eqn:E. intros [= <- <-].
  cbn [forallb]. rewrite Hc. now apply (after_digit_digits (length s') s' ds' r').
Qed.

Lemma decimal_nonneg (ip fp rest : str) (m e : Z) :
  forallb is_ascii_digit ip = true -> forallb is_ascii_digit fp = true ->
  decimal ip fp rest = Some (m, e) -> 0 <= m.
Proof.
  unfold decimal. intros Hi Hf. destruct (exponent rest); [|discriminate].
  intros [= <- _]. apply digits_val_nonneg. rewrite forallb_app. now rewrite Hi, Hf.
Qed.

(** The mantissa that [float] reads is not negative: the sign is kept
    apart. *)
Lemma floatnumber_nonneg (s : str) (m e : Z) :
  floatnumber s = Some (m, e) -> 0 <= m.
Proof.
  unfold floatnumber. destruct (digitpart s) as [[ip r]|] eqn:Hip.
  - apply digitpart_digits in Hip.
    destruct r as [|c r']; [now apply decimal_nonneg|].
    destruct (eqc "."%char c); [|now apply decimal_nonneg].
    destruct (digitpart r') as [[fp r'']|] eqn:Hfp; [|now apply decimal_nonneg].
    apply digitpart_digits in Hfp. now apply decimal_nonneg.
  - destruct s as [|c r']; [discriminate|].
    destruct (eqc "."%char c); [|discriminate].
    destruct (digitpart r') as [[fp r'']|] eqn:Hfp; [|discriminate].
    apply digitpart_digits in Hfp. now apply decimal_nonneg.
Qed.

Lemma float_of_str_nonneg (s : str) (neg : bool) (m e : Z) :
  float_of_str s = Ok (FNum neg m e) -> 0 <= m.
Proof.
  unfold float_of_str. destruct (sign (float_strip s)) as [sg r].
  destruct (_ || _); [discriminate|]. destruct (str_eqb _ _); [discriminate|].
  destruct (floatnumber r) as [[m' e']|] eqn:Hf; [|discriminate].
  intros [= _ <- <-]. now apply floatnumber_nonneg in Hf.
Qed.

(** X12. The polygon count of a record: nothing for a missing or empty
    text; the number itself for a text of at most 4300 digits [0] to [9];
    and for any other text that [float] reads as a decimal below
    [2 ^ 53], the whole part of the decimal, with the sign of the text, or
    one more where the nearest double is the next whole number (as for
    [0.99999999999999999]). A decimal that is a whole number always gives
    that number. *)
Theorem polygon_count_value :
  (to_polygon_count None = Ok None /\ to_polygon_count (Some []) = Ok None) /\
  (forall s, s <> [] -> forallb is_ascii_digit s = true -> (length s <= 4300)%nat ->
     to_polygon_count (Some s) = Ok (Some (digits_val s))) /\
  (forall s neg m e,
     isdigit s = false -> float_of_str s = Ok (FNum neg m e) ->
     whole_part m e < 2 ^ 53 ->
     exists t,
       to_polygon_count (Some s) = Ok (Some (if neg then - t else t)) /\
       whole_part m e <= t <= whole_part m e + 1 /\
       (decimal_num m e mod decimal_den e = 0 -> t = whole_part m e)).
Proof.
  split; [exact polygon_count_unset|]. split; [exact polygon_count_integer|].
  intros s neg m e Hd Hf Hlt.
  pose proof (float_of_str_nonneg _ _ _ _ Hf) as Hm.
  destruct (trunc_double_near m e Hm Hlt) as (t & Ht & Hnear).
  exists t. split; [|exact Hnear].
  destruct s as [|c s']; [discriminate Hf|].
  unfold to_polygon_count. rewrite Hd, Hf. unfold int_of_float. now rewrite Ht.
Qed.

End PolygonValue.

(** ** The exceptions of one archive *)

Section Causes.

Variable upper : str -> str.

(** The errors of a path that is missing or of the wrong kind. *)
Definition path_error (e : exn) : bool :=
  match e with
  | FileNotFoundError | NotADirectoryError | IsADirectoryError
  | ShutilError => true
  | _ => false
  end.

(** The errors of [int] and [float]. *)
Definition numeric_error (e : exn) : bool :=
  match e with
  | ValueError | OverflowError => true
  | _ => false
  end.

(** Making a directory at a free place never finds it taken. *)
Lemma os_mkdir_free_error (p : path) (fs : node) (e : exn) :
  exists_ p fs = false -> os_mkdir p fs = Raise e -> path_error e = true.
Proof.
  unfold os_mkdir, exists_. destruct (stat p fs) as [n| |]; try discriminate;
    try (intros _ [= <-]; reflexivity).
  destruct (stat (parent p) fs) as [[?|?]| |]; try discriminate;
    intros _ [= <-]; reflexivity.
Qed.

Lemma mkdir_here_free_error (p : path) (exist_ok : bool) (fs fs' : node) (e : exn) :
  exists_ p fs = false ->
  mkdir_here p exist_ok fs = (Raise e, fs') -> path_error e = true.
Proof.
  intros Hfree. unfold mkdir_here.
  destruct (os_mkdir p fs) as [fs1|e1] eqn:H; [discriminate|].
  apply (os_mkdir_free_error _ _ _ Hfree) in H.
  destruct e1; try discriminate H; try (intros [= <- _]; reflexivity);
    (destruct (exist_ok && is_dir p fs); [discriminate | intros [= <- _]; reflexivity]).
Qed.

Lemma mkdir_parents_free_error (rp : list str) :
  forall (exist_ok : bool) (fs fs' : node) (e : exn),
    exists_ (rev rp) fs = false ->
    mkdir_parents rp exist_ok fs = (Raise e, fs') -> path_error e = true.
Proof.
  induction rp as [|c rp IH]; intros exist_ok fs fs' e Hfree; cbn [mkdir_parents].
  - destruct (os_mkdir (rev []) fs) as [fs1|e1] eqn:H; [discriminate|].
    apply (os_mkdir_free_error _ _ _ Hfree) in H.
    destruct e1; try discriminate H; try (intros [= <- _]; reflexivity);
      (destruct (exist_ok && is_dir (rev []) fs);
       [discriminate | intros [= <- _]; reflexivity]).
  - destruct (os_mkdir (rev (c :: rp)) fs) as [fs1|e1] eqn:H; [discriminate|].
    pose proof H as Hmk. apply (os_mkdir_free_error _ _ _ Hfree) in H.
    destruct e1; try discriminate H;
      try (destruct (exist_ok && is_dir (rev (c :: rp)) fs);
           [discriminate | intros [= <- _]; reflexivity]).
    unfold bind. destruct (mkdir_parents rp true fs) as [[[]|e1] fs1] eqn:Hp.
    + apply mkdir_here_free_error. rewrite <- Hfree. apply kind_eq_exists.
      apply (mkdir_parents_frame _ _ _ _ _ Hp).
      * intros c' q' Heq. apply (f_equal (@length _)) in Heq. cbn [rev] in Heq.
        rewrite !length_app in Heq. cbn [length] in Heq. lia.
      * left. intros Heq. apply (f_equal (@length _)) in Heq. cbn [rev] in Heq.
        rewrite length_app in Heq. cbn [length] in Heq. lia.
    + intros [= <- _]. eapply IH; [|exact Hp].
      unfold os_mkdir in Hmk. unfold exists_.
      destruct (stat (rev (c :: rp)) fs); try discriminate Hmk.
      replace (parent (rev (c :: rp))) with (rev rp) in Hmk
        by (symmetry; apply parent_joinpath).
      now destruct (stat (rev rp) fs) as [[?|?]| |].
Qed.

Lemma mkdir_free_error (p : path) (parents exist_ok : bool) (fs fs' : node) (e : exn) :
  exists_ p fs = false ->
  mkdir p parents exist_ok fs = (Raise e, fs') -> path_error e = true.
Proof.
  unfold mkdir. intros Hfree. destruct parents.
  - apply mkdir_parents_free_error. now rewrite rev_involutive.
  - now apply mkdir_here_free_error.
Qed.

Lemma move_in_error (f : file) (nm : str) (dst : path) (fs : node) (e : exn) :
  move_in f nm dst fs = Raise e -> path_error e = true.
Proof.
  unfold move_in, real_dst, rename_to, rename_check.
  destruct (is_dir dst fs).
  - destruct (exists_ (joinpath dst nm) fs); [intros [= <-]; reflexivity|].
    destruct (stat (joinpath dst nm) fs) as [[?|?]| |];
      try (intros [= <-]; reflexivity);
      destruct (stat (parent (joinpath dst nm)) fs) as [[?|?]| |];
      try discriminate; intros [= <-]; reflexivity.
  - destruct (stat dst fs) as [[?|?]| |];
      try (intros [= <-]; reflexivity);
      destruct (stat (parent dst) fs) as [[?|?]| |];
      try discriminate; intros [= <-]; reflexivity.
Qed.

(** A move fails with an error of its paths, or with [TypeError] for a
    file without a name. *)
Lemma move_one_error (target preview : path) (moved : option str)
    (sf : path * file) (fs fs' : node) (e : exn) :
  move_one target preview moved sf fs = (Raise e, fs') ->
  path_error e = true \/ (e = TypeError /\ name (fst sf) = []).
Proof.
  unfold move_one, bind, lift, read, step, ret.
  destruct (dest_name_of (fst sf)) as [dest_name|e1] eqn:Hdn.
  - destruct (move_in _ _ _ fs) as [fs1|e1] eqn:Hmv; [discriminate|].
    intros [= <- _]. left. eapply move_in_error; eauto.
  - intros [= <- _]. right. unfold dest_name_of in Hdn.
    destruct (slugify (stem (fst sf))) as [s|] eqn:Hs; [discriminate|].
    injection Hdn as <-. split; [reflexivity|].
    destruct (name (fst sf)) as [|c nm] eqn:En; [reflexivity|]. exfalso.
    assert (Hst : stem (fst sf) <> []) by (apply stem_nonempty; now rewrite En).
    destruct (slugify_Some _ Hst) as [s Hs']. congruence.
Qed.

Lemma move_all_error (target preview : path) (files : list (path * file)) :
  forall (moved : option str) (fs fs' : node) (e : exn),
    move_all target preview moved files fs = (Raise e, fs') ->
    path_error e = true \/
    (e = TypeError /\ Exists (fun sf => name (fst sf) = []) files).
Proof.
  induction files as [|sf files IH]; intros moved fs fs' e; cbn [move_all].
  - discriminate.
  - unfold bind.
    destruct (move_one target preview moved sf fs) as [[m|e1] fs1] eqn:H1.
    + intros H. destruct (IH _ _ _ _ H) as [Hos|[-> Hex]]; [now left|].
      right. split; [reflexivity | now apply Exists_cons_tl].
    + intros [= <- _]. destruct (move_one_error _ _ _ _ _ _ _ H1) as [Hos|[-> Hn]];
        [now left|]. right. split; [reflexivity | now apply Exists_cons_hd].
Qed.

Lemma trunc_double_error (m e10 : Z) (e : exn) :
  trunc_double m e10 = Raise e -> e = OverflowError.
Proof.
  unfold trunc_double.
  repeat match goal with
         | |- context [if ?b then _ else _] => destruct b
         end; try discriminate; now intros [= <-].
Qed.

Lemma to_polygon_count_error (num_polys : option str) (e : exn) :
  to_polygon_count num_polys = Raise e -> numeric_error e = true.
Proof.
  unfold to_polygon_count. destruct num_polys as [[|c s]|]; try discriminate.
  destruct (isdigit (c :: s)).
  - unfold int_of_str. destruct (_ && _); [discriminate|]. now intros [= <-].
  - destruct (float_of_str (c :: s)) as [x|e1] eqn:Hf.
    + destruct (int_of_float x) as [n|e2] eqn:Hi; [discriminate|].
      intros [= <-]. unfold int_of_float in Hi.
      destruct x as [neg| |neg m e10]; try (injection Hi as <-; reflexivity).
      destruct (trunc_double m e10) as [t|e3] eqn:Ht; [discriminate|].
      injection Hi as <-. now rewrite (trunc_double_error _ _ _ Ht).
    + intros [= <-]. unfold float_of_str in Hf.
      destruct (sign (float_strip (c :: s))) as [neg r].
      destruct (_ || _); [discriminate|].
      destruct (str_eqb _ _); [discriminate|].
      destruct (floatnumber r) as [[m e10]|]; [discriminate|].
      now injection Hf as <-.
Qed.

(** [zipfile] raises [z] for the archive. *)
Definition refused (zip_path : path) (fs : node) (z : zip_exn) : Prop :=
  exists f, stat zip_path fs = Found (File f) /\ unzip f = Refused z.

(** What a [RuntimeError] of [process_one_zip] says about the archive. *)
Definition cause (zip_path tmp_base : path) (fs : node) (why : failure) : Prop :=
  match why with
  | BadZipFile => exists f, stat zip_path fs = Found (File f) /\ unzip f = NotAZip
  | NoFilesFound => exists f, stat zip_path fs = Found (File f) /\ zip f = Some []
  | NoMetadata =>
      exists f files,
        stat zip_path fs = Found (File f) /\ zip f = Some files /\ files <> [] /\
        Forall (fun pf => is_txt (fst pf) = false) files
  | NoGeometry =>
      exists files parsed,
        unpack zip_path tmp_base fs = (Ok (files, parsed), fs) /\
        resolve_geometry (field parsed "GeometryFile") (map fst files) = None
  | NoPreview =>
      exists files parsed,
        unpack zip_path tmp_base fs = (Ok (files, parsed), fs) /\
        resolve_geometry (field parsed "GeometryFile") (map fst files) <> None /\
        resolve_preview (field parsed "PreviewFile") (map fst files) = None
  | PreviewLost => False
  | EncryptedFile => refused zip_path fs EncryptedMember
  end.




(** The metadata file of the archive is no text that can be read. *)
Definition undecodable (zip_path : path) (fs : node) : Prop :=
  exists f files mf,
    stat zip_path fs = Found (File f) /\ zip f = Some files /\
    select_metadata zip_path files = Some mf /\ text (snd mf) = None.

(** Some file of the archive has no name. *)
Definition nameless (zip_path : path) (fs : node) : Prop :=
  exists f files,
    stat zip_path fs = Found (File f) /\ zip f = Some files /\
    Exists (fun sf => name (fst sf) = []) files.

Lemma unpack_Raise (zip_path tmp_base : path) (fs fs' : node) (e : exn) :
  unpack zip_path tmp_base fs = (Raise e, fs') ->
  path_error e = true \/
  (e = TypeError /\ undecodable zip_path fs) \/
  (exists why, e = RuntimeError why /\ cause zip_path tmp_base fs why) \/
  (exists z, e = exn_of_zip z /\ refused zip_path fs z).
Proof.
  unfold unpack, bind, temporary_directory, extract, lift, ret, raise.
  destruct (stat tmp_base fs) as [[?|?]| |];
    try (intros [= <- _]; left; reflexivity).
  destruct (stat zip_path fs) as [[f|?]| |] eqn:Hz;
    try (intros [= <- _]; left; reflexivity).
  destruct (unzip f) as [[|sf files]| |z] eqn:Hu.
  - intros [= <- _]. right; right; left. exists NoFilesFound.
    split; [reflexivity|]. exists f. split; [exact Hz | now apply zip_Some].
  - assert (Hf : zip f = Some (sf :: files)) by now apply zip_Some.
    destruct (select_metadata zip_path (sf :: files)) as [mf|] eqn:Hsel.
    + unfold try_open. destruct (text (snd mf)) as [t|] eqn:Ht.
      * unfold parse_metadata_from_text. rewrite parse_lines_spec. discriminate.
      * intros [= <- _]. right; left. split; [reflexivity|].
        exists f, (sf :: files), mf. auto.
    + intros [= <- _]. right; right; left. exists NoMetadata.
      split; [reflexivity|].
      exists f, (sf :: files). split; [exact Hz|]. split; [exact Hf|].
      split; [discriminate|]. now apply (select_metadata_None zip_path).
  - intros [= <- _]. right; right; left. exists BadZipFile. split; [reflexivity|].
    exists f. auto.
  - intros [= <- _]. right; right; right. exists z. split; [reflexivity|].
    exists f. auto.
Qed.

Lemma resolve_preview_In (preview_hint : option str) (files : list path) (p : path) :
  resolve_preview preview_hint files = Some p -> In p files.
Proof.
  unfold resolve_preview, find_named.
  assert (Hfb : find_preview_file files = Some p -> In p files).
  { rewrite find_preview_file_eq.
    destruct (List.find is_jpeg files) as [q|] eqn:Ej.
    - intros [= <-]. now apply find_some in Ej.
    - intros Hp. now apply find_some in Hp. }
  destruct (truthy preview_hint); [|exact Hfb].
  destruct (List.find _ files) as [q|] eqn:E; [|exact Hfb].
  intros [= <-]. now apply find_some in E.
Qed.

Lemma matches_preview_self (preview : path) (f : file) :
  matches_preview preview (preview, f) = true.
Proof.
  unfold matches_preview. cbn [fst].
  now rewrite (proj2 (path_eqb_eq preview preview) eq_refl).
Qed.

(** After all moves the name of the preview is on record, when the
    preview is one of the files. *)
Lemma move_all_records (target preview : path) (files : list (path * file))
    (fs fs1 : node) (m : option str) :
  In preview (map fst files) ->
  move_all target preview None files fs = (Ok m, fs1) ->
  exists x, m = Some x /\ x <> [].
Proof.
  intros Hin Hmv.
  destruct (move_all_names _ _ _ _ _ _ _ Hmv) as (names & Hall & _ & _ & Hm).
  destruct Hm as [[-> Hno]|(l1 & sf & l2 & x & _ & _ & _ & -> & Hx & _)].
  - exfalso. apply in_map_iff in Hin as ([p f] & Hp & Hin). cbn [fst] in Hp. subst p.
    rewrite List.Forall_forall in Hno. specialize (Hno _ Hin).
    now rewrite matches_preview_self in Hno.
  - exists x. split; [reflexivity|].
    now destruct (Forall2_In_l _ _ _ _ Hall Hx) as (sf' & _ & Hne & _).
Qed.

(** Every way in which [process_one_zip] raises. *)
Lemma process_one_zip_Raise (zip_path final_base_dir tmp_base : path)
    (fs fs' : node) (e : exn) :
  process_one_zip upper zip_path final_base_dir tmp_base fs = (Raise e, fs') ->
  path_error e = true \/
  (e = TypeError /\
   (undecodable zip_path fs \/ nameless zip_path fs \/ name zip_path = [])) \/
  (exists why, e = RuntimeError why /\ cause zip_path tmp_base fs why /\ fs' = fs) \/
  (numeric_error e = true /\
   exists files parsed,
     unpack zip_path tmp_base fs = (Ok (files, parsed), fs) /\
     to_polygon_count (field parsed "NumberOfPolygons") = Raise e) \/
  (exists z, e = exn_of_zip z /\ refused zip_path fs z /\ fs' = fs).
Proof.
  unfold process_one_zip, bind.
  destruct (unpack zip_path tmp_base fs) as [[[files parsed]|e0] fs0] eqn:Hu;
    pose proof (unpack_state _ _ _ _ _ Hu) as ->.
  2:{ intros [= <- <-].
      destruct (unpack_Raise _ _ _ _ _ Hu)
        as [H|[[-> H]|[(why & -> & H)|(z & -> & H)]]]; auto.
      - right; right; left. exists why. auto.
      - right; right; right; right. exists z. auto. }
  cbn [fst snd]. unfold settle. cbv zeta.
  destruct (resolve_geometry _ _) as [geometry|] eqn:Hg.
  2:{ intros [= <- <-]. right; right; left. exists NoGeometry.
      split; [reflexivity|]. split; [|reflexivity]. exists files, parsed. auto. }
  destruct (resolve_preview _ _) as [preview|] eqn:Hp.
  2:{ intros [= <- <-]. right; right; left. exists NoPreview.
      split; [reflexivity|]. split; [|reflexivity]. exists files, parsed.
      split; [exact Hu|]. split; [now rewrite Hg | exact Hp]. }
  destruct (slugify _) as [slug|] eqn:Hs.
  2:{ intros [= <- <-]. right; left. split; [reflexivity|]. right; right.
      destruct (name zip_path) as [|c nm] eqn:En; [reflexivity|]. exfalso.
      destruct (slugify_Some
                  (model_base (field parsed "GeometryFile")
                     (field parsed "Description") zip_path)) as [s Hs'];
        [apply model_base_nonempty; now rewrite En | congruence]. }
  unfold bind, read.
  destruct (mkdir _ true false fs) as [[[]|e1] fs1] eqn:Hmk.
  2:{ intros [= <- _]. left. eapply mkdir_free_error; [|exact Hmk].
      destruct (ensure_unique_dir_run final_base_dir slug fs) as (m & -> & Hm & _).
      exact Hm. }
  set (target := ensure_unique_dir final_base_dir slug fs) in *.
  unfold relocate, try_except, bind.
  assert (Hh : forall e1 fs2,
            (let! _ := remove_partial target in raise e1) fs2
            = (Raise e : result (path * model_data), fs') ->
            e1 = e).
  { intros e1 fs2. unfold bind, raise.
    destruct (remove_partial_spec target fs2) as (fs3 & -> & _). congruence. }
  destruct (move_all target preview None (files) fs1) as [[moved|e1] fs2] eqn:Hmv.
  - destruct (move_all_records _ _ _ _ _ _ (resolve_preview_In _ _ _ Hp) Hmv)
      as (x & -> & Hx).
    destruct x as [|c nm]; [congruence|]. unfold lift, ret.
    destruct (build_model_data upper parsed target geometry (c :: nm))
      as [md|e2] eqn:Hb; [discriminate|].
    intros H. apply Hh in H. subst e2. right; right; right; left.
    unfold build_model_data in Hb. cbv zeta in Hb.
    destruct (to_polygon_count (field parsed "NumberOfPolygons")) as [polys|e3] eqn:Hc;
      [discriminate|]. injection Hb as ->.
    split; [eapply to_polygon_count_error; eauto|]. exists files, parsed. auto.
  - intros H. apply Hh in H. subst e1.
    destruct (move_all_error _ _ _ _ _ _ _ Hmv) as [Hos|[-> Hex]]; [now left|].
    right; left. split; [reflexivity|]. right; left.
    destruct (unpack_ok _ _ _ _ _ _ Hu) as (_ & f & _ & _ & Hz & Hf & _).
    exists f, files. auto.
Qed.



(** X15. For an archive with a name whose files have names, a
    [TypeError] of [process_one_zip] means that the metadata file could
    not be read as text, and the tree is as it was. *)
Theorem type_error_cause (zip_path final_base_dir tmp_base : path)
    (fs fs' : node) :
  process_one_zip upper zip_path final_base_dir tmp_base fs = (Raise TypeError, fs') ->
  name zip_path <> [] ->
  (forall f files, stat zip_path fs = Found (File f) -> zip f = Some files ->
     Forall (fun sf => name (fst sf) <> []) files) ->
  undecodable zip_path fs /\ fs' = fs.
Proof.
  intros H Hz Hnames.
  assert (Hu : undecodable zip_path fs).
  { destruct (process_one_zip_Raise _ _ _ _ _ _ H)
      as [Hos|[[_ [Hu|[Hn|Hn]]]|[(why' & He & _)|[[Hn _]|(z & He & _)]]]];
      try discriminate; [exact Hu | | congruence | destruct z; discriminate].
    exfalso. destruct Hn as (f & files & Hst & Hf & Hex).
    specialize (Hnames f files Hst Hf).
    apply List.Exists_exists in Hex as (sf & Hin & Hsf).
    rewrite List.Forall_forall in Hnames. now apply (Hnames sf Hin). }
  split; [exact Hu|].
  destruct Hu as (f & files & mf & Hst & Hf & Hsel & Ht).
  unfold process_one_zip, unpack, bind, temporary_directory, extract, lift in H.
  destruct (stat tmp_base fs) as [[?|?]| |]; try discriminate H.
  rewrite Hst, (proj1 (zip_Some _ _) Hf) in H.
  destruct files as [|sf files']; [discriminate H|].
  rewrite Hsel in H. unfold try_open in H. rewrite Ht in H. now injection H as <-.
Qed.


End Causes.

(** ** Moving an archive away *)

Section Moves.

(** Below what is no directory there is no directory. *)
Lemma not_dir_below (p q' : path) (fs : node) :
  is_dir p fs = false -> is_dir (p ++ q') fs = false.
Proof.
  unfold is_dir. rewrite stat_app.
  destruct (stat p fs) as [[f|es]| |]; try reflexivity; try discriminate.
  intros _. now destruct q'.
Qed.

Lemma below_entry (p : path) (q' : path) :
  p <> [] -> parent p ++ name p :: q' = p ++ q'.
Proof.
  intros Hne. rewrite (parent_name p Hne) at 3. now rewrite <- app_assoc.
Qed.

(** Moving a file removes no directory. *)
Lemma shutil_move_dirs (src dst : path) (fs fs' : node) :
  shutil_move src dst fs = Ok fs' ->
  forall q, is_dir q fs = true -> is_dir q fs' = true.
Proof.
  unfold shutil_move.
  destruct (stat src fs) as [[f|es]| |] eqn:Hsrc; try discriminate.
  destruct (real_dst (name src) dst fs) as [rd|] eqn:Hrd; [|discriminate].
  destruct (path_eqb src rd); [now intros [= <-]|].
  destruct (rename_check rd fs) as [[]|] eqn:Hc; [|discriminate].
  intros [= <-] q Hq.
  destruct (rename_check_inv _ _ Hc) as (Hne & Hnd & _).
  assert (Hsrc_file : is_dir src fs = false) by (unfold is_dir; now rewrite Hsrc).
  unfold enter_file.
  rewrite (kind_eq_is_dir q q fs); [exact Hq|].
  rewrite stat_set_entry_other.
  - apply stat_del_entry_other. intros q' ->.
    destruct src as [|c src'] eqn:Es.
    + cbn in Hsrc. injection Hsrc as ->. unfold is_dir in Hq. cbn in Hq. discriminate.
    + rewrite <- Es in *. rewrite below_entry in Hq by (subst; discriminate).
      now rewrite (not_dir_below _ _ _ Hsrc_file) in Hq.
  - intros q' ->. rewrite below_entry in Hq by exact Hne.
    now rewrite (not_dir_below _ _ _ Hnd) in Hq.
Qed.

(** Moving a file changes nothing that exists but the file and what
    stands at its new place. *)
Lemma shutil_move_frame (src dst : path) (fs fs' : node) :
  shutil_move src dst fs = Ok fs' ->
  forall q, exists_ q fs = true -> q <> src -> q <> dst ->
    kind (stat q fs') = kind (stat q fs).
Proof.
  unfold shutil_move.
  destruct (stat src fs) as [[f|es]| |] eqn:Hsrc; try discriminate.
  destruct (real_dst (name src) dst fs) as [rd|] eqn:Hrd; [|discriminate].
  destruct (path_eqb src rd); [now intros [= <-]|].
  destruct (rename_check rd fs) as [[]|] eqn:Hc; [|discriminate].
  intros [= <-] q Hq Hqs Hqd.
  destruct (rename_check_inv _ _ Hc) as (Hne & Hnd & _).
  unfold enter_file.
  assert (Hbelow : forall p q', exists_ p fs = false \/ is_file p fs = true ->
                     q = p ++ q' -> q' = []).
  { intros p q' Hp ->. destruct q' as [|c q'']; [reflexivity|]. exfalso.
    unfold exists_, is_file in *. rewrite stat_app in Hq.
    destruct (stat p fs) as [[?|?]| |]; destruct Hp; discriminate. }
  rewrite stat_set_entry_other.
  - apply stat_del_entry_other. intros q' Hq'.
    destruct src as [|c src'] eqn:Es.
    + cbn in Hsrc. injection Hsrc as ->. subst q. unfold exists_ in Hq.
      cbn in Hq. discriminate.
    + rewrite <- Es in *. rewrite below_entry in Hq' by (subst; discriminate).
      apply Hqs. rewrite Hq'.
      rewrite (Hbelow src q'); [now rewrite app_nil_r | | exact Hq'].
      right. unfold is_file. now rewrite Hsrc.
  - intros q' Hq'. rewrite below_entry in Hq' by exact Hne.
    unfold real_dst in Hrd. destruct (is_dir dst fs) eqn:Hd.
    + destruct (exists_ (joinpath dst (name src)) fs) eqn:Hex; [discriminate|].
      injection Hrd as <-.
      pose proof (Hbelow _ q' (or_introl Hex) Hq') as ->.
      rewrite app_nil_r in Hq'. subst q. congruence.
    + injection Hrd as <-. apply Hqd. rewrite Hq'.
      rewrite (Hbelow dst q'); [now rewrite app_nil_r | | exact Hq'].
      unfold exists_, is_file, is_dir in *.
      destruct (stat dst fs) as [[?|?]| |]; auto; discriminate.
Qed.

(** An area of [input_dir] can be used: it is a directory, or it is
    missing in a directory [input_dir]. *)
Definition area_usable (area : path) (fs : node) : Prop :=
  is_dir area fs = true \/ (stat area fs = Missing /\ is_dir (parent area) fs = true).

Lemma mkdir_area (area : path) (fs : node) :
  area_usable area fs ->
  exists fs1,
    mkdir area false true fs = (Ok tt, fs1) /\
    extends fs fs1 /\ is_dir area fs1 = true /\
    forall nm, is_dir (joinpath area nm) fs = false ->
               is_dir (joinpath area nm) fs1 = false.
Proof.
  unfold mkdir, mkdir_here.
  intros [Hd|[Hm Hin]].
  - exists fs. unfold os_mkdir. unfold is_dir in *.
    destruct (stat area fs) as [[?|es]| |] eqn:Hst; try discriminate.
    cbn [andb]. repeat split; auto using extends_refl.
  - destruct (os_mkdir area fs) as [fs1|e] eqn:Hmk.
    + exists fs1. destruct (os_mkdir_stat _ _ _ Hmk) as [Hat _].
      split; [reflexivity|]. split; [eapply os_mkdir_extends; eauto|].
      split; [unfold is_dir; now rewrite Hat|].
      intros nm _. unfold is_dir, joinpath. now rewrite stat_app, Hat.
    + exfalso. unfold os_mkdir in Hmk. rewrite Hm in Hmk.
      unfold is_dir in Hin.
      destruct (stat (parent area) fs) as [[?|?]| |]; discriminate.
Qed.

(** A file moved into a directory [area] under its own name is there
    afterwards, in the place of what was called so, and is no longer where
    it was. *)
Lemma shutil_move_into (zp area : path) (fs : node) (f : file) :
  stat zp fs = Found (File f) -> is_dir area fs = true ->
  is_dir (joinpath area (name zp)) fs = false ->
  exists fs',
    shutil_move zp (joinpath area (name zp)) fs = Ok fs' /\
    stat (joinpath area (name zp)) fs' = Found (File f) /\
    (zp <> joinpath area (name zp) -> exists_ zp fs' = false).
Proof.
  intros Hzp Harea Hfree. set (rd := joinpath area (name zp)) in *.
  unfold shutil_move. rewrite Hzp. unfold real_dst. fold rd. rewrite Hfree.
  destruct (path_eqb zp rd) eqn:Heq.
  - apply path_eqb_eq in Heq. exists fs. split; [reflexivity|].
    split; [now rewrite <- Heq | congruence].
  - assert (Hzne : zp <> []).
    { intros ->. cbn in Hzp. injection Hzp as ->. unfold is_dir in Harea.
      destruct area; discriminate. }
    assert (Hzfile : is_dir zp fs = false) by (unfold is_dir; now rewrite Hzp).
    set (fs2 := update_dir (parent zp) (del_entry (name zp)) fs).
    assert (Hpar : is_dir area fs2 = true).
    { rewrite (kind_eq_is_dir _ area fs fs2); [exact Harea|].
      apply stat_del_entry_other. intros q' Hq.
      rewrite below_entry in Hq by exact Hzne.
      rewrite Hq, (not_dir_below _ _ _ Hzfile) in Harea. discriminate. }
    assert (Hp2 : parent rd = area) by apply parent_joinpath.
    assert (Hrdne : rd <> []) by (unfold rd, joinpath; now destruct area).
    assert (Hcheck : rename_check rd fs = Ok tt).
    { unfold rename_check. rewrite Hp2. unfold is_dir in Harea, Hfree.
      destruct (stat area fs) as [[?|es]| |] eqn:Hst; try discriminate.
      assert (Hcase : stat rd fs = Missing \/ exists n, stat rd fs = Found n).
      { unfold rd, joinpath. rewrite stat_app, Hst. cbn [stat].
        destruct (lookup_entry _ es); eauto. }
      destruct Hcase as [Hc|[n Hc]]; rewrite Hc in *; [reflexivity|].
      destruct n; [reflexivity | discriminate]. }
    rewrite Hcheck. eexists. split; [reflexivity|]. fold fs2.
    unfold is_dir in Hpar.
    destruct (stat area fs2) as [[?|es2]| |] eqn:Hst2; try discriminate.
    unfold enter_file. rewrite Hp2. unfold rd at 2 4. rewrite name_joinpath.
    split.
    + unfold rd, joinpath. now rewrite (stat_set_entry_at _ _ _ [] _ es2 Hst2).
    + intros _. apply path_eqb_eq in Heq || idtac.
      assert (Hgone : stat zp fs2 = Missing).
      { assert (Hd : exists es', stat (parent zp) fs = Found (Dir es')).
        { rewrite (parent_name zp Hzne), stat_app in Hzp.
          destruct (stat (parent zp) fs) as [[?|?]| |]; try discriminate. eauto. }
        destruct Hd as [es' Hd]. rewrite (parent_name zp Hzne) at 1.
        unfold fs2. now rewrite (stat_del_entry_at _ _ [] _ es' Hd). }
      rewrite (kind_eq_exists zp zp fs2); [unfold exists_; now rewrite Hgone|].
      apply stat_set_entry_other. intros q' Hq.
      change (area ++ name zp :: q') with (area ++ [name zp] ++ q') in Hq.
      rewrite app_assoc in Hq. fold (joinpath area (name zp)) in Hq. fold rd in Hq.
      destruct q' as [|c q''].
      * rewrite app_nil_r in Hq. subst rd. rewrite <- Hq in Heq.
        assert (Ht : path_eqb zp zp = true) by now apply path_eqb_eq.
        congruence.
      * rewrite Hq in Hzp. rewrite stat_app in Hzp. unfold is_dir in Hfree.
        destruct (stat rd fs) as [[?|?]| |]; discriminate.
Qed.

End Moves.

(** ** The loop of the batch *)

Section Loop.

Variable upper : str -> str.
Variable db : Type.
Variable run_schema : M db unit.
Variable run_insert : model_data -> M db Z.

Definition processed_dir_of (input_dir : path) : path :=
  joinpath input_dir (lit "_processed").

(** With the failed area in place the handler of the loop returns. *)
Lemma route_failed_returns (input_dir zp : path) (w : world db) :
  is_dir (failed_dir_of input_dir) (fs w) = true ->
  exists fs',
    route_failed db input_dir zp w = (Ok tt, {| fs := fs'; store := store w |}) /\
    forall q, is_dir q (fs w) = true -> is_dir q fs' = true.
Proof.
  intros Hd. unfold route_failed, bind, try_except, on_fs, step, ret.
  fold (failed_dir_of input_dir).
  destruct (mkdir_area _ (fs w) (or_introl Hd)) as (fs1 & Hmk & _).
  assert (Hsame : fs1 = fs w).
  { unfold mkdir, mkdir_here in Hmk.
    destruct (os_mkdir (failed_dir_of input_dir) (fs w)) as [fs0|e] eqn:Hos.
    - destruct (os_mkdir_inv _ _ _ Hos) as (_ & Hmiss & _).
      unfold is_dir in Hd. now rewrite Hmiss in Hd.
    - destruct e; rewrite ?Hd in Hmk; cbn in Hmk; congruence. }
  subst fs1. rewrite Hmk. cbn [fs store].
  destruct (shutil_move zp _ (fs w)) as [fs2|e] eqn:Hmv; cbn [fs store].
  - exists fs2. split; [reflexivity|]. now apply (shutil_move_dirs _ _ _ _ Hmv).
  - exists (fs w). split; [reflexivity | auto].
Qed.

(** The body of the loop returns, and no directory is lost. *)
Lemma process_zip_returns (input_dir final_base_dir tmp_base zp : path) (w : world db) :
  is_dir (failed_dir_of input_dir) (fs w) = true ->
  exists w',
    process_zip upper db run_insert input_dir final_base_dir tmp_base zp w
    = (Ok tt, w') /\
    forall q, is_dir q (fs w) = true -> is_dir q (fs w') = true.
Proof.
  intros Hd.
  assert (Hhandler : forall w1 : world db,
            (forall q, is_dir q (fs w) = true -> is_dir q (fs w1) = true) ->
            exists w',
              route_failed db input_dir zp w1 = (Ok tt, w') /\
              forall q, is_dir q (fs w) = true -> is_dir q (fs w') = true).
  { intros w1 Hkeep.
    destruct (route_failed_returns input_dir zp w1 (Hkeep _ Hd)) as (fs' & Hr & Hk).
    eexists. split; [exact Hr|]. cbn [fs]. auto. }
  unfold process_zip, try_except, bind, on_fs at 1.
  destruct (process_one_zip upper zp final_base_dir tmp_base (fs w))
    as [[[target md]|e] fs1] eqn:Hone.
  - destruct (process_one_zip_spec upper _ _ _ _ _ _ Hone)
      as (Hext & Hne & Hfresh & Hdir & _). cbn [fst] in *.
    assert (Hkeep1 : forall q, is_dir q (fs w) = true -> is_dir q fs1 = true).
    { intros q Hq. eapply extends_is_dir; eauto. }
    cbn [fst snd]. unfold on_store, ret. cbn [fs store].
    destruct (insert_model db run_insert md (store w)) as [[id|db_exc] db1] eqn:Hins;
      cbn [fs store].
    + unfold on_fs, step. cbn [fs store].
      destruct (mkdir (joinpath input_dir (lit "_processed")) false true fs1)
        as [[[]|e] fs2] eqn:Hmk; cbn [fs store].
      * destruct (mkdir_spec _ _ _ _ _ _ Hmk) as [Hext2 _].
        assert (Hkeep2 : forall q, is_dir q (fs w) = true -> is_dir q fs2 = true).
        { intros q Hq. eapply extends_is_dir; eauto. }
        destruct (shutil_move zp _ fs2) as [fs3|e] eqn:Hmv; cbn [fs store].
        -- eexists. split; [reflexivity|]. cbn [fs]. intros q Hq.
           apply (shutil_move_dirs _ _ _ _ Hmv). auto.
        -- apply Hhandler. exact Hkeep2.
      * apply Hhandler. cbn [fs]. intros q Hq.
        destruct (mkdir_spec _ _ _ _ _ _ Hmk) as [Hext2 _].
        eapply extends_is_dir; eauto.
    + unfold on_fs. cbn [fs store].
      destruct (remove_partial_spec target fs1) as (fs2 & Hrm & Hframe & _).
      rewrite Hrm. cbn [fs store]. eexists. split; [reflexivity|].
      cbn [fs]. intros q Hq.
      rewrite (kind_eq_is_dir q q fs1 fs2); [now apply Hkeep1|].
      apply Hframe. apply (not_below_fresh target q (fs w)); [exact Hfresh|].
      unfold exists_, is_dir in *. now destruct (stat q (fs w)) as [[?|?]| |].
  - apply Hhandler. cbn [fs].
    destruct (process_one_zip_spec upper _ _ _ _ _ _ Hone) as [Hext _].
    intros q Hq. eapply extends_is_dir; eauto.
Qed.

Lemma for_each_returns (input_dir final_base_dir tmp_base : path) (zip_paths : list path) :
  forall w : world db,
    is_dir (failed_dir_of input_dir) (fs w) = true ->
    exists w',
      for_each (process_zip upper db run_insert input_dir final_base_dir tmp_base)
        zip_paths w = (Ok tt, w') /\
      forall q, is_dir q (fs w) = true -> is_dir q (fs w') = true.
Proof.
  induction zip_paths as [|zp rest IH]; intros w Hd.
  - exists w. split; [reflexivity | auto].
  - destruct (process_zip_returns input_dir final_base_dir tmp_base zp w Hd)
      as (w1 & H1 & Hk1).
    destruct (IH w1 (Hk1 _ Hd)) as (w2 & H2 & Hk2).
    exists w2. split; [|auto].
    now rewrite (for_each_cons _ _ _ _ _ H1).
Qed.

(** X17. Where [_failed] is a directory of the input directory, the loop
    of the batch never raises, whatever the archives are and however they
    fail: every archive is handled, and no directory that existed before
    is lost. [process_all_zips] then returns whenever the schema script
    and the making of the output and the temporary directory went
    through. *)
Theorem batch_returns (input_dir final_base_dir tmp_base : path) (w : world db) :
  is_dir (failed_dir_of input_dir) (fs w) = true ->
  (forall zip_paths, exists w',
     for_each (process_zip upper db run_insert input_dir final_base_dir tmp_base)
       zip_paths w = (Ok tt, w') /\
     forall q, is_dir q (fs w) = true -> is_dir q (fs w') = true) /\
  (forall db1 fs1 fs2,
     run_schema (store w) = (Ok tt, db1) ->
     mkdir final_base_dir true true (fs w) = (Ok tt, fs1) ->
     mkdir tmp_base true true fs1 = (Ok tt, fs2) ->
     exists w',
       process_all_zips upper db run_schema run_insert input_dir final_base_dir
         tmp_base w = (Ok tt, w') /\
       is_dir final_base_dir (fs w') = true /\ is_dir tmp_base (fs w') = true).
Proof.
  intros Hd. split.
  - intros zip_paths. now apply for_each_returns.
  - intros db1 fs1 fs2 Hs H1 H2.
    unfold process_all_zips, bind, on_store, on_fs, init_database, read.
    rewrite Hs. cbn [fs store]. rewrite H1. cbn [fs store]. rewrite H2.
    cbn [fs store].
    destruct (mkdir_spec _ _ _ _ _ _ H1) as [E1 D1].
    destruct (mkdir_spec _ _ _ _ _ _ H2) as [E2 D2].
    specialize (D1 eq_refl). specialize (D2 eq_refl).
    set (w2 := {| fs := fs2; store := db1 |}).
    destruct (for_each_returns input_dir final_base_dir tmp_base
                (discover input_dir fs2) w2) as (w' & Hrun & Hkeep).
    { cbn [fs]. eapply extends_is_dir; [exact E2|].
      eapply extends_is_dir; [exact E1 | exact Hd]. }
    exists w'. split; [exact Hrun|]. split; apply Hkeep; cbn [fs]; [|exact D2].
    eapply extends_is_dir; eauto.
Qed.

(** X18. An archive that is imported and whose record is stored is moved
    to [_processed], which is made when it is missing. Where [_processed]
    is a directory or can be made and no directory stands at the place of
    the archive there, the loop body returns, the archive is the file of
    its name in [_processed], in the place of an archive of that name from
    an earlier batch, and it is no longer where it was; the directory of
    the model stays. *)
Theorem processed_archive_moved (input_dir final_base_dir tmp_base zp : path)
    (w : world db) (target_dir : path) (md : model_data) (fs1 : node)
    (model_id : Z) (db1 : db) :
  process_one_zip upper zp final_base_dir tmp_base (fs w) = (Ok (target_dir, md), fs1) ->
  insert_model db run_insert md (store w) = (Ok model_id, db1) ->
  (is_dir (processed_dir_of input_dir) fs1 = true \/
   (stat (processed_dir_of input_dir) fs1 = Missing /\ is_dir input_dir fs1 = true)) ->
  is_dir (joinpath (processed_dir_of input_dir) (name zp)) fs1 = false ->
  exists f fs2,
    stat zp (fs w) = Found (File f) /\
    process_zip upper db run_insert input_dir final_base_dir tmp_base zp w
    = (Ok tt, {| fs := fs2; store := db1 |}) /\
    stat (joinpath (processed_dir_of input_dir) (name zp)) fs2 = Found (File f) /\
    (zp <> joinpath (processed_dir_of input_dir) (name zp) -> exists_ zp fs2 = false) /\
    is_dir target_dir fs2 = true.
Proof.
  intros Hone Hins Huse Hfree.
  assert (Huse' : area_usable (processed_dir_of input_dir) fs1).
  { unfold area_usable, processed_dir_of. now rewrite parent_joinpath. }
  destruct (process_one_zip_spec upper _ _ _ _ _ _ Hone)
    as (Hext & Hne & Hfresh & Hdir & f & Hzp). cbn [fst] in *.
  pose proof (extends_file _ _ _ _ Hext Hzp) as Hzp1.
  destruct (mkdir_area _ _ Huse') as (fs2 & Hmk & Hext2 & Hpd & Hkeep).
  specialize (Hkeep _ Hfree).
  pose proof (extends_file _ _ _ _ Hext2 Hzp1) as Hzp2.
  destruct (shutil_move_into zp _ fs2 f Hzp2 Hpd Hkeep) as (fs3 & Hmv & Hat & Hgone).
  exists f, fs3. split; [exact Hzp|]. split; [|split; [exact Hat|split; [exact Hgone|]]].
  - unfold process_zip, try_except, bind, on_fs, on_store, ret, step.
    rewrite Hone. cbn [fst snd fs store]. rewrite Hins. cbn [fs store].
    fold (processed_dir_of input_dir). rewrite Hmk. cbn [fs store].
    now rewrite Hmv.
  - apply (shutil_move_dirs _ _ _ _ Hmv). eapply extends_is_dir; eauto.
Qed.

(** X19. An archive for which [process_one_zip] raises, whatever the
    exception, is moved to [_failed], which is made when it is missing.
    Where [_failed] is a directory or can be made and no directory stands
    at the place of the archive there, the loop body returns, the store is
    as it was, the archive is the file of its name in [_failed] and no
    longer where it was; and the output directory has, when the handler
    starts, the entries it had before. *)
Theorem failed_archive_moved (input_dir final_base_dir tmp_base zp : path)
    (w : world db) (e : exn) (fs1 : node) (f : file) :
  process_one_zip upper zp final_base_dir tmp_base (fs w) = (Raise e, fs1) ->
  stat zp (fs w) = Found (File f) ->
  (is_dir (failed_dir_of input_dir) fs1 = true \/
   (stat (failed_dir_of input_dir) fs1 = Missing /\ is_dir input_dir fs1 = true)) ->
  is_dir (joinpath (failed_dir_of input_dir) (name zp)) fs1 = false ->
  exists fs2,
    process_zip upper db run_insert input_dir final_base_dir tmp_base zp w
    = (Ok tt, {| fs := fs2; store := store w |}) /\
    stat (joinpath (failed_dir_of input_dir) (name zp)) fs2 = Found (File f) /\
    (zp <> joinpath (failed_dir_of input_dir) (name zp) -> exists_ zp fs2 = false) /\
    forall c, exists_ (joinpath final_base_dir c) fs1
              = exists_ (joinpath final_base_dir c) (fs w).
Proof.
  intros Hone Hzp Huse Hfree.
  assert (Huse' : area_usable (failed_dir_of input_dir) fs1).
  { unfold area_usable, failed_dir_of. now rewrite parent_joinpath. }
  destruct (process_one_zip_spec upper _ _ _ _ _ _ Hone) as [Hext _].
  pose proof (extends_file _ _ _ _ Hext Hzp) as Hzp1.
  destruct (mkdir_area _ _ Huse') as (fs2 & Hmk & Hext2 & Hpd & Hkeep).
  specialize (Hkeep _ Hfree).
  pose proof (extends_file _ _ _ _ Hext2 Hzp1) as Hzp2.
  destruct (shutil_move_into zp _ fs2 f Hzp2 Hpd Hkeep) as (fs3 & Hmv & Hat & Hgone).
  exists fs3. split; [|split; [exact Hat|split; [exact Hgone|]]].
  - unfold process_zip, try_except, bind, on_fs at 1. rewrite Hone.
    unfold route_failed, bind, try_except, on_fs, step, ret. cbn [fs store].
    fold (failed_dir_of input_dir). rewrite Hmk. cbn [fs store].
    now rewrite Hmv.
  - now apply (process_one_zip_no_partial upper _ _ _ _ _ e Hone).
Qed.

(** *** What the batch leaves alone *)

Lemma extends_kept (fs fs' : node) (q : path) :
  extends fs fs' -> exists_ q fs = true ->
  kind (stat q fs') = kind (stat q fs) /\ exists_ q fs' = true.
Proof.
  intros Hext Hq. pose proof (Hext q Hq) as Hk. split; [exact Hk|].
  now rewrite (kind_eq_exists q q fs fs' Hk).
Qed.

Lemma route_failed_frame (input_dir zp : path) (w w' : world db) r :
  route_failed db input_dir zp w = (r, w') ->
  forall q, exists_ q (fs w) = true -> q <> zp ->
    q <> joinpath (failed_dir_of input_dir) (name zp) ->
    kind (stat q (fs w')) = kind (stat q (fs w)).
Proof.
  unfold route_failed, bind, try_except, on_fs, step, ret.
  fold (failed_dir_of input_dir).
  destruct (mkdir (failed_dir_of input_dir) false true (fs w)) as [[[]|e] fs1] eqn:Hmk;
    cbn [fs store]; destruct (mkdir_spec _ _ _ _ _ _ Hmk) as [Hext _].
  - destruct (shutil_move zp _ fs1) as [fs2|e] eqn:Hmv; cbn [fs store];
      intros [= <- <-] q Hq Hz Hd; cbn [fs];
      destruct (extends_kept _ _ q Hext Hq) as [Hk Hq1]; [|exact Hk].
    rewrite <- Hk. now apply (shutil_move_frame _ _ _ _ Hmv).
  - intros [= <- <-] q Hq _ _. cbn [fs]. now apply Hext.
Qed.

(** The body of the loop changes nothing that existed before but the
    archive and what stands at its place in [_processed] and
    [_failed]. *)
Lemma process_zip_frame (input_dir final_base_dir tmp_base zp : path)
    (w w' : world db) r :
  process_zip upper db run_insert input_dir final_base_dir tmp_base zp w = (r, w') ->
  forall q, exists_ q (fs w) = true -> q <> zp ->
    q <> joinpath (processed_dir_of input_dir) (name zp) ->
    q <> joinpath (failed_dir_of input_dir) (name zp) ->
    kind (stat q (fs w')) = kind (stat q (fs w)).
Proof.
  intros H q Hq Hz Hp Hf.
  assert (Hhandler : forall w1 : world db,
            kind (stat q (fs w1)) = kind (stat q (fs w)) ->
            route_failed db input_dir zp w1 = (r, w') ->
            kind (stat q (fs w')) = kind (stat q (fs w))).
  { intros w1 Hk Hr. rewrite <- Hk.
    apply (route_failed_frame _ _ _ _ _ Hr); auto.
    now rewrite (kind_eq_exists q q (fs w) (fs w1) Hk). }
  unfold process_zip, try_except, bind, on_fs at 1 in H.
  destruct (process_one_zip upper zp final_base_dir tmp_base (fs w))
    as [[[target md]|e] fs1] eqn:Hone.
  - destruct (process_one_zip_spec upper _ _ _ _ _ _ Hone)
      as (Hext & Hne & Hfresh & Hdir & _). cbn [fst] in *.
    destruct (extends_kept _ _ q Hext Hq) as [Hk1 Hq1].
    cbn [fst snd] in H. unfold on_store, ret in H. cbn [fs store] in H.
    destruct (insert_model db run_insert md (store w)) as [[id|db_exc] db1] eqn:Hins;
      cbn [fs store] in H.
    + unfold on_fs, step in H. cbn [fs store] in H.
      fold (processed_dir_of input_dir) in H.
      destruct (mkdir (processed_dir_of input_dir) false true fs1)
        as [[[]|e] fs2] eqn:Hmk; cbn [fs store] in H;
        destruct (mkdir_spec _ _ _ _ _ _ Hmk) as [Hext2 _];
        destruct (extends_kept _ _ q Hext2 Hq1) as [Hk2 Hq2].
      * destruct (shutil_move zp _ fs2) as [fs3|e] eqn:Hmv; cbn [fs store] in H.
        -- injection H as <- <-. cbn [fs].
           rewrite (shutil_move_frame _ _ _ _ Hmv) by auto. congruence.
        -- eapply Hhandler; [|exact H]. cbn [fs]. congruence.
      * eapply Hhandler; [|exact H]. cbn [fs]. congruence.
    + unfold on_fs in H. cbn [fs store] in H.
      destruct (remove_partial_spec target fs1) as (fs2 & Hrm & Hframe & _).
      rewrite Hrm in H. cbn [fs store] in H. injection H as <- <-. cbn [fs].
      rewrite Hframe; [exact Hk1|].
      now apply (not_below_fresh target q (fs w)).
  - destruct (process_one_zip_spec upper _ _ _ _ _ _ Hone) as [Hext _].
    eapply Hhandler; [|exact H]. cbn [fs]. now apply Hext.
Qed.

(** X20. The batch changes nothing else: whatever existed before the loop
    and is neither one of the archives nor the place of one of them in
    [_processed] or [_failed] is afterwards what it was, a file with its
    contents or a directory, however the loop ends. *)
Theorem batch_preserves (input_dir final_base_dir tmp_base : path)
    (zip_paths : list path) (w w' : world db) r (q : path) :
  for_each (process_zip upper db run_insert input_dir final_base_dir tmp_base)
    zip_paths w = (r, w') ->
  exists_ q (fs w) = true ->
  (forall zp, In zp zip_paths ->
     q <> zp /\ q <> joinpath (processed_dir_of input_dir) (name zp) /\
     q <> joinpath (failed_dir_of input_dir) (name zp)) ->
  kind (stat q (fs w')) = kind (stat q (fs w)).
Proof.
  revert w. induction zip_paths as [|zp rest IH]; intros w H Hq Hall.
  - now injection H as _ <-.
  - cbn [for_each] in H. unfold bind in H.
    destruct (process_zip upper db run_insert input_dir final_base_dir tmp_base zp w)
      as [[[]|e] w1] eqn:H1.
    + destruct (Hall zp (or_introl eq_refl)) as (Hz & Hp & Hf).
      pose proof (process_zip_frame _ _ _ _ _ _ _ H1 q Hq Hz Hp Hf) as Hk.
      rewrite <- Hk. apply IH; [exact H | | intros zp' Hin; apply Hall; now right].
      now rewrite (kind_eq_exists q q (fs w) (fs w1) Hk).
    + injection H as _ <-.
      destruct (Hall zp (or_introl eq_refl)) as (Hz & Hp & Hf).
      apply (process_zip_frame _ _ _ _ _ _ _ H1 q Hq Hz Hp Hf).
Qed.

End Loop.

(** ** Where an archive is after its turn *)

Section FoundAgain.

Variable upper : str -> str.
Variable db : Type.
Variable run_insert : model_data -> M db Z.

(** A file below [input_dir] whose name ends with [.zip] is in the
    batch. *)
Lemma discover_finds (input_dir rel : path) (fs : node) (f : file) :
  rel <> [] -> stat (input_dir ++ rel) fs = Found (File f) ->
  zip_named rel = true ->
  In (input_dir ++ rel) (discover input_dir fs).
Proof.
  intros Hne Hst Hz. rewrite stat_app in Hst.
  destruct (stat input_dir fs) as [n| |] eqn:Hd; try discriminate.
  destruct (walk_finds rel input_dir n f Hne Hst)
    as (r & dirs & files & Hin & Hnm & Hpath).
  apply discover_In. exists r, dirs, files, (name rel).
  unfold os_walk. rewrite Hd. auto.
Qed.

(** A file that [shutil.move] moved is at the destination, or inside it
    under its own name. *)
Lemma shutil_move_lands (src dst : path) (fs fs' : node) (f : file) :
  stat src fs = Found (File f) -> shutil_move src dst fs = Ok fs' ->
  exists rd,
    (rd = dst \/ rd = joinpath dst (name src)) /\ stat rd fs' = Found (File f).
Proof.
  intros Hsrc. unfold shutil_move. rewrite Hsrc.
  destruct (real_dst (name src) dst fs) as [rd|] eqn:Hrd; [|discriminate].
  assert (Hwhere : rd = dst \/ rd = joinpath dst (name src)).
  { unfold real_dst in Hrd. destruct (is_dir dst fs); [|left; congruence].
    destruct (exists_ _ fs); [discriminate | right; congruence]. }
  cbn beta iota.
  destruct (path_eqb src rd) eqn:Heq.
  - apply path_eqb_eq in Heq. intros [= <-]. exists rd. split; [exact Hwhere|].
    now rewrite <- Heq.
  - destruct (rename_check rd fs) as [[]|] eqn:Hc; [|discriminate]. intros [= <-].
    destruct (rename_check_inv _ _ Hc) as (Hne & Hnd & es & Hpar).
    exists rd. split; [exact Hwhere|]. unfold enter_file.
    set (fs2 := update_dir (parent src) (del_entry (name src)) fs).
    assert (Hsne : src <> []).
    { intros ->. cbn in Hsrc. injection Hsrc as ->.
      destruct (parent rd); cbn in Hpar; discriminate. }
    assert (Hpar2 : exists es2, stat (parent rd) fs2 = Found (Dir es2)).
    { pose proof (stat_del_entry_other (parent src) (name src) (parent rd) fs) as Hk.
      fold fs2 in Hk. rewrite Hpar in Hk.
      assert (Hout : forall q', parent rd <> parent src ++ name src :: q').
      { intros q' Hq. rewrite below_entry in Hq by exact Hsne.
        rewrite Hq, stat_app, Hsrc in Hpar. destruct q'; discriminate. }
      specialize (Hk Hout).
      destruct (stat (parent rd) fs2) as [[?|es2]| |]; try discriminate. eauto. }
    destruct Hpar2 as [es2 Hpar2].
    rewrite (parent_name rd Hne) at 1.
    now rewrite (stat_set_entry_at _ _ _ [] _ es2 Hpar2).
Qed.

(** The archive [input_dir ++ rel] is still a file of that name below
    [input_dir]. *)
Definition within_reach (input_dir rel : path) (f : file) (fs : node) : Prop :=
  exists rel',
    rel' <> [] /\ name rel' = name rel /\
    stat (input_dir ++ rel') fs = Found (File f).

Lemma name_app (d rel : path) : rel <> [] -> name (d ++ rel) = name rel.
Proof.
  intros Hne. induction d as [|c d IH]; cbn [app]; [reflexivity|].
  rewrite name_cons; [exact IH|]. destruct d; [exact Hne | discriminate].
Qed.

Lemma moved_within_reach (input_dir rel : path) (area : str) (f : file)
    (fs fs' : node) :
  rel <> [] ->
  stat (input_dir ++ rel) fs = Found (File f) ->
  shutil_move (input_dir ++ rel)
    (joinpath (joinpath input_dir area) (name (input_dir ++ rel))) fs = Ok fs' ->
  within_reach input_dir rel f fs'.
Proof.
  intros Hne Hst Hmv.
  destruct (shutil_move_lands _ _ _ _ _ Hst Hmv) as (rd & [->| ->] & Hrd);
    rewrite (name_app input_dir rel Hne) in Hrd; unfold joinpath in Hrd;
    rewrite <- ?app_assoc in Hrd; cbn [app] in Hrd.
  - exists [area; name rel]. repeat split; [discriminate | exact Hrd].
  - exists [area; name rel; name rel]. repeat split; [discriminate | exact Hrd].
Qed.

Lemma route_failed_reach (input_dir rel : path) (f : file) (w w' : world db) r :
  rel <> [] ->
  stat (input_dir ++ rel) (fs w) = Found (File f) ->
  route_failed db input_dir (input_dir ++ rel) w = (r, w') ->
  within_reach input_dir rel f (fs w').
Proof.
  intros Hne Hst. unfold route_failed, bind, try_except, on_fs, step, ret.
  destruct (mkdir (joinpath input_dir (lit "_failed")) false true (fs w))
    as [[[]|e] fs1] eqn:Hmk; cbn [fs store];
    destruct (mkdir_spec _ _ _ _ _ _ Hmk) as [Hext _];
    pose proof (extends_file _ _ _ _ Hext Hst) as Hst1.
  - destruct (shutil_move _ _ fs1) as [fs2|e] eqn:Hmv; cbn [fs store];
      intros [= <- <-]; cbn [fs].
    + eapply moved_within_reach; eauto.
    + exists rel. auto.
  - intros [= <- <-]. cbn [fs]. exists rel. auto.
Qed.

(** X21. No archive leaves the input directory: after its turn in the
    loop, whether it was imported, set aside or left where it was, and
    also when the loop body raises, the archive is a file of the same name
    and contents somewhere below the input directory, and the discovery of
    a later batch lists it again. *)
Theorem archive_found_again (input_dir final_base_dir tmp_base rel : path)
    (f : file) (w w' : world db) r :
  rel <> [] -> zip_named rel = true ->
  stat (input_dir ++ rel) (fs w) = Found (File f) ->
  process_zip upper db run_insert input_dir final_base_dir tmp_base
    (input_dir ++ rel) w = (r, w') ->
  exists p,
    In p (discover input_dir (fs w')) /\ name p = name rel /\
    stat p (fs w') = Found (File f).
Proof.
  intros Hne Hz Hst H.
  assert (Hreach : within_reach input_dir rel f (fs w')).
  { unfold process_zip, try_except, bind, on_fs at 1 in H.
    destruct (process_one_zip upper (input_dir ++ rel) final_base_dir tmp_base (fs w))
      as [[[target md]|e] fs1] eqn:Hone;
      destruct (process_one_zip_spec upper _ _ _ _ _ _ Hone) as [Hext Hok];
      pose proof (extends_file _ _ _ _ Hext Hst) as Hst1.
    - destruct Hok as (_ & Hfresh & _). cbn [fst] in Hfresh.
      cbn [fst snd] in H. unfold on_store, ret in H. cbn [fs store] in H.
      destruct (insert_model db run_insert md (store w)) as [[id|db_exc] db1] eqn:Hins;
        cbn [fs store] in H.
      + unfold on_fs, step in H. cbn [fs store] in H.
        destruct (mkdir (joinpath input_dir (lit "_processed")) false true fs1)
          as [[[]|e] fs2] eqn:Hmk; cbn [fs store] in H;
          destruct (mkdir_spec _ _ _ _ _ _ Hmk) as [Hext2 _];
          pose proof (extends_file _ _ _ _ Hext2 Hst1) as Hst2.
        * destruct (shutil_move _ _ fs2) as [fs3|e] eqn:Hmv; cbn [fs store] in H.
          -- injection H as <- <-. cbn [fs]. eapply moved_within_reach; eauto.
          -- eapply route_failed_reach; [exact Hne | | exact H]. exact Hst2.
        * eapply route_failed_reach; [exact Hne | | exact H]. exact Hst2.
      + unfold on_fs in H. cbn [fs store] in H.
        destruct (remove_partial_spec target fs1) as (fs2 & Hrm & Hframe & _).
        rewrite Hrm in H. cbn [fs store] in H. injection H as <- <-. cbn [fs].
        exists rel. split; [exact Hne|]. split; [reflexivity|].
        apply kind_file. rewrite Hframe; [now rewrite Hst1|].
        apply (not_below_fresh target _ (fs w)); [exact Hfresh|].
        unfold exists_. now rewrite Hst.
    - eapply route_failed_reach; [exact Hne | | exact H]. exact Hst1. }
  destruct Hreach as (rel' & Hne' & Hname & Hst').
  exists (input_dir ++ rel'). split; [|split; [|exact Hst']].
  - apply (discover_finds _ _ _ f Hne' Hst').
    unfold zip_named in *. now rewrite Hname.
  - now rewrite name_app.
Qed.

End FoundAgain.

(** ** The theorems at work *)

Section Witnesses.

Import Demo.

(** C1 at [w_dup]: the store refuses a second [cube]; the directory
    [data/models/cube] is removed again and [cube.zip] stays where it
    is. *)
Lemma persist_failure_witness :
  exists fs2,
    process_zip ascii_upper table insert input_dir output_dir tmp_dir
      (input_dir ++ P ["cube.zip"]) w_dup
    = (Ok tt, {| fs := fs2; store := [cube_row] |}) /\
    exists_ (output_dir ++ P ["cube"]) fs2 = false /\
    stat (input_dir ++ P ["cube.zip"]) fs2 = Found (File cube_zip).
Proof.
  edestruct (persist_failure_rolls_back ascii_upper table insert
               input_dir output_dir tmp_dir (input_dir ++ P ["cube.zip"]) []
               w_dup)
    as (fs2 & _ & Hbody & _ & Hgone & _ & (f & Hf & Hf2) & _).
  - vm_compute. reflexivity.
  - vm_compute. reflexivity.
  - exists fs2. split; [exact Hbody|]. split; [exact Hgone|].
    rewrite Hf2. rewrite <- Hf. reflexivity.
Defined.

(** C2 at a relocation whose preview is none of the files. *)
Lemma relocation_rollback_witness :
  exists fs',
    relocate ascii_upper ∅ (output_dir ++ P ["m"]) (P ["a.obj"]) (P ["x.jpg"])
      [(P ["a.obj"], binary)] (tree [] [(lit "m", Dir [])])
    = (Raise (RuntimeError PreviewLost), fs') /\
    exists_ (output_dir ++ P ["m"]) fs' = false.
Proof.
  destruct (relocation_rollback ascii_upper ∅ (output_dir ++ P ["m"])
              (P ["a.obj"]) (P ["x.jpg"]) [(P ["a.obj"], binary)]
              (tree [] [(lit "m", Dir [])]))
    as [Hlost _].
  - discriminate.
  - reflexivity.
  - edestruct (Hlost None) as (_ & _ & H).
    + vm_compute. reflexivity.
    + apply H. reflexivity.
Defined.

(** C6 at a hint that names a file, with a PNG file before it. *)
Lemma preview_resolution_witness :
  exists p,
    resolve_preview (Some (lit "cube.jpg")) [P ["a.png"]; P ["sub"; "cube.jpg"]]
    = Some p /\
    first_such (named (lit "cube.jpg")) [P ["a.png"]; P ["sub"; "cube.jpg"]] p.
Proof.
  apply (proj1 (preview_resolution ascii_upper (Some (lit "cube.jpg"))
                  [P ["a.png"]; P ["sub"; "cube.jpg"]]) (lit "cube.jpg")).
  - reflexivity.
  - discriminate.
  - apply Exists_cons_tl, Exists_cons_hd. reflexivity.
Defined.

(** C8 at a directory that holds [cube], [cube_1] and [cube_2]. *)
Lemma ensure_unique_dir_witness :
  ensure_unique_dir output_dir (lit "cube") (fs w_taken) = output_dir ++ P ["cube_3"].
Proof.
  apply (proj2 (proj2 (proj2
           (ensure_unique_dir_free output_dir (lit "cube") (fs w_taken)))));
    reflexivity.
Defined.

(** C9 at the tree that a first batch leaves behind. *)
Lemma discover_recursive_witness :
  In (input_dir ++ P ["_processed"; "cube.zip"])
     (discover input_dir (fs (snd (run w_cube)))).
Proof.
  apply (proj1 (proj2 (discover_recursive input_dir (fs (snd (run w_cube)))))
           (lit "_processed") (lit "cube.zip") cube_zip).
  - left. reflexivity.
  - vm_compute. reflexivity.
  - reflexivity.
Defined.

(** An archive whose [cone.txt] is no UTF-8 text, with the failed area
    free. *)
Lemma undecodable_metadata_witness :
  process_one_zip ascii_upper (input_dir ++ P ["latin.zip"]) output_dir tmp_dir
    (fs w_latin) = (Raise TypeError, fs w_latin) /\
  exists fs',
    process_zip ascii_upper table insert input_dir output_dir tmp_dir
      (input_dir ++ P ["latin.zip"]) w_latin
    = (Ok tt, {| fs := fs'; store := [] |}) /\
    stat (input_dir ++ P ["_failed"; "latin.zip"]) fs' = Found (File latin_zip).
Proof.
  destruct (undecodable_metadata_aborts ascii_upper table insert
              input_dir output_dir tmp_dir (input_dir ++ P ["latin.zip"])
              w_latin latin_zip
              [(P ["cone.obj"], binary); (P ["cone.jpg"], binary);
               (P ["cone.txt"], binary)]
              (P ["cone.txt"], binary))
    as (_ & Hone & _ & Hmove); try reflexivity.
  split; [exact Hone|].
  destruct Hmove as (fs' & Hbody & Hat).
  - right. split; reflexivity.
  - reflexivity.
  - exists fs'. split; [exact Hbody | exact Hat].
Defined.

End Witnesses.

(** ** More of the theorems at work *)

Section Instances.

Import Demo.

(** The 29th of February of a leap year. *)
Lemma parse_date_valid_witness : valid_date (mk_date 2024 2 29).
Proof. apply (parse_date_valid (lit "29.02.2024")). reflexivity. Defined.

(** A date with one-digit day, slashes and blanks around it. *)
Lemma parse_date_accepts_witness :
  parse_date (lit " " ++ lit "5/11/2020" ++ lit "  ") = Some (mk_date 2020 11 5).
Proof.
  apply (parse_date_accepts "/"%char (mk_date 2020 11 5) (lit "5/11/2020")).
  - unfold valid_date. cbn [year month day].
    replace (days_in_month 2020 11) with 30%Z by reflexivity. lia.
  - right. left. reflexivity.
  - exists [digit_char 5], (pad2 11). split; [|split].
    + right. split; [cbn; lia | reflexivity].
    + left. reflexivity.
    + reflexivity.
  - repeat constructor.
  - repeat constructor.
Defined.

Lemma parse_date_shape_witness :
  exists sep, separator sep /\ date_text sep (mk_date 1999 3 7) (lit "07-03-1999").
Proof.
  exact (parse_date_shape (lit "  07-03-1999 ") (mk_date 1999 3 7) eq_refl).
Defined.

(** A hint that names a file wins, also over a file with a geometry
    extension that stands before it. *)
Lemma geometry_resolution_witness :
  exists p,
    resolve_geometry (Some (lit "mesh.dat")) [P ["a.obj"]; P ["sub"; "mesh.dat"]]
    = Some p /\
    first_such (named (lit "mesh.dat")) [P ["a.obj"]; P ["sub"; "mesh.dat"]] p.
Proof.
  apply (proj1 (geometry_resolution ascii_upper (Some (lit "mesh.dat"))
                  [P ["a.obj"]; P ["sub"; "mesh.dat"]]) (lit "mesh.dat")).
  - reflexivity.
  - discriminate.
  - apply Exists_cons_tl, Exists_cons_hd. reflexivity.
Defined.

(** The [.txt] file named like the archive wins over the one before
    it. *)
Lemma metadata_selection_witness :
  exists mf,
    select_metadata (P ["in"; "Cube.zip"])
      [(P ["notes.txt"], binary); (P ["cube.TXT"], binary)] = Some mf /\
    first_such (named_like (P ["in"; "Cube.zip"]))
      (txt_files [(P ["notes.txt"], binary); (P ["cube.TXT"], binary)]) mf.
Proof.
  apply (proj1 (metadata_selection (P ["in"; "Cube.zip"])
                  [(P ["notes.txt"], binary); (P ["cube.TXT"], binary)])).
  apply Exists_cons_tl, Exists_cons_hd. reflexivity.
Defined.

(** An archive called [ .zip] has a base name. *)
Lemma model_base_defined_witness :
  exists slug, slugify (model_base None None (P ["in"; " .zip"])) = Some slug.
Proof.
  apply (proj2 (proj2 (proj2 (model_base_defined None None (P ["in"; " .zip"]))))).
  discriminate.
Defined.

Lemma slugify_idempotent_witness :
  slugify (lit "My_Model") = Some (lit "My_Model").
Proof. apply (slugify_idempotent (lit "My Model.obj")). reflexivity. Defined.

(** The archive [cube.zip] of [w_cube]. *)
Lemma model_directory_witness :
  is_dir (output_dir ++ P ["cube"]) (snd (one "cube.zip" w_cube)) = true /\
  exists_ (output_dir ++ P ["cube"]) (fs w_cube) = false.
Proof.
  edestruct (model_directory ascii_upper (joinpath input_dir (lit "cube.zip"))
               output_dir tmp_dir (fs w_cube))
    as (_ & _ & _ & Hfree & Hdir & _).
  - vm_compute. reflexivity.
  - split; [exact Hdir | exact Hfree].
Defined.

Lemma model_files_witness :
  exists names,
    List.NoDup names /\ In (lit "cube.jpg") names /\
    forall y, exists_ (joinpath (output_dir ++ P ["cube"]) y)
                (snd (one "cube.zip" w_cube)) = true -> In y names.
Proof.
  edestruct (model_files ascii_upper (joinpath input_dir (lit "cube.zip"))
               output_dir tmp_dir (fs w_cube))
    as (files & parsed & names & preview & _ & _ & Hnd & Hexact & _
        & l1 & sf & l2 & _ & _ & _ & Hin & _).
  - vm_compute. reflexivity.
  - exists names. split; [exact Hnd|]. split; [exact Hin | exact Hexact].
Defined.

Lemma model_record_witness : valid_date (mk_date 2023 2 1).
Proof.
  edestruct (model_record ascii_upper (joinpath input_dir (lit "cube.zip"))
               output_dir tmp_dir (fs w_cube))
    as (_ & _ & Hdate & _).
  - vm_compute. reflexivity.
  - apply Hdate. reflexivity.
Defined.

(** The count [1.2e4] is a whole number. *)
Lemma polygon_count_value_witness :
  to_polygon_count (Some (lit "1.2e4")) = Ok (Some 12000%Z).
Proof.
  destruct (proj2 (proj2 polygon_count_value) (lit "1.2e4") false 12%Z 3%Z)
    as (t & Ht & _ & Hw).
  - reflexivity.
  - vm_compute. reflexivity.
  - reflexivity.
  - rewrite Ht, (Hw eq_refl). reflexivity.
Defined.

(** The record of [cube.zip] goes to the [INSERT]. *)
Lemma insert_model_required_witness :
  exists md,
    fst (one "cube.zip" w_cube) = Ok (output_dir ++ P ["cube"], md) /\
    insert_model table insert md = insert md.
Proof.
  eexists. split.
  - vm_compute. reflexivity.
  - eapply (proj2 (proj2 (insert_model_required ascii_upper table insert))
              (joinpath input_dir (lit "cube.zip")) output_dir tmp_dir (fs w_cube)).
    vm_compute. reflexivity.
Defined.



(** The archive [latin.zip] of [w_latin]. *)
Lemma type_error_cause_witness :
  undecodable (joinpath input_dir (lit "latin.zip")) (fs w_latin).
Proof.
  edestruct (type_error_cause ascii_upper (joinpath input_dir (lit "latin.zip"))
               output_dir tmp_dir (fs w_latin))
    as [Hu _].
  - vm_compute. reflexivity.
  - discriminate.
  - intros f files Hst Hf. vm_compute in Hst. injection Hst as <-.
    vm_compute in Hf. injection Hf as <-. repeat constructor; discriminate.
  - exact Hu.
Defined.


Lemma processed_archive_moved_witness :
  exists fs2 db1,
    process_zip ascii_upper table insert input_dir output_dir tmp_dir
      (joinpath input_dir (lit "cube.zip")) w_cube
    = (Ok tt, {| fs := fs2; store := db1 |}) /\
    exists_ (joinpath input_dir (lit "cube.zip")) fs2 = false.
Proof.
  edestruct (processed_archive_moved ascii_upper table insert input_dir output_dir
               tmp_dir (joinpath input_dir (lit "cube.zip")) w_cube)
    as (f & fs2 & _ & Hbody & _ & Hgone & _).
  - vm_compute. reflexivity.
  - vm_compute. reflexivity.
  - right. split; vm_compute; reflexivity.
  - vm_compute. reflexivity.
  - eexists fs2, _. split; [exact Hbody|]. apply Hgone. discriminate.
Defined.

Lemma failed_archive_moved_witness :
  exists fs2,
    process_zip ascii_upper table insert input_dir output_dir tmp_dir
      (joinpath input_dir (lit "bad.zip")) w_bad
    = (Ok tt, {| fs := fs2; store := [] |}) /\
    stat (input_dir ++ P ["_failed"; "bad.zip"]) fs2 = Found (File binary).
Proof.
  edestruct (failed_archive_moved ascii_upper table insert input_dir output_dir
               tmp_dir (joinpath input_dir (lit "bad.zip")) w_bad)
    as (fs2 & Hbody & Hat & _).
  - vm_compute. reflexivity.
  - vm_compute. reflexivity.
  - right. split; vm_compute; reflexivity.
  - vm_compute. reflexivity.
  - exists fs2. split; [exact Hbody | exact Hat].
Defined.

(** After its import [cube.zip] of [w_cube] is in the batch again. *)
Lemma archive_found_again_witness :
  exists p,
    In p (discover input_dir
            (fs (snd (process_zip ascii_upper table insert input_dir output_dir
                        tmp_dir (input_dir ++ P ["cube.zip"]) w_cube)))) /\
    name p = lit "cube.zip".
Proof.
  edestruct (archive_found_again ascii_upper table insert input_dir output_dir
               tmp_dir (P ["cube.zip"]) cube_zip w_cube) as (p & Hin & Hname & _).
  - discriminate.
  - reflexivity.
  - reflexivity.
  - apply surjective_pairing.
  - exists p. split; [exact Hin | exact Hname].
Defined.

(** A second batch over the tree that the batch of [w_bad] left, where
    [_failed] is a directory. *)
Lemma batch_returns_witness :
  exists w',
    for_each (process_zip ascii_upper table insert input_dir output_dir tmp_dir)
      (discover input_dir (fs (snd (run w_bad)))) (snd (run w_bad))
    = (Ok tt, w').
Proof.
  destruct (proj1 (batch_returns ascii_upper table schema insert input_dir
                     output_dir tmp_dir (snd (run w_bad)) eq_refl)
              (discover input_dir (fs (snd (run w_bad)))))
    as (w' & Hrun & _).
  exists w'. exact Hrun.
Defined.

(** The temporary directory of [w_bad] through its batch. *)
Lemma batch_preserves_witness :
  kind (stat tmp_dir
          (fs (snd (for_each
                      (process_zip ascii_upper table insert input_dir output_dir tmp_dir)
                      (discover input_dir (fs w_bad)) w_bad))))
  = kind (stat tmp_dir (fs w_bad)).
Proof.
  eapply (batch_preserves ascii_upper table insert input_dir output_dir tmp_dir
            (discover input_dir (fs w_bad)) w_bad).
  - apply surjective_pairing.
  - reflexivity.
  - intros zp Hin. vm_compute in Hin.
    destruct Hin as [<-|[<-|[]]]; repeat split; discriminate.
Defined.

End Instances.
